(** * Invoice automation: extraction pipeline

  A shallow embedding of the extraction pipeline of the invoice-automation
  repository (page-group segmentation, vendor resolution, template
  validation and record normalization) together with the properties its
  specification states about it.

  Python values are modelled as follows.
  - [str] is a list of Unicode code points ([pystr]).
  - [int] page indices are [nat]; other integers are [Z].
  - [None]-able values are [option].
  - exceptions are an explicit error type, threaded through a small
    state-and-error monad where the code talks to its collaborators. *)

From Stdlib Require Import ZArith NArith QArith Ascii String List Lia Bool.
From stdpp Require Import base option list sorting gmap.
Import ListNotations.

Open Scope nat_scope.

(** ** Python strings and lists *)

Module PyStr.

Abbreviation pystr := (list N).

(** An ASCII literal as a Python string. *)
Definition u (s : string) : pystr :=
  map N_of_ascii (list_ascii_of_string s).

(** [str.isspace] for one code point. *)
Definition py_isspace (c : N) : bool :=
  ((9 <=? c) && (c <=? 13) || (28 <=? c) && (c <=? 32)
   || (c =? 133) || (c =? 160) || (c =? 5760)
   || (8192 <=? c) && (c <=? 8202)
   || (c =? 8232) || (c =? 8233) || (c =? 8239) || (c =? 8287)
   || (c =? 12288))%N.

Fixpoint lstrip (s : pystr) : pystr :=
  match s with
  | c :: s' => if py_isspace c then lstrip s' else s
  | [] => []
  end.

Definition rstrip (s : pystr) : pystr := rev (lstrip (rev s)).

(** [s.strip()] *)
Definition strip (s : pystr) : pystr := rstrip (lstrip s).

(** Truth value of a string: [bool(s)]. *)
Definition truthy (s : pystr) : bool :=
  match s with [] => false | _ => true end.

(** [s.replace(old, new)] for a one-character [old]. *)
Definition replace_char (old : N) (new : pystr) (s : pystr) : pystr :=
  flat_map (fun c => if (c =? old)%N then new else [c]) s.

Definition is_ascii_digit (c : N) : bool := ((48 <=? c) && (c <=? 57))%N.
Definition is_ascii_lower (c : N) : bool := ((97 <=? c) && (c <=? 122))%N.
Definition is_ascii_upper (c : N) : bool := ((65 <=? c) && (c <=? 90))%N.

(** Decimal rendering of a natural number, as [str(int)] gives it. *)
Fixpoint digits_fuel (fuel : nat) (n : N) (acc : pystr) : pystr :=
  match fuel with
  | O => acc
  | S fuel' =>
      let acc' := (48 + n mod 10)%N :: acc in
      if (n <? 10)%N then acc' else digits_fuel fuel' (n / 10)%N acc'
  end.

Definition str_of_N (n : N) : pystr := digits_fuel (S (N.to_nat (N.log2 n))) n [].

Definition str_of_nat (n : nat) : pystr := str_of_N (N.of_nat n).

(** [enumerate(xs, start)] *)
Fixpoint enumerate {A} (start : nat) (xs : list A) : list (nat * A) :=
  match xs with
  | [] => []
  | x :: xs' => (start, x) :: enumerate (S start) xs'
  end.

End PyStr.
Import PyStr.

(** ** Document segmenter ([extraction/regularize_file.py]) *)

Module Segmenter.

Record seg_state := SegState {
  grouped_invoices : list (list nat);
  current_group : list nat;
  current_tracking_id : option pystr
}.

(** Archiving step shared by the split case and the final cleanup:
    [if current_group: grouped_invoices.append(tuple(current_group))]. *)
Definition archive (grouped : list (list nat)) (group : list nat) : list (list nat) :=
  match group with
  | [] => grouped
  | _ => grouped ++ [group]
  end.

Section Detect.
Context {Page : Type}.
  (** [page.extract_text()], which may return [None]. *)
Variable extract_text : Page -> option pystr.
  (** Each compiled pattern, as the function from a text to [group(1)] of
      its first match ([None] when [pat.search] finds nothing). *)
Variable patterns : list (pystr -> option pystr).

Definition clean_text (page : Page) : pystr :=
    let text := default [] (extract_text page) in
    strip (replace_char 10 (u " ") text).

  (** The inner [for pat in patterns] loop with its [break]. *)
Fixpoint first_match (pats : list (pystr -> option pystr)) (text : pystr)
    : option pystr :=
    match pats with
    | [] => None
    | pat :: pats' =>
        match pat text with
        | Some g => Some (strip g)
        | None => first_match pats' text
        end
    end.

Definition found_id_of (page : Page) : option pystr :=
    first_match patterns (clean_text page).

  (** One iteration of the page loop. *)
Definition seg_step (st : seg_state) (ip : nat * Page) : seg_state :=
    let '(i, page) := ip in
    let found_id := found_id_of page in
    if i =? 1 then
      SegState (grouped_invoices st) (current_group st ++ [i]) found_id
    else
      match found_id with
      | None =>
          SegState (grouped_invoices st) (current_group st ++ [i])
                   (current_tracking_id st)
      | Some _ =>
          if decide (found_id = current_tracking_id st) then
            SegState (grouped_invoices st) (current_group st ++ [i])
                     (current_tracking_id st)
          else
            SegState (archive (grouped_invoices st) (current_group st))
                     [i] found_id
      end.

Definition seg_init : seg_state := SegState [] [] None.

Definition seg_run (pages : list Page) : seg_state :=
    fold_left seg_step (enumerate 1 pages) seg_init.

Definition detect_invoice_page_groups (pages : list Page) : list (list nat) :=
    let st := seg_run pages in
    archive (grouped_invoices st) (current_group st).

End Detect.

End Segmenter.


(** ** Python values and floats *)

Module PyVal.

(** Values that reach the pipeline as [Any]: parsed JSON and the raw
    captures of the extraction stage.  A [dict] is an association list in
    insertion order; [dict_get] returns the first binding of a key. *)
#[warnings="-register-all"]
Inductive pyval :=
| VNone
| VBool (b : bool)
| VInt (z : Z)
| VStr (s : pystr)
| VList (l : list pyval)
| VDict (d : list (pystr * pyval)).

Fixpoint dict_get (k : pystr) (d : list (pystr * pyval)) : option pyval :=
  match d with
  | [] => None
  | (k', v) :: d' => if decide (k' = k) then Some v else dict_get k d'
  end.

(** [d.get(k)]: a missing key reads as [None]. *)
Definition get (k : pystr) (d : list (pystr * pyval)) : pyval :=
  default VNone (dict_get k d).

(** [d.get(k, dflt)] *)
Definition get_default (k : pystr) (dflt : pyval) (d : list (pystr * pyval)) : pyval :=
  default dflt (dict_get k d).

(** [bool(v)] *)
Definition py_truthy (v : pyval) : bool :=
  match v with
  | VNone => false
  | VBool b => b
  | VInt z => negb (z =? 0)%Z
  | VStr s => truthy s
  | VList l => match l with [] => false | _ => true end
  | VDict d => match d with [] => false | _ => true end
  end.

(** [str(v)] for the scalar values; [None] for the containers, whose
    [repr] is not modelled. *)
Definition py_str (v : pyval) : option pystr :=
  match v with
  | VNone => Some (u "None")
  | VBool true => Some (u "True")
  | VBool false => Some (u "False")
  | VInt z =>
      Some (if (z <? 0)%Z then u "-" ++ str_of_N (Z.abs_N z)
            else str_of_N (Z.abs_N z))
  | VStr s => Some s
  | VList _ | VDict _ => None
  end.

(** A Python [float], kept as the exact decimal that [float()] rounds to the
    nearest double: [FNum q] stands for the double nearest to [q].  The sign
    of a zero is not tracked. *)
Inductive pyfloat :=
| FNan
| FInf (neg : bool)
| FNum (q : Q).

(** A [digitpart] of the float grammar: decimal digits, single underscores
    allowed between two digits.  Returns the value read so far, the number
    of digits read and the unread rest. *)
Fixpoint scan_digits (s : pystr) (acc : N) (cnt : nat) : N * nat * pystr :=
  match s with
  | [] => (acc, cnt, [])
  | c :: s' =>
      if is_ascii_digit c then scan_digits s' (10 * acc + (c - 48))%N (S cnt)
      else if ((c =? 95)%N && negb (cnt =? 0))%bool then
        match s' with
        | d :: _ => if is_ascii_digit d then scan_digits s' acc cnt
                    else (acc, cnt, s)
        | [] => (acc, cnt, s)
        end
      else (acc, cnt, s)
  end.

(** Optional sign. *)
Definition scan_sign (s : pystr) : bool * pystr :=
  match s with
  | c :: s' =>
      if (c =? 43)%N then (false, s')
      else if (c =? 45)%N then (true, s')
      else (false, s)
  | [] => (false, s)
  end.

Definition ascii_lower (c : N) : N :=
  if is_ascii_upper c then (c + 32)%N else c.

(** The decimal [(-1)^neg * mant * 10^exp10]. *)
Definition decimal (neg : bool) (mant : N) (exp10 : Z) : Q :=
  let m := if neg then (- Z.of_N mant)%Z else Z.of_N mant in
  if (exp10 <? 0)%Z then Qmake m (Pos.pow 10 (Z.to_pos (- exp10)))
  else Qmake (m * 10 ^ exp10)%Z 1.

(** [float(s)] for a string; [None] stands for [ValueError].  Digits are the
    ASCII digits. *)
Definition py_float (s : pystr) : option pyfloat :=
  let '(neg, body) := scan_sign (strip s) in
  let low := map ascii_lower body in
  if decide (low = u "inf" \/ low = u "infinity") then Some (FInf neg)
  else if decide (low = u "nan") then Some FNan
  else
    let '(ip, ni, r1) := scan_digits body 0 0 in
    let '(mant, nf, r2) :=
      match r1 with
      | c :: r => if (c =? 46)%N then scan_digits r ip 0 else (ip, 0, r1)
      | [] => (ip, 0, r1)
      end in
    if (ni + nf =? 0) then None
    else
      match r2 with
      | [] => Some (FNum (decimal neg mant (- Z.of_nat nf)))
      | e :: r3 =>
          if ((e =? 101) || (e =? 69))%N then
            let '(eneg, r4) := scan_sign r3 in
            match scan_digits r4 0 0 with
            | (ev, S _, []) =>
                let ez := if eneg then (- Z.of_N ev)%Z else Z.of_N ev in
                Some (FNum (decimal neg mant (ez - Z.of_nat nf)))
            | _ => None
            end
          else None
      end.

End PyVal.
Import PyVal.

(** ** State-and-error monad *)

Module StateError.

(** A computation over a state [S] that returns an [A] or raises an [E]. *)
Definition SE (S E A : Type) : Type := S -> (E + A) * S.

Definition ret {S E A} (a : A) : SE S E A := fun s => (inr a, s).

Definition bind {S E A B} (m : SE S E A) (k : A -> SE S E B) : SE S E B :=
  fun s =>
    match m s with
    | (inr a, s') => k a s'
    | (inl e, s') => (inl e, s')
    end.

Definition raise {S E A} (e : E) : SE S E A := fun s => (inl e, s).

(** [try: body except Exception as exc: handler(exc)].  The handler runs in
    the state the body left behind. *)
Definition try_except {S E A} (body : SE S E A) (handler : E -> SE S E A)
  : SE S E A :=
  fun s =>
    match body s with
    | (inr a, s') => (inr a, s')
    | (inl e, s') => handler e s'
    end.

End StateError.
Import StateError.

Declare Scope M_scope.
Delimit Scope M_scope with M.
Notation "x <- m ;; k" := (bind m (fun x => k))
  (at level 100, m at next level, right associativity) : M_scope.
Notation "m ;;; k" := (bind m (fun _ => k))
  (at level 100, right associativity) : M_scope.

(** ** Collaborators, exceptions and the effect monad *)

Module Effects.

Inductive phase1_violation :=
| P1MissingRoot (missing : list pystr)
| P1NotDict (what : pystr)
| P1MissingKeys (what : pystr) (missing : list pystr)
| P1NotList
| P1ItemNotDict (idx : nat)
| P1ItemMissingKeys (idx : nat) (missing : list pystr).

Inductive phase2_violation :=
| P2MissingRoot (missing : list pystr)
| P2NotDict (level : pystr)
| P2MissingKeys (level : pystr) (missing : list pystr)
| P2EmptyValues (level : pystr) (keys : list pystr)
| P2CaptureGroups (level : pystr) (keys : list pystr).

(** The exceptions of the pipeline; all of them derive from [Exception]. *)
Inductive exn :=
| ValueError (msg : pystr)
| RuntimeError (msg : pystr)
| Phase1ParseError
| Phase1ValidationError (why : phase1_violation)
| Phase2ParseError
| Phase2ValidationError (why : phase2_violation)
| AttributeError (msg : pystr)
| KeyError (key : pystr)
| CollaboratorError (msg : pystr).

(** What [extract_vendor_signals] returns. *)
Record signals := Signals {
  sig_vendor_email_id : option pystr;
  sig_vendor_phone_number : option pystr;
  sig_website : option pystr;
  sig_vendor_name : option pystr;
  sig_vendor_physical_address : option pystr
}.

(** A prompt sent to the language model, kept as the data it is built from. *)
Inductive prompt :=
| Phase1Prompt (text : pystr)
| Phase2Prompt (raw_text : pystr) (verified_json : pyval).

(** The header fields returned by [apply_regex_extraction]. *)
Record inv_data := InvData {
  ex_invoice_number : option pystr;
  ex_invoice_date : option pystr;
  ex_invoice_total_amount : option pystr;
  ex_order_date : option pystr
}.

(** The parts of the system this development does not look into: the bson
    identifiers, MongoDB's regular-expression match, the regular-expression
    heuristics on raw text, the language model and the categorizer. *)
Class Collaborators := {
  oid : Type;
  oid_eq_dec :: EqDecision oid;
  (** [ObjectId(s)]; [None] when the string is not a valid identifier *)
  ObjectId : pystr -> option oid;
  (** [str(oid)] *)
  oid_str : oid -> pystr;
  (** [ObjectId()]: the [n]-th identifier generated *)
  new_oid : nat -> oid;
  ObjectId_str : forall o, ObjectId (oid_str o) = Some o;
  oid_str_truthy : forall o, truthy (oid_str o) = true;
  (** MongoDB's match of a stored string against [^re.escape(literal)$]
      with the ignore-case flag: [iregex_match literal stored] *)
  iregex_match : pystr -> pystr -> bool;
  extract_vendor_signals : pystr -> signals;
  llm_state : Type;
  (** [call_llm_api(prompt)]: the parsed answer or an exception *)
  call_llm_api : prompt -> llm_state -> (exn + pyval) * llm_state;
  cat_state : Type;
  get_line_item_category :
    pystr -> cat_state -> (exn + option pystr) * cat_state;
  apply_regex_extraction : pystr -> pyval -> exn + (inv_data * list pyval);
  (** [str(exc)] *)
  exn_str : exn -> pystr
}.

Section World.
Context `{Collaborators}.

(** A document of the [vendors] collection. *)
Record vendor_doc := VendorDoc {
  v_id : oid;
  v_name : option pyval;
  v_contact_email : option pyval;
  v_phone_number : option pyval;
  v_address : option pyval;
  v_website : option pyval
}.

(** A document of the [vendor_regex_templates] collection. *)
Record template_doc := TemplateDoc {
  t_vendor_id : oid;
  t_regex_patterns : option (list pyval)
}.

Inductive vendor_field := FName | FContactEmail | FPhoneNumber | FAddress | FWebsite.

Inductive warning :=
| WarnEmptyField (k : pystr)
| WarnManyGroups (level k : pystr) (groups : nat).

(** What the pipeline does to the outside world, in order. *)
Inductive event :=
| EvFindVendor (field : vendor_field) (literal : pystr)
| EvFindVendorById (o : oid)
| EvFindTemplate (o : oid)
| EvInsertVendor (doc : vendor_doc)
| EvUpsertTemplate (o : oid) (patterns : list pyval)
| EvLLM (p : prompt)
| EvCategorize (description : pystr)
| EvWarn (w : warning).

Record world := World {
  w_vendors : list vendor_doc;
  w_templates : list template_doc;
  w_oid_counter : nat;
  w_llm : llm_state;
  w_cat : cat_state;
  w_log : list event
}.

(** Computations that read and change the world and may raise. *)
Definition M (A : Type) : Type := SE world exn A.

Definition emit (e : event) : M unit :=
  fun w => (inr tt,
            World (w_vendors w) (w_templates w) (w_oid_counter w)
                  (w_llm w) (w_cat w) (w_log w ++ [e])).

End World.

Arguments M {_} A.

End Effects.
Import Effects.

(** ** Vendor registry ([storage/database.py]) *)

Module Registry.
Section Registry.
Context `{Collaborators}.
Open Scope M_scope.

Definition field_of (f : vendor_field) (d : vendor_doc) : option pyval :=
  match f with
  | FName => v_name d
  | FContactEmail => v_contact_email d
  | FPhoneNumber => v_phone_number d
  | FAddress => v_address d
  | FWebsite => v_website d
  end.

(** A regular-expression query matches string fields only. *)
Definition field_matches (f : vendor_field) (literal : pystr) (d : vendor_doc) : bool :=
  match field_of f d with
  | Some (VStr stored) => iregex_match literal stored
  | _ => false
  end.

(** [db.vendors.find_one({field: regex}, {"_id": 1})] *)
Definition find_one_vendor (f : vendor_field) (literal : pystr) : M (option vendor_doc) :=
  emit (EvFindVendor f literal) ;;;
  fun w => (inr (List.find (field_matches f literal) (w_vendors w)), w).

(** The five [get_vendor_by_*] functions differ in the field only. *)
Definition get_vendor_by (f : vendor_field) (literal : pystr) : M (option pystr) :=
  if negb (truthy literal) then ret None
  else
    doc <- find_one_vendor f literal ;;
    ret (option_map (fun d => oid_str (v_id d)) doc).

Definition get_vendor_by_email := get_vendor_by FContactEmail.
Definition get_vendor_by_website := get_vendor_by FWebsite.
Definition get_vendor_by_address := get_vendor_by FAddress.
Definition get_vendor_by_phone := get_vendor_by FPhoneNumber.
Definition get_vendor_by_name := get_vendor_by FName.

Definition get_vendor_name_by_id (vendor_id : pystr) : M pyval :=
  if negb (truthy vendor_id) then ret VNone
  else
    match ObjectId vendor_id with
    | None => ret VNone
    | Some o =>
        emit (EvFindVendorById o) ;;;
        fun w =>
          (inr match List.find (fun d => bool_decide (v_id d = o)) (w_vendors w) with
               | Some d => default VNone (v_name d)
               | None => VNone
               end, w)
    end.

Definition get_vendor_regex_patterns (vendor_id : pystr) : M (list pyval) :=
  if negb (truthy vendor_id) then ret []
  else
    match ObjectId vendor_id with
    | None => ret []
    | Some o =>
        emit (EvFindTemplate o) ;;;
        fun w =>
          (inr match List.find (fun t => bool_decide (t_vendor_id t = o))
                               (w_templates w) with
               | Some t => default [] (t_regex_patterns t)
               | None => []
               end, w)
    end.

(** Drops the fields that are [None]. *)
Definition sparse (v : pyval) : option pyval :=
  match v with VNone => None | _ => Some v end.

(** [db.vendors.insert_one(doc)] with a generated [_id]; a duplicate [_id]
    raises. *)
Definition insert_one_vendor (mk : oid -> vendor_doc) : M oid :=
  fun w =>
    let o := new_oid (w_oid_counter w) in
    let doc := mk o in
    let w1 := World (w_vendors w) (w_templates w) (S (w_oid_counter w))
                    (w_llm w) (w_cat w) (w_log w ++ [EvInsertVendor doc]) in
    if existsb (fun d => bool_decide (v_id d = o)) (w_vendors w) then
      (inl (CollaboratorError (u "DuplicateKeyError")), w1)
    else
      (inr o,
       World (w_vendors w ++ [doc]) (w_templates w) (S (w_oid_counter w))
             (w_llm w) (w_cat w) (w_log w ++ [EvInsertVendor doc])).

Definition create_vendor (vendor_data : list (pystr * pyval)) : M (option pystr) :=
  let vendor_name := get (u "vendor_name") vendor_data in
  if negb (py_truthy vendor_name) then ret None
  else
    try_except
      (o <- insert_one_vendor (fun o =>
              VendorDoc o (Some vendor_name)
                (sparse (get (u "vendor_email_id") vendor_data))
                (sparse (get (u "vendor_phone_number") vendor_data))
                (sparse (get (u "vendor_physical_address") vendor_data))
                (sparse (get (u "vendor_website") vendor_data))) ;;
       ret (Some (oid_str o)))
      (fun _ => ret None).

(** [regexes.get(level, {})], which must be a [dict] for the [.get] calls
    that follow. *)
Definition level_dict (level : pystr) (regexes : list (pystr * pyval))
  : option (list (pystr * pyval)) :=
  match get_default level (VDict []) regexes with
  | VDict d => Some d
  | _ => None
  end.

Definition pattern_of (k : pystr) (d : list (pystr * pyval)) : pyval :=
  get_default k (VStr []) d.

(** The fixed 11-element order of a stored template; [None] when a level is
    not a [dict]. *)
Definition flatten_patterns (regexes : list (pystr * pyval)) : option (list pyval) :=
  inv ← level_dict (u "invoice_level") regexes;
  li ← level_dict (u "line_item_level") regexes;
  Some [ pattern_of (u "invoice_number") inv;
         pattern_of (u "invoice_date") inv;
         pattern_of (u "invoice_total_amount") inv;
         pattern_of (u "order_date") inv;
         pattern_of (u "line_item_block_start") li;
         pattern_of (u "line_item_block_end") li;
         pattern_of (u "quantity") li;
         pattern_of (u "description") li;
         pattern_of (u "unit") li;
         pattern_of (u "unit_price") li;
         pattern_of (u "line_total") li ].

(** [update_one({"vendor_id": o}, {"$set": ...}, upsert=True)] *)
Fixpoint upsert_template (o : oid) (patterns : list pyval) (ts : list template_doc)
  : list template_doc :=
  match ts with
  | [] => [TemplateDoc o (Some patterns)]
  | t :: ts' =>
      if bool_decide (t_vendor_id t = o) then TemplateDoc o (Some patterns) :: ts'
      else t :: upsert_template o patterns ts'
  end.

Definition save_vendor_regex_template (new_vendor_id : option pystr) (new_regexes : pyval)
  : M unit :=
  match new_vendor_id with
  | None => ret tt
  | Some vid =>
      if negb (truthy vid) || negb (py_truthy new_regexes) then ret tt
      else
        match ObjectId vid with
        | None => ret tt
        | Some o =>
            match new_regexes with
            | VDict regexes =>
                match flatten_patterns regexes with
                | Some patterns =>
                    emit (EvUpsertTemplate o patterns) ;;;
                    fun w =>
                      (inr tt,
                       World (w_vendors w)
                             (upsert_template o patterns (w_templates w))
                             (w_oid_counter w) (w_llm w) (w_cat w) (w_log w))
                | None => raise (AttributeError (u "get"))
                end
            | _ => raise (AttributeError (u "get"))
            end
        end
  end.

End Registry.
End Registry.
Import Registry.

(** ** Template validation ([processing/vendor_identifier.py]) *)

Module Validation.
Section Validation.

Definition starts_with (p s : pystr) : bool := bool_decide (take (length p) s = p).

(** [len(re.findall(r'(?<!\\)\((?!\?:)', pattern))]: the opening
    parentheses that are neither preceded by a backslash nor followed by
    [?:].  [prev_backslash] tells whether the previous character was a
    backslash. *)
Fixpoint count_open_groups (prev_backslash : bool) (s : pystr) : nat :=
  match s with
  | [] => 0
  | c :: s' =>
      (if (c =? 40)%N && negb prev_backslash && negb (starts_with (u "?:") s')
       then 1 else 0)
      + count_open_groups (c =? 92)%N s'
  end.

Definition _count_capture_groups (pattern : pyval) : nat :=
  match pattern with
  | VStr s => count_open_groups false s
  | _ => 0
  end.

Definition has_key (k : pystr) (d : list (pystr * pyval)) : bool :=
  bool_decide (is_Some (dict_get k d)).

(** [sorted(list(required - set(d.keys())))], for [required] given in
    sorted order. *)
Definition missing_keys (required : list pystr) (d : list (pystr * pyval)) : list pystr :=
  filter (fun k => has_key k d = false) required.

Definition blank (s : pystr) : bool := negb (truthy (strip s)).

(** The accumulators of a validation loop.  The loops run over Python sets,
    whose iteration order is unspecified; the lists below follow the sorted
    order of the keys. *)
Record report := Report {
  empty_keys : list pystr;
  bad_group_keys : list pystr;
  warnings : list warning
}.

(** One iteration of the loop over the required keys of a level.  [strict]
    tells whether the key must hold a non-empty pattern, [marker] whether it
    is exempt from the capture-group check. *)
Definition check_key (level : pystr) (strict marker : pystr -> bool)
    (d : list (pystr * pyval)) (r : report) (k : pystr) : report :=
  match get k d with
  | VStr v =>
      let r1 :=
        if strict k && blank v
        then Report (empty_keys r ++ [k]) (bad_group_keys r)
                    (warnings r ++ [WarnEmptyField k])
        else r in
      if negb (blank v) && negb (marker k) then
        let groups := _count_capture_groups (VStr v) in
        if groups <? 1 then
          Report (empty_keys r1) (bad_group_keys r1 ++ [k]) (warnings r1)
        else if 1 <? groups then
          Report (empty_keys r1) (bad_group_keys r1)
                 (warnings r1 ++ [WarnManyGroups level k groups])
        else r1
      else r1
  | _ => Report (empty_keys r ++ [k]) (bad_group_keys r) (warnings r)
  end.

Definition check_level (level : pystr) (keys : list pystr)
    (strict marker : pystr -> bool) (d : list (pystr * pyval)) : report :=
  fold_left (check_key level strict marker d) keys (Report [] [] []).

Definition mem (ks : list pystr) (k : pystr) : bool := bool_decide (k ∈ ks).

Definition required_invoice_keys : list pystr :=
  [u "invoice_date"; u "invoice_number"; u "invoice_total_amount"; u "order_date"].

Definition strict_invoice_fields : list pystr :=
  [u "invoice_number"; u "invoice_date"; u "invoice_total_amount"].

Definition required_line_item_keys : list pystr :=
  [u "description"; u "line_item_block_end"; u "line_item_block_start";
   u "line_total"; u "quantity"; u "unit"; u "unit_price"].

Definition strict_line_fields : list pystr :=
  [u "line_item_block_start"; u "line_item_block_end"; u "description";
   u "quantity"; u "unit_price"; u "line_total"].

Definition marker_fields : list pystr :=
  [u "line_item_block_start"; u "line_item_block_end"].

(** The validation part of [llm_phase2_generate_regex], from the
    [isinstance(parsed, dict)] test to the final [return parsed]: the
    warnings printed and either the exception raised or the template. *)
Definition phase2_validate (parsed : pyval) : list warning * (exn + pyval) :=
  match parsed with
  | VDict d =>
      match missing_keys [u "invoice_level"; u "line_item_level"] d with
      | (_ :: _) as missing => ([], inl (Phase2ValidationError (P2MissingRoot missing)))
      | [] =>
          match get (u "invoice_level") d with
          | VDict invoice =>
              match missing_keys required_invoice_keys invoice with
              | (_ :: _) as missing =>
                  ([], inl (Phase2ValidationError
                              (P2MissingKeys (u "invoice_level") missing)))
              | [] =>
                  let r1 := check_level (u "invoice_level") required_invoice_keys
                              (mem strict_invoice_fields) (fun _ => false)
                              invoice in
                  match empty_keys r1, bad_group_keys r1 with
                  | _ :: _, _ =>
                      (warnings r1,
                       inl (Phase2ValidationError
                              (P2EmptyValues (u "invoice_level") (empty_keys r1))))
                  | [], _ :: _ =>
                      (warnings r1,
                       inl (Phase2ValidationError
                              (P2CaptureGroups (u "invoice_level")
                                               (bad_group_keys r1))))
                  | [], [] =>
                      match get (u "line_item_level") d with
                      | VDict line_item =>
                          match missing_keys required_line_item_keys line_item with
                          | (_ :: _) as missing =>
                              (warnings r1,
                               inl (Phase2ValidationError
                                      (P2MissingKeys (u "line_item_level") missing)))
                          | [] =>
                              let r2 := check_level (u "line_item_level")
                                          required_line_item_keys
                                          (mem strict_line_fields)
                                          (mem marker_fields) line_item in
                              let ws := warnings r1 ++ warnings r2 in
                              match empty_keys r2, bad_group_keys r2 with
                              | _ :: _, _ =>
                                  (ws,
                                   inl (Phase2ValidationError
                                          (P2EmptyValues (u "line_item_level")
                                                         (empty_keys r2))))
                              | [], _ :: _ =>
                                  (ws,
                                   inl (Phase2ValidationError
                                          (P2CaptureGroups (u "line_item_level")
                                                           (bad_group_keys r2))))
                              | [], [] => (ws, inr parsed)
                              end
                          end
                      | _ =>
                          (warnings r1,
                           inl (Phase2ValidationError
                                  (P2NotDict (u "line_item_level"))))
                      end
                  end
              end
          | _ => ([], inl (Phase2ValidationError (P2NotDict (u "invoice_level"))))
          end
      end
  | _ => ([], inl Phase2ParseError)
  end.

End Validation.
End Validation.
Import Validation.

(** ** Vendor resolver ([processing/vendor_identifier.py]) *)

Module Resolver.
Section Resolver.
Context `{Collaborators}.
Open Scope M_scope.

(** [str.lower] as far as it can produce ASCII letters: the ASCII capitals,
    the Kelvin sign and the dotted capital I.  Every other character is left
    alone; it lowers to a non-ASCII character, which [_normalize_name] drops
    either way. *)
Definition lower_char (c : N) : pystr :=
  if is_ascii_upper c then [(c + 32)%N]
  else if (c =? 8490)%N then [107%N]
  else if (c =? 304)%N then [105%N; 775%N]
  else [c].

Definition py_lower (s : pystr) : pystr := flat_map lower_char s.

Definition _normalize_name (name : pystr) : pystr :=
  if negb (truthy name) then []
  else filter (fun c => is_ascii_lower c || is_ascii_digit c = true)
              (strip (py_lower name)).

(** [str(x) if x else None] for an optional string. *)
Definition str_or_none (x : option pystr) : option pystr :=
  match x with
  | Some v => if truthy v then Some v else None
  | None => None
  end.

Definition find_vendor_by_address (extracted_addr : pystr) : M (option pystr) :=
  if negb (truthy extracted_addr) then ret None
  else
    vendor_id_object <- get_vendor_by_address (strip extracted_addr) ;;
    ret (str_or_none vendor_id_object).

Definition find_vendor_by_website (extracted_url : pystr) : M (option pystr) :=
  if negb (truthy extracted_url) then ret None
  else
    vendor_id_object <- get_vendor_by_website (strip extracted_url) ;;
    ret (str_or_none vendor_id_object).

Definition find_vendor_by_email (extracted_email : pystr) : M (option pystr) :=
  if negb (truthy extracted_email) then ret None
  else
    vendor_id_object <- get_vendor_by_email (strip extracted_email) ;;
    ret (str_or_none vendor_id_object).

(** [re.sub(r'\D', '', s)], digits being the ASCII digits. *)
Definition digits_only (s : pystr) : pystr :=
  filter (fun c => is_ascii_digit c = true) s.

Definition find_vendor_by_phone (extracted_phone : pystr) : M (option pystr) :=
  let target := digits_only extracted_phone in
  if length target <? 7 then ret None
  else
    vendor_id_object <- get_vendor_by_phone target ;;
    ret (str_or_none vendor_id_object).

Definition find_vendor_by_name (target : pystr) : M (option pystr) :=
  if negb (truthy target) then ret None
  else
    vendor_id_object <- get_vendor_by_name target ;;
    ret (str_or_none vendor_id_object).

Definition find_vendor_name_by_id (id : option pystr) : M pyval :=
  match id with
  | None => ret VNone
  | Some i =>
      if negb (truthy i) then ret VNone
      else
        vendor_name <- get_vendor_name_by_id i ;;
        ret (if py_truthy vendor_name then vendor_name else VNone)
  end.

Definition get_regex_for_vendor (vendor_id : option pystr) : M (option (list pyval)) :=
  match vendor_id with
  | None => ret None
  | Some v =>
      if negb (truthy v) then ret None
      else
        patterns <- get_vendor_regex_patterns v ;;
        ret (Some patterns)
  end.

(** One rung of the ladder in [search_vendor_by_signals]:
    [if signal: vid = finder(signal); if vid: return vid, label]. *)
Definition try_signal (signal : option pystr) (finder : pystr -> M (option pystr))
    (label : pystr) (otherwise : M (option (pystr * pystr)))
  : M (option (pystr * pystr)) :=
  match signal with
  | Some sg =>
      if truthy sg then
        vid <- finder sg ;;
        match vid with
        | Some v => if truthy v then ret (Some (v, label)) else otherwise
        | None => otherwise
        end
      else otherwise
  | None => otherwise
  end.

(** The name rung: [normalized = _normalize_name(name)] and the lookup only
    [if len(normalized) >= 3]. *)
Definition find_by_normalized_name (name : pystr) : M (option pystr) :=
  let normalized := _normalize_name name in
  if 3 <=? length normalized then find_vendor_by_name normalized
  else ret None.

Definition search_vendor_by_signals (sg : signals) : M (option (pystr * pystr)) :=
  try_signal (sig_website sg) find_vendor_by_website (u "website")
    (try_signal (sig_vendor_email_id sg) find_vendor_by_email (u "email")
      (try_signal (sig_vendor_phone_number sg) find_vendor_by_phone (u "phone")
        (try_signal (sig_vendor_physical_address sg) find_vendor_by_address (u "address")
          (try_signal (sig_vendor_name sg) find_by_normalized_name (u "name")
            (ret None))))).

(** [call_llm_api(prompt)] *)
Definition call_llm (p : prompt) : M pyval :=
  emit (EvLLM p) ;;;
  fun w =>
    let '(r, l') := call_llm_api p (w_llm w) in
    (r, World (w_vendors w) (w_templates w) (w_oid_counter w) l' (w_cat w)
              (w_log w)).

Fixpoint _coerce_none_values (obj : pyval) : pyval :=
  match obj with
  | VStr s =>
      if bool_decide (strip s ∈ [u "None"; u "null"; []]) then VNone else obj
  | VDict d =>
      VDict ((fix entries (d : list (pystr * pyval)) :=
                match d with
                | [] => []
                | (k, v) :: d' => (k, _coerce_none_values v) :: entries d'
                end) d)
  | VList l => VList (map _coerce_none_values l)
  | _ => obj
  end.

(** [d[k] = v]: replaces the value of an existing key, appends a new one. *)
Fixpoint dict_set (k : pystr) (v : pyval) (d : list (pystr * pyval))
  : list (pystr * pyval) :=
  match d with
  | [] => [(k, v)]
  | (k', v') :: d' =>
      if decide (k' = k) then (k, v) :: d' else (k', v') :: dict_set k v d'
  end.

(** [for k in keys: if k not in d: d[k] = None] *)
Definition fill_missing (keys : list pystr) (d : list (pystr * pyval))
  : list (pystr * pyval) :=
  fold_left (fun d k => if has_key k d then d else dict_set k VNone d) keys d.

(** The loop over [line_items] of phase 1. *)
Fixpoint check_items (idx : nat) (items : list pyval) : phase1_violation + list pyval :=
  match items with
  | [] => inr []
  | VDict item :: rest =>
      match missing_keys [u "description"; u "line_total"] item with
      | (_ :: _) as missing => inl (P1ItemMissingKeys idx missing)
      | [] =>
          match check_items (S idx) rest with
          | inr rest' =>
              inr (VDict (fill_missing [u "quantity"; u "unit_price"] item) :: rest')
          | inl e => inl e
          end
      end
  | _ :: _ => inl (P1ItemNotDict idx)
  end.

Definition phase1_validate (parsed : pyval) : exn + pyval :=
  match _coerce_none_values parsed with
  | VDict d =>
      match missing_keys [u "invoice_details"; u "line_items"; u "vendor_master_data"] d with
      | (_ :: _) as missing => inl (Phase1ValidationError (P1MissingRoot missing))
      | [] =>
          match get (u "invoice_details") d with
          | VDict invoice =>
              match missing_keys [u "invoice_date"; u "invoice_number";
                                  u "invoice_total_amount"] invoice with
              | (_ :: _) as missing =>
                  inl (Phase1ValidationError
                         (P1MissingKeys (u "invoice_details") missing))
              | [] =>
                  match get (u "vendor_master_data") d with
                  | VDict vendor =>
                      match missing_keys [u "vendor_name"] vendor with
                      | (_ :: _) as missing =>
                          inl (Phase1ValidationError
                                 (P1MissingKeys (u "vendor_master_data") missing))
                      | [] =>
                          let vendor' :=
                            fill_missing [u "vendor_email_id"; u "vendor_phone_number";
                                          u "vendor_physical_address";
                                          u "vendor_website"] vendor in
                          match get (u "line_items") d with
                          | VList items =>
                              match check_items 0 items with
                              | inl why => inl (Phase1ValidationError why)
                              | inr items' =>
                                  inr (VDict
                                         (dict_set (u "line_items") (VList items')
                                            (dict_set (u "vendor_master_data")
                                                      (VDict vendor')
                                               (dict_set (u "invoice_details")
                                                         (VDict invoice) d))))
                              end
                          | _ => inl (Phase1ValidationError P1NotList)
                          end
                      end
                  | _ => inl (Phase1ValidationError
                                (P1NotDict (u "vendor_master_data")))
                  end
              end
          | _ => inl (Phase1ValidationError (P1NotDict (u "invoice_details")))
          end
      end
  | _ => inl Phase1ParseError
  end.

Definition lift {A} (r : exn + A) : M A := fun w => (r, w).

Definition llm_phase1_extract (text : pystr) : M pyval :=
  parsed <- call_llm (Phase1Prompt text) ;;
  match parsed with
  | VDict _ => lift (phase1_validate parsed)
  | _ => raise Phase1ParseError
  end.

Fixpoint emit_warnings (ws : list warning) : M unit :=
  match ws with
  | [] => ret tt
  | w :: ws' => emit (EvWarn w) ;;; emit_warnings ws'
  end.

Definition llm_phase2_generate_regex (text : pystr) (phase1_json : pyval) : M pyval :=
  parsed <- call_llm (Phase2Prompt text phase1_json) ;;
  let '(ws, r) := phase2_validate parsed in
  emit_warnings ws ;;; lift r.

Definition save_regex_for_vendor (new_vendor_id : option pystr) (new_regexes : pyval)
  : M unit :=
  save_vendor_regex_template new_vendor_id new_regexes.

Definition save_vendor_details (vendor_master_data : pyval) : M (option pystr) :=
  match vendor_master_data with
  | VDict d =>
      if negb (py_truthy (get (u "vendor_name") d))
      then raise (ValueError (u "vendor_name required to save vendor."))
      else create_vendor d
  | _ => raise (AttributeError (u "get"))
  end.

(** A vendor id as the pipeline passes it around: a string, [None], or (in
    the fallback of the normalizer) a bare [ObjectId]. *)
Inductive vendor_ref :=
| RefNone
| RefStr (s : pystr)
| RefOid (o : oid).

Definition ref_of (v : option pystr) : vendor_ref :=
  match v with Some s => RefStr s | None => RefNone end.

(** The dictionary returned by [identify_vendor_and_get_regex]; the keys
    [created] and [matched_by] are absent from the fallback context of the
    normalizer, [identification_error] is present only there. *)
Record vendor_context := VendorContext {
  vc_vendor_id : vendor_ref;
  vc_vendor_name : pyval;
  vc_regex : pyval;
  vc_created : option bool;
  vc_matched_by : option pystr;
  vc_identification_error : option pystr
}.

Definition em_dash : N := 8212.

Definition msg_no_regex : pystr :=
  u "Vendor found " ++ [em_dash] ++ u " But no regex for that vendor found in DB".
Definition msg_phase2_failed : pystr :=
  u "Vendor not found " ++ [em_dash] ++ u " LLM Phase 2 failed".
Definition msg_phase1_failed : pystr :=
  u "Vendor not found " ++ [em_dash] ++ u " But llm phase-1 output failed".

Definition identify_vendor_and_get_regex (text file_path : pystr) : M vendor_context :=
  let signals := extract_vendor_signals text in
  search_result <- search_vendor_by_signals signals ;;
  let vendor_id := option_map fst search_result in
  let matched_by := option_map snd search_result in
  if match vendor_id with Some v => truthy v | None => false end then
    vendor_name <- find_vendor_name_by_id vendor_id ;;
    regex_list <- get_regex_for_vendor vendor_id ;;
    match regex_list with
    | Some ((_ :: _) as patterns) =>
        ret (VendorContext (ref_of vendor_id) vendor_name (VList patterns)
                           (Some false) matched_by None)
    | _ => raise (ValueError msg_no_regex)
    end
  else
    phase1 <- llm_phase1_extract text ;;
    if py_truthy phase1 then
      match phase1 with
      | VDict d =>
          match dict_get (u "vendor_master_data") d with
          | Some vendor =>
              new_regexes <- llm_phase2_generate_regex text phase1 ;;
              new_vendor_id <- save_vendor_details vendor ;;
              vendor_name <- find_vendor_name_by_id vendor_id ;;
              if py_truthy new_regexes then
                save_regex_for_vendor new_vendor_id new_regexes ;;;
                ret (VendorContext (ref_of new_vendor_id) vendor_name new_regexes
                                   (Some true) None None)
              else raise (ValueError msg_phase2_failed)
          | None => raise (KeyError (u "vendor_master_data"))
          end
      | _ => raise (KeyError (u "vendor_master_data"))
      end
    else raise (ValueError msg_phase1_failed).

End Resolver.
End Resolver.
Import Resolver.

(** ** Record normalizer ([processing/build_dataframe.py]) *)

Module Normalizer.

(** [s.rfind(c)]: index of the last occurrence, [-1] when there is none. *)
Fixpoint rfind_from (c : N) (s : pystr) (i : Z) (best : Z) : Z :=
  match s with
  | [] => best
  | x :: s' => rfind_from c s' (i + 1)%Z (if (x =? c)%N then i else best)
  end.

Definition rfind (c : N) (s : pystr) : Z := rfind_from c s 0 (-1).

(** [c in s] *)
Definition contains (c : N) (s : pystr) : bool := existsb (N.eqb c) s.

(** [s.rsplit(c, 1)[-1]]: what follows the last occurrence of [c]. *)
Definition after_last (c : N) (s : pystr) : pystr :=
  drop (Z.to_nat (rfind c s + 1)) s.

Definition comma : N := 44.
Definition period : N := 46.

(** The class [[€$£¥\s]] removed by [re.sub]. *)
Definition is_currency_or_space (c : N) : bool :=
  ((c =? 8364) || (c =? 36) || (c =? 163) || (c =? 165))%N || py_isspace c.

(** The cleaning stage of [_parse_currency_amount]: the string handed to
    [float]. *)
(** [re.sub(r'[€$£¥\s]', '', s)] *)
Definition without_currency (s : pystr) : pystr :=
  filter (fun c => is_currency_or_space c = false) s.

Definition currency_cleaned (amount_str : pystr) : pystr :=
  let cleaned := without_currency amount_str in
  if contains comma cleaned && contains period cleaned then
    if (rfind period cleaned <? rfind comma cleaned)%Z then
      replace_char comma (u ".") (replace_char period [] cleaned)
    else
      replace_char comma [] cleaned
  else if contains comma cleaned then
    if length (after_last comma cleaned) =? 2 then
      replace_char comma (u ".") cleaned
    else
      replace_char comma [] cleaned
  else cleaned.

Definition _parse_currency_amount (amount_str : pyval) : option pyfloat :=
  if negb (py_truthy amount_str) then None
  else
    match py_str amount_str with
    | Some s => py_float (currency_cleaned s)
    | None =>
        (* a non-empty list or dict: its [str] starts with a bracket, which
           survives the cleaning and which [float] rejects *)
        None
    end.

Definition _clean_quantity (val : pyval) : pyfloat :=
  match val with
  | VNone => FNum 0.0
  | _ =>
      match py_str val with
      | Some s => default (FNum 0.0) (py_float (strip (replace_char comma [] s)))
      | None => FNum 0.0 (* [str] of a list or dict is never a float literal *)
      end
  end.

Section Builder.
Context `{Collaborators}.
Open Scope M_scope.

(** A row of the line-items frame. *)
Record line_item := LineItem {
  li_vendor_name : pyval;
  li_category : pystr;
  li_quantity : pyfloat;
  li_unit : pyval;
  li_description : pystr;
  li_unit_price : option pyfloat;
  li_line_total : option pyfloat;
  li_line_number : nat
}.

(** The row of the invoice frame. *)
Record invoice_record := InvoiceRecord {
  ir_filename : pystr;
  ir_restaurant_id : pystr;
  ir_vendor_id : vendor_ref;
  ir_invoice_number : option pystr;
  ir_invoice_date : option pystr;
  ir_invoice_total_amount : option pystr;
  ir_text_length : Z;
  ir_page_count : Z;
  ir_extraction_timestamp : pystr;
  ir_order_date : option pystr
}.

Definition _build_invoice_record (extracted_inv_data : inv_data)
    (vendor_context : vendor_context) (filename restaurant_id : pystr)
    (text_length page_count : Z) (extraction_timestamp : pystr) : invoice_record :=
  InvoiceRecord filename restaurant_id (vc_vendor_id vendor_context)
    (ex_invoice_number extracted_inv_data)
    (ex_invoice_date extracted_inv_data)
    (ex_invoice_total_amount extracted_inv_data)
    text_length page_count extraction_timestamp
    (ex_order_date extracted_inv_data).

Definition _determine_category (description : pystr) : M (option pystr) :=
  emit (EvCategorize description) ;;;
  fun w =>
    let '(r, c') := get_line_item_category description (w_cat w) in
    (r, World (w_vendors w) (w_templates w) (w_oid_counter w) (w_llm w) c'
              (w_log w)).

(** The description under which a raw item is kept: the item is a [dict]
    whose [description] is a string that is not blank. *)
Definition kept_description (item : pyval) : option pystr :=
  match item with
  | VDict d =>
      match get (u "description") d with
      | VStr description =>
          if truthy (strip description) then Some (strip description) else None
      | _ => None
      end
  | _ => None
  end.

(** The loop of [_build_line_items_records] over
    [enumerate(extracted_li_data)]; [line_items] is the list built so far. *)
Fixpoint build_rows (vendor_name : pyval) (items : list (nat * pyval))
    (line_items : list line_item) : M (list line_item) :=
  match items with
  | [] => ret line_items
  | (idx, item) :: rest =>
      match item with
      | VDict d =>
          match get (u "description") d with
          | VStr description0 =>
              let description := strip description0 in
              if negb (truthy description) then build_rows vendor_name rest line_items
              else
                let quantity := _clean_quantity (get (u "quantity") d) in
                let unit_val := get (u "unit") d in
                let unit_price := _parse_currency_amount (get (u "unit_price") d) in
                let line_total := _parse_currency_amount (get (u "line_total") d) in
                category <- _determine_category description ;;
                match category with
                | None =>
                    raise (ValueError
                             (u "Could not determine category for: " ++ description))
                | Some c =>
                    build_rows vendor_name rest
                      (line_items ++
                         [LineItem vendor_name c quantity unit_val description
                                   unit_price line_total (idx + 1)])
                end
          | _ => build_rows vendor_name rest line_items
          end
      | _ => build_rows vendor_name rest line_items
      end
  end.

Definition _build_line_items_records (extracted_li_data : list pyval)
    (vendor_context : vendor_context) : M (list line_item) :=
  build_rows (vc_vendor_name vendor_context) (enumerate 0 extracted_li_data) [].

(** The generic template of the fallback. *)
Definition generic_regex : pyval :=
  VDict
    [ (u "invoice_level",
       VDict
         [ (u "invoice_number", VStr (u "(?:invoice|inv)[\s#:]*([0-9]+)"));
           (u "invoice_date",
            VStr (u "(?:date|dated)[\s:]*(\d{1,2}[-/]\d{1,2}[-/]\d{2,4})"));
           (u "invoice_total_amount",
            VStr (u "(?:total|amount due)[\s:$]*(\d+[.,]\d{2})"));
           (u "order_date", VStr []) ]);
      (u "line_item_level",
       VDict
         [ (u "line_item_block_start", VStr (u "(?:description|item)"));
           (u "line_item_block_end", VStr (u "(?:subtotal|total)"));
           (u "quantity", VStr (u "(\d+\.?\d*)"));
           (u "description", VStr (u "([A-Za-z0-9\s,.-]+)"));
           (u "unit", VStr (u "(EA|LB|CS|GAL|BOX|PKG)"));
           (u "unit_price", VStr (u "\$?(\d+\.\d{2})"));
           (u "line_total", VStr (u "\$?(\d+\.\d{2})")) ]) ].

(** The vendor context built in the [except] branch. *)
Definition fallback_context (fresh : oid) (error : pystr) : vendor_context :=
  VendorContext (RefOid fresh) (VStr (u "Unknown Vendor")) generic_regex
                None None (Some error).

(** [ObjectId()] *)
Definition new_object_id : M oid :=
  fun w =>
    (inr (new_oid (w_oid_counter w)),
     World (w_vendors w) (w_templates w) (S (w_oid_counter w)) (w_llm w)
           (w_cat w) (w_log w)).

(** What follows the vendor resolution in [get_structured_data_from_text]:
    extraction with the template of the context, then the two frames. *)
Definition extract_and_build (extracted_text filename : pystr)
    (text_length page_count : Z) (extraction_timestamp restaurant_id : pystr)
    (vendor_context : vendor_context) : M (invoice_record * list line_item) :=
  match apply_regex_extraction extracted_text (vc_regex vendor_context) with
  | inl exc => raise (ValueError (u "Failed to apply regex: " ++ exn_str exc))
  | inr (extracted_inv_data, extracted_li_data) =>
      let inv_df :=
        _build_invoice_record extracted_inv_data vendor_context filename
          restaurant_id text_length page_count extraction_timestamp in
      li_df <- _build_line_items_records extracted_li_data vendor_context ;;
      ret (inv_df, li_df)
  end.

Definition get_structured_data_from_text (extracted_text filename : pystr)
    (text_length page_count : Z)
    (extraction_timestamp restaurant_id file_path : pystr)
  : M (invoice_record * list line_item) :=
  if negb (truthy (strip extracted_text))
  then raise (ValueError (u "Input text cannot be empty"))
  else
    vendor_context <-
      try_except
        (identify_vendor_and_get_regex extracted_text file_path)
        (fun exc =>
           fresh <- new_object_id ;;
           ret (fallback_context fresh (exn_str exc))) ;;
    extract_and_build extracted_text filename text_length page_count
      extraction_timestamp restaurant_id vendor_context.

End Builder.

End Normalizer.

(** ** Materialization of page groups ([extraction/regularize_file.py]) *)

Module Splitter.

(** A path, as the list of its components. *)
Definition fspath := list pystr.

Definition PROCESSED_DIR : fspath := [u "data"; u "processed_area"].

(** [dir / name] *)
Definition child (dir : fspath) (name : pystr) : fspath := dir ++ [name].

Inductive split_exn :=
| OSError (op : pystr) (target : fspath)
| IndexError.

(** [{base_name}-page{start}.pdf] or [{base_name}-page{start}-{end}.pdf] *)
Definition new_filename (base_name : pystr) (start end_ : nat) : pystr :=
  if start =? end_ then
    base_name ++ u "-page" ++ str_of_nat start ++ u ".pdf"
  else
    base_name ++ u "-page" ++ str_of_nat start ++ u "-" ++ str_of_nat end_
      ++ u ".pdf".

Definition temp_path (name : pystr) : fspath := child PROCESSED_DIR (u ".tmp-" ++ name).
Definition final_path (name : pystr) : fspath := child PROCESSED_DIR name.

(** The output name of a non-empty group. *)
Definition group_filename (base_name : pystr) (group : list nat) : pystr :=
  new_filename base_name (hd 0 group) (List.last group 0).

Section Split.
Context {Page Info : Type}.

(** What a file holds: a complete PDF, or the truncated remains of a write
    that failed. *)
Inductive file :=
| Pdf (pages : list Page) (info : option Info)
| Partial.

(** The open source document: its pages and its [/Info] dictionary. *)
Record reader := Reader {
  r_pages : list Page;
  r_info : option Info
}.

(** The file system, the outcome of the input/output operations still to
    come ([true]: the operation fails; none left: it succeeds), and the two
    lists the function keeps: the outputs created and the outputs whose
    cleanup failed and was logged. *)
Record split_state := SplitState {
  files : gmap fspath file;
  faults : list bool;
  created : list fspath;
  warned : list fspath
}.

Definition IO (A : Type) : Type := SE split_state split_exn A.

Open Scope M_scope.

(** Whether the next input/output operation fails. *)
Definition next_fault : IO bool :=
  fun st =>
    match faults st with
    | [] => (inr false, st)
    | b :: bs => (inr b, SplitState (files st) bs (created st) (warned st))
    end.

Definition set_files (f : gmap fspath file -> gmap fspath file) : IO unit :=
  fun st => (inr tt, SplitState (f (files st)) (faults st) (created st) (warned st)).

(** [with open(path, "wb") as f: writer.write(f)]: opening creates or
    truncates the file, writing fills it. *)
Definition write_file (path : fspath) (content : file) : IO unit :=
  failed <- next_fault ;;
  if failed : bool then raise (OSError (u "open") path)
  else
    set_files (fun fs => <[path := Partial]> fs) ;;;
    failed <- next_fault ;;
    if failed : bool then raise (OSError (u "write") path)
    else set_files (fun fs => <[path := content]> fs).

(** [os.replace(src, dst)] *)
Definition os_replace (src dst : fspath) : IO unit :=
  failed <- next_fault ;;
  if failed : bool then raise (OSError (u "replace") src)
  else
    fun st =>
      match files st !! src with
      | Some content =>
          set_files (fun fs => <[dst := content]> (delete src fs)) st
      | None => (inl (OSError (u "replace") src), st)
      end.

(** [path.unlink()] *)
Definition unlink (path : fspath) : IO unit :=
  failed <- next_fault ;;
  if failed : bool then raise (OSError (u "unlink") path)
  else
    fun st =>
      match files st !! path with
      | Some _ => set_files (fun fs => delete path fs) st
      | None => (inl (OSError (u "unlink") path), st)
      end.

(** [reader.pages[page_index - 1]], negative indices counting from the end. *)
Definition page_at (pages : list Page) (page_index : nat) : option Page :=
  let i := (Z.of_nat page_index - 1)%Z in
  let j := if (i <? 0)%Z then (i + Z.of_nat (length pages))%Z else i in
  if (j <? 0)%Z then None else pages !! Z.to_nat j.

(** The pages added to the writer for one group. *)
Fixpoint collect_pages (pages : list Page) (group : list nat) : IO (list Page) :=
  match group with
  | [] => ret []
  | page_index :: rest =>
      match page_at pages page_index with
      | Some page =>
          more <- collect_pages pages rest ;;
          ret (page :: more)
      | None => raise IndexError
      end
  end.

Definition append_created (path : fspath) : IO unit :=
  fun st => (inr tt, SplitState (files st) (faults st) (created st ++ [path]) (warned st)).

(** The [for group in groups] loop. *)
Fixpoint write_groups (base_name : pystr) (rd : reader) (groups : list (list nat))
  : IO unit :=
  match groups with
  | [] => ret tt
  | group :: rest =>
      match group with
      | [] => write_groups base_name rd rest
      | _ :: _ =>
          let name := group_filename base_name group in
          pages <- collect_pages (r_pages rd) group ;;
          write_file (temp_path name) (Pdf pages (r_info rd)) ;;;
          os_replace (temp_path name) (final_path name) ;;;
          append_created (final_path name) ;;;
          write_groups base_name rd rest
      end
  end.

Definition log_warning (path : fspath) : IO unit :=
  fun st => (inr tt, SplitState (files st) (faults st) (created st) (warned st ++ [path])).

(** The cleanup loop of the [except] branch. *)
Fixpoint cleanup (outputs : list fspath) : IO unit :=
  match outputs with
  | [] => ret tt
  | f :: rest =>
      try_except (unlink f) (fun _ => log_warning f) ;;;
      cleanup rest
  end.

(** The [try] body: all groups, then the removal of the original. *)
Definition split_body (p : fspath) (base_name : pystr) (rd : reader)
    (groups : list (list nat)) : IO unit :=
  write_groups base_name rd groups ;;;
  unlink p.

(** [p] is the path of the original and [base_name] its stem. *)
Definition split_pdf_by_page_groups (p : fspath) (base_name : pystr) (rd : reader)
    (groups : list (list nat)) : IO unit :=
  (fun st => (inr tt, SplitState (files st) (faults st) [] (warned st))) ;;;
  try_except
    (split_body p base_name rd groups)
    (fun exc =>
       (fun st => cleanup (created st) st) ;;;
       raise exc).

End Split.
End Splitter.

(** ** Multi-page documents ([extraction/regularize_file.py]) *)

Module Regularizer.
Import Segmenter Splitter.

(** The messages of the three [ValueError]s of the validation loop. *)
Definition msg_not_consecutive : pystr :=
  u "Each inner group must contain consecutive page indices.".
Definition msg_out_of_range : pystr :=
  u "Page indices must be 1-based integers within page range.".
Definition msg_overlapping : pystr :=
  u "Overlapping page indices detected in groups.".

(** What [process_multi_page_pdf] raises: a [ValueError] of its own
    validation, or whatever [split_pdf_by_page_groups] raised. *)
Inductive process_exn :=
| GroupsValueError (msg : pystr)
| SplitError (e : split_exn).

(** [for i in range(len(grp) - 1): if grp[i+1] != grp[i] + 1: raise ...];
    [true] when the loop goes through. *)
Fixpoint consecutive_pages (grp : list nat) : bool :=
  match grp with
  | x :: ((y :: _) as rest) => (y =? x + 1) && consecutive_pages rest
  | _ => true
  end.

(** [for page_index in grp: ...], with the set [covered_pages] it extends. *)
Fixpoint cover_pages (num_pages : nat) (grp : list nat) (covered_pages : gset nat)
  : pystr + gset nat :=
  match grp with
  | [] => inr covered_pages
  | page_index :: rest =>
      if (page_index <? 1) || (num_pages <? page_index) then inl msg_out_of_range
      else if bool_decide (page_index ∈ covered_pages) then inl msg_overlapping
      else cover_pages num_pages rest (covered_pages ∪ {[page_index]})
  end.

(** The validation loop [for grp in groups].  The groups come from the
    detector as tuples of integers, so the two [isinstance] tests hold. *)
Fixpoint validate_groups (num_pages : nat) (groups : list (list nat))
    (validated_groups : list (list nat)) (covered_pages : gset nat)
  : pystr + list (list nat) :=
  match groups with
  | [] => inr validated_groups
  | grp :: rest =>
      match grp with
      | [] => validate_groups num_pages rest validated_groups covered_pages
      | _ :: _ =>
          if negb (consecutive_pages grp) then inl msg_not_consecutive
          else
            match cover_pages num_pages grp covered_pages with
            | inl msg => inl msg
            | inr covered =>
                validate_groups num_pages rest (validated_groups ++ [grp]) covered
            end
      end
  end.

Section Process.
Context {Page Info : Type}.
Variable extract_text : Page -> option pystr.
Variable patterns : list (pystr -> option pystr).

(** [split_pdf_by_page_groups] as called from [process_multi_page_pdf]. *)
Definition split_validated (p : fspath) (base_name : pystr) (rd : @reader Page Info)
    (groups : list (list nat)) : SE (@split_state Page Info) process_exn unit :=
  fun st =>
    match split_pdf_by_page_groups p base_name rd groups st with
    | (inl e, st') => (inl (SplitError e), st')
    | (inr r, st') => (inr r, st')
    end.

Definition process_multi_page_pdf (p : fspath) (base_name : pystr)
    (rd : @reader Page Info) : SE (@split_state Page Info) process_exn unit :=
  let groups := detect_invoice_page_groups extract_text patterns (r_pages rd) in
  match groups with
  | [] => ret tt
  | _ :: _ =>
      let num_pages := length (r_pages rd) in
      match validate_groups num_pages groups [] ∅ with
      | inl msg => raise (GroupsValueError msg)
      | inr groups => split_validated p base_name rd groups
      end
  end.

End Process.
End Regularizer.

(** ** Categorizer ([processing/categorization.py], with the category and
    lookup methods of [storage/database.py]) *)

Module Categorizer.

(** [s.replace(old, '')] for a non-empty [old]: the occurrences of [old]
    are removed from left to right, without overlap.  [skip] counts the
    characters of the current occurrence still to be dropped. *)
Fixpoint remove_sub (old : pystr) (skip : nat) (s : pystr) : pystr :=
  match s with
  | [] => []
  | c :: s' =>
      match skip with
      | S k => remove_sub old k s'
      | O =>
          if starts_with old s then remove_sub old (length old - 1) s'
          else c :: remove_sub old 0 s'
      end
  end.

Definition Uncategorized : pystr := u "Uncategorized".

(** The one exception the categorizer lets through. *)
Inductive cat_exn := IndexError.

Section Categorizer.

(** [clean_description] on a description with a non-blank line, where it
    is a chain of regular-expression substitutions, and [str.lower] are
    taken as given. *)
Variable clean_description : pystr -> pystr.
Variable lower : pystr -> pystr.

(** The light model: from the description and the existing categories that
    the prompt is built from to the text of the response; [None] stands for
    any exception raised on the way. *)
Variable model_state : Type.
Variable generate_content :
  pystr -> list pystr -> model_state -> option pystr * model_state.

(** The two collections the categorizer uses, the state of the model and
    the requests sent to it.  A document of [item_lookup_map] is kept as
    its [category], [None] when it has none.  The database is taken to be
    reachable. *)
Record cat_store := CatStore {
  categories : list pystr;
  item_lookup_map : gmap pystr (option pystr);
  model : model_state;
  requests : list (pystr * list pystr)
}.

Definition get_all_category_names (st : cat_store) : list pystr :=
  categories st.

Definition get_stored_category (description : pystr) (st : cat_store)
  : option pystr :=
  match item_lookup_map st !! description with
  | Some doc => doc
  | None => None
  end.

(** [insert_one({"_id": name})]: a duplicate key raises, which is caught. *)
Definition insert_master_category (category_name : pystr) (st : cat_store)
  : cat_store :=
  if bool_decide (category_name ∈ categories st) then st
  else CatStore (categories st ++ [category_name]) (item_lookup_map st)
                (model st) (requests st).

Definition upsert_item_mapping (description category_name : pystr)
    (st : cat_store) : cat_store :=
  CatStore (categories st)
           (<[description := Some category_name]> (item_lookup_map st))
           (model st) (requests st).

Definition predict_category_with_llm (description : pystr)
    (existing_categories : list pystr) (st : cat_store) : pystr * cat_store :=
  let '(response, m) := generate_content description existing_categories (model st) in
  let st' := CatStore (categories st) (item_lookup_map st) m
                      (requests st ++ [(description, existing_categories)]) in
  match response with
  | Some text =>
      (remove_sub (u "**") 0 (remove_sub (u "```") 0 (strip text)), st')
  | None => (Uncategorized, st')
  end.

Definition save_category_result (description predicted_category : pystr)
    (existing_categories : list pystr) (st : cat_store) : cat_store :=
  if negb (truthy predicted_category)
     || bool_decide (predicted_category = Uncategorized)
  then st
  else
    let existing_lower := map lower existing_categories in
    let st1 :=
      if bool_decide (lower predicted_category ∈ existing_lower) then st
      else insert_master_category predicted_category st in
    upsert_item_mapping description predicted_category st1.

(** [clean_description] takes [lines[0]] of the non-blank lines of a
    non-empty description, which fails when there is none, that is when
    the description is white space only. *)
Definition get_line_item_category (description : pystr) (st : cat_store)
  : (cat_exn + pystr) * cat_store :=
  if negb (truthy description) then (inr Uncategorized, st)
  else if negb (truthy (strip description)) then (inl IndexError, st)
  else
    let cleaned_description := clean_description description in
    match get_stored_category cleaned_description st with
    | Some ((_ :: _) as stored_category) => (inr stored_category, st)
    | _ =>
        let existing_categories := get_all_category_names st in
        let '(predicted_category, st1) :=
          predict_category_with_llm cleaned_description existing_categories st in
        (inr predicted_category,
         save_category_result cleaned_description predicted_category
           existing_categories st1)
    end.

End Categorizer.
End Categorizer.

(** ** Patterns of the extraction ([processing/vendor_identifier.py]) *)

Module Extractor.

(** What the head of [apply_regex_extraction] raises before any pattern is
    applied. *)
Inductive unpack_exn :=
| GetAttributeError
| UnpackValueError
| UnpackTypeError.

(** The eleven patterns [apply_regex_extraction] works with. *)
Record patterns := Patterns {
  p_inv_num : pyval;
  p_inv_date : pyval;
  p_inv_total : pyval;
  p_order_date : pyval;
  p_block_start : pyval;
  p_block_end : pyval;
  p_li_qty : pyval;
  p_li_desc : pyval;
  p_li_unit : pyval;
  p_li_price : pyval;
  p_li_total : pyval
}.

(** The adapter: the list built from a dictionary template, by
    [inv.get(k, '')] and [li.get(k, '')] on the two levels, which must be
    dictionaries for that; any other value is left as it is. *)
Definition adapt (regex_patterns : pyval) : unpack_exn + pyval :=
  match regex_patterns with
  | VDict d =>
      match get_default (u "invoice_level") (VDict []) d,
            get_default (u "line_item_level") (VDict []) d with
      | VDict inv, VDict li =>
          inr (VList
                 [ get_default (u "invoice_number") (VStr []) inv;
                   get_default (u "invoice_date") (VStr []) inv;
                   get_default (u "invoice_total_amount") (VStr []) inv;
                   get_default (u "order_date") (VStr []) inv;
                   get_default (u "line_item_block_start") (VStr []) li;
                   get_default (u "line_item_block_end") (VStr []) li;
                   get_default (u "quantity") (VStr []) li;
                   get_default (u "description") (VStr []) li;
                   get_default (u "unit") (VStr []) li;
                   get_default (u "unit_price") (VStr []) li;
                   get_default (u "line_total") (VStr []) li ])
      | _, _ => inl GetAttributeError
      end
  | _ => inr regex_patterns
  end.

(** The unpacking [(p_inv_num, ..., p_li_total) = regex_patterns]: of a
    list, or of the characters of a string; eleven values are needed. *)
Definition unpack (regex_patterns : pyval) : unpack_exn + patterns :=
  let values :=
    match regex_patterns with
    | VList l => Some l
    | VStr s => Some (map (fun c => VStr [c]) s)
    | VDict d => Some (map (fun kv => VStr kv.1) d)
    | _ => None
    end in
  match values with
  | Some [a; b; c; d; e; f; g; h; i; j; k] =>
      inr (Patterns a b c d e f g h i j k)
  | Some _ => inl UnpackValueError
  | None => inl UnpackTypeError
  end.

(** The patterns of a call [apply_regex_extraction(text, regex_patterns)]. *)
Definition patterns_of (regex_patterns : pyval) : unpack_exn + patterns :=
  match adapt regex_patterns with
  | inr l => unpack l
  | inl e => inl e
  end.

End Extractor.

(** ** Text of a PDF ([extraction/pdf_processor.py]) *)

Module PdfText.

(** What [page.extract_text()] does: it raises, or returns a text or
    [None]. *)
Inductive extraction :=
| Raises
| Returns (text : option pystr).

Section PdfText.
Context {Page : Type}.

(** [PdfReader(file_path)] with [len(reader.pages)]: the pages, or [None]
    when opening the file or reading its page tree raises. *)
Variable open_pdf : pystr -> option (list Page).
Variable extract_text : Page -> extraction.
(** [Path(file_path).name] and the formatted [datetime.now()]. *)
Variable path_name : pystr -> pystr.
Variable now : pystr.

(** The loop over the pages, from the text collected so far; [None] when a
    page raises. *)
Fixpoint read_pages (pages : list Page) (extracted_text : pystr) : option pystr :=
  match pages with
  | [] => Some extracted_text
  | page :: rest =>
      match extract_text page with
      | Raises => None
      | Returns (Some ((_ :: _) as text)) =>
          read_pages rest (extracted_text ++ text ++ [10%N])
      | Returns _ => read_pages rest extracted_text
      end
  end.

(** The tuple [(extracted_text, filename, text_length, page_count,
    extraction_timestamp)]. *)
Definition extract_text_from_pdf (file_path : pystr)
  : pystr * pystr * nat * nat * pystr :=
  let filename := path_name file_path in
  let extraction_timestamp := now in
  let '(extracted_text, page_count) :=
    match open_pdf file_path with
    | None => ([], 0)
    | Some pages =>
        match read_pages pages [] with
        | Some text => (text, length pages)
        | None => ([], length pages)
        end
    end in
  (extracted_text, filename, length extracted_text, page_count,
   extraction_timestamp).

End PdfText.
End PdfText.

(** ** A scripted set of collaborators

    Identifiers are strings behind an [x]; the registry compares ASCII
    letters without case; the signal extractor takes the whole text for the
    vendor name; the language model reads its answers from a script; the
    categorizer files everything under one category; extraction finds no
    field and no line item. *)

Module Scripted.

Definition scripted_exn_str (e : exn) : pystr :=
  match e with
  | ValueError m | RuntimeError m | AttributeError m | CollaboratorError m => m
  | KeyError k => k
  | Phase1ParseError => u "Phase1 parse failure"
  | Phase1ValidationError _ => u "Phase1 validation failure"
  | Phase2ParseError => u "Phase2 parse failure"
  | Phase2ValidationError _ => u "Phase2 validation failure"
  end.

Definition scripted_llm (p : prompt) (script : list (exn + pyval))
  : (exn + pyval) * list (exn + pyval) :=
  match script with
  | answer :: rest => (answer, rest)
  | [] => (inl (RuntimeError (u "Gemini API Quota Exceeded")), [])
  end.

(** The signal extractor takes the whole text for the vendor name. *)
Definition name_only (text : pystr) : signals :=
  Signals None None None (Some text) None.

Definition scripted : Collaborators :=
  {| oid := pystr;
     ObjectId := fun s => match s with 120%N :: o => Some o | _ => None end;
     oid_str := fun o => 120%N :: o;
     new_oid := str_of_nat;
     ObjectId_str := fun o => eq_refl;
     oid_str_truthy := fun o => eq_refl;
     iregex_match := fun literal stored =>
       bool_decide (map ascii_lower literal = map ascii_lower stored);
     extract_vendor_signals := name_only;
     llm_state := list (exn + pyval);
     call_llm_api := scripted_llm;
     cat_state := unit;
     get_line_item_category := fun _ st => (inr (Some (u "Uncategorized")), st);
     apply_regex_extraction := fun _ _ => inr (InvData None None None None, []);
     exn_str := scripted_exn_str |}.

(** A well-formed phase-1 answer. *)
Definition phase1_answer : pyval :=
  VDict
    [ (u "invoice_details",
       VDict [ (u "invoice_number", VStr (u "INV-7"));
               (u "invoice_date", VStr (u "2024-01-31"));
               (u "invoice_total_amount", VStr (u "12.50"));
               (u "order_date", VStr (u "None")) ]);
      (u "line_items",
       VList [ VDict [ (u "description", VStr (u "Flour"));
                       (u "quantity", VStr (u "1"));
                       (u "unit", VStr (u "EA"));
                       (u "unit_price", VStr (u "12.50"));
                       (u "line_total", VStr (u "12.50")) ] ]);
      (u "vendor_master_data",
       VDict [ (u "vendor_name", VStr (u "Acme Foods"));
               (u "vendor_email_id", VStr (u "billing@acme.test")) ]) ].

Definition template_of (invoice_level line_item_level : list (pystr * pyval)) : pyval :=
  VDict [ (u "invoice_level", VDict invoice_level);
          (u "line_item_level", VDict line_item_level) ].

Definition good_invoice_level : list (pystr * pyval) :=
  [ (u "invoice_number", VStr (u "Invoice #(\d+)"));
    (u "invoice_date", VStr (u "Date: (\S+)"));
    (u "invoice_total_amount", VStr (u "Total: (\S+)"));
    (u "order_date", VStr []) ].

Definition line_item_level_with (block_start unit : pystr) : list (pystr * pyval) :=
  [ (u "line_item_block_start", VStr block_start);
    (u "line_item_block_end", VStr (u "Subtotal"));
    (u "description", VStr (u "^(\D+?)\s"));
    (u "quantity", VStr (u "\s(\d+)\s"));
    (u "unit", VStr unit);
    (u "unit_price", VStr (u "(\d+\.\d{2})\s"));
    (u "line_total", VStr (u "(\d+\.\d{2})$")) ].

(** A well-formed phase-2 answer. *)
Definition phase2_answer : pyval :=
  template_of good_invoice_level
    (line_item_level_with (u "Description") (u "\s(EA|LB)\s")).

End Scripted.

(** * Properties *)

(** ** Segmentation *)

Module SegmenterFacts.
Import Segmenter.

(** The consecutiveness check of [process_multi_page_pdf]:
    [grp[i+1] == grp[i] + 1] for every adjacent pair. *)
Definition consecutive (g : list nat) : Prop :=
  forall i x y, g !! i = Some x -> g !! S i = Some y -> y = S x.

Lemma consecutive_seq a n : consecutive (seq a n).
Proof.
  intros i x y Hx Hy.
  apply lookup_seq in Hx as [-> _]. apply lookup_seq in Hy as [-> _]. lia.
Qed.

Lemma enumerate_app {A} (xs ys : list A) s :
  enumerate s (xs ++ ys) = enumerate s xs ++ enumerate (s + length xs) ys.
Proof.
  revert s. induction xs as [|x xs IH]; intros s; simpl.
  - by rewrite Nat.add_0_r.
  - rewrite IH. do 3 f_equal. lia.
Qed.

Lemma archive_mono G g x : x ∈ G -> x ∈ archive G g.
Proof. destruct g; simpl; [done | set_solver]. Qed.

Lemma archive_nonempty G g : g <> [] -> archive G g = G ++ [g].
Proof. by destruct g. Qed.

Lemma strongly_sorted_seq a n : StronglySorted lt (seq a n).
Proof.
  revert a. induction n as [|n IH]; intros a; simpl; constructor; [apply IH|].
  apply List.Forall_forall. intros x Hx%in_seq. lia.
Qed.

(** In a strictly sorted concatenation, earlier groups hold smaller elements. *)
Lemma concat_sorted_order (gs : list (list nat)) :
  StronglySorted lt (concat gs) ->
  forall k1 k2 g1 g2 a b,
    k1 < k2 -> gs !! k1 = Some g1 -> gs !! k2 = Some g2 ->
    a ∈ g1 -> b ∈ g2 -> a < b.
Proof.
  induction gs as [|g gs IH]; intros Hs k1 k2 g1 g2 a b Hlt H1 H2 Ha Hb;
    [done|].
  simpl in Hs. apply StronglySorted_app in Hs as (Hcross & Hg & Hgs).
  destruct k2 as [|k2]; [lia|]. simpl in H2.
  destruct k1 as [|k1]; simpl in H1.
  - injection H1 as ->. apply Hcross; [done|].
    apply list_elem_of_In, in_concat. exists g2. split.
    + apply list_elem_of_In. by eapply list_elem_of_lookup_2.
    + by apply list_elem_of_In.
  - eapply (IH Hgs k1 k2); eauto. lia.
Qed.

Section DetectFacts.
Context {Page : Type}.
Variable extract_text : Page -> option pystr.
Variable patterns : list (pystr -> option pystr).

Local Abbreviation step := (seg_step extract_text patterns).
Local Abbreviation run := (seg_run extract_text patterns).
Local Abbreviation detect := (detect_invoice_page_groups extract_text patterns).
Local Abbreviation found := (found_id_of extract_text patterns).

Lemma seg_run_snoc pre p :
  run (pre ++ [p]) = step (run pre) (S (length pre), p).
Proof.
  unfold seg_run. by rewrite enumerate_app, fold_left_app.
Qed.

(** Loop invariant after [n] pages: the archived groups cover [1..m], the
    group being built covers [m+1..n]. *)
Definition seg_inv (n : nat) (st : seg_state) : Prop :=
  exists m k,
    m + k = n /\
    concat (grouped_invoices st) = seq 1 m /\
    current_group st = seq (S m) k /\
    Forall (fun g => g <> [] /\ consecutive g) (grouped_invoices st).

Lemma archive_inv n st :
  seg_inv n st ->
  concat (archive (grouped_invoices st) (current_group st)) = seq 1 n /\
  Forall (fun g => g <> [] /\ consecutive g)
         (archive (grouped_invoices st) (current_group st)).
Proof.
  intros (m & k & Hn & HG & Hc & HF). rewrite Hc.
  destruct k as [|k].
  - simpl. rewrite Nat.add_0_r in Hn. by subst.
  - rewrite archive_nonempty by done.
    rewrite concat_app, HG. simpl concat. rewrite app_nil_r.
    split.
    + rewrite <- Hn. symmetry. apply (seq_app m (S k) 1).
    + apply Forall_app. split; [done|]. constructor; [|constructor].
      split; [done | apply consecutive_seq].
Qed.

Lemma seg_inv_append n st t :
  seg_inv n st ->
  seg_inv (S n) (SegState (grouped_invoices st) (current_group st ++ [S n]) t).
Proof.
  intros (m & k & Hn & HG & Hc & HF).
  exists m, (S k). cbn [grouped_invoices current_group].
  repeat split; [lia | done | | done].
  rewrite Hc, seq_S. do 2 f_equal. lia.
Qed.

Lemma seg_step_inv n st p :
  seg_inv n st -> seg_inv (S n) (step st (S n, p)).
Proof.
  intros Hinv. unfold seg_step.
  destruct (S n =? 1); [by apply seg_inv_append|].
  destruct (found p) as [fid|]; [|by apply seg_inv_append].
  case_decide; [by apply seg_inv_append|].
  destruct (archive_inv _ _ Hinv) as [Hcat HF].
  exists n, 1. simpl. repeat split; [lia | done | done].
Qed.

Lemma seg_run_inv pages : seg_inv (length pages) (run pages).
Proof.
  induction pages as [|p pre IH] using rev_ind.
  - exists 0, 0. simpl. repeat split; constructor.
  - rewrite seg_run_snoc, length_app. simpl.
    replace (length pre + 1) with (S (length pre)) by lia.
    by apply seg_step_inv.
Qed.

Lemma sorted_of_seq a n : merge_sort le (seq a n) = seq a n.
Proof.
  apply (StronglySorted_unique le).
  - apply StronglySorted_merge_sort; apply _.
  - induction (strongly_sorted_seq a n) as [|x l _ IH Hx]; constructor;
      [done|]. eapply List.Forall_impl; [|exact Hx]. simpl. lia.
  - apply merge_sort_Permutation.
Qed.

(** C1: the groups returned by [detect_invoice_page_groups] partition the
    pages [1..N] of the source.  Concatenated in output order they are
    exactly [range(1, N+1)] (so is their sorted union); every page lies in
    exactly one group; distinct groups are disjoint; groups come in
    increasing page order; every group is non-empty and internally
    consecutive. *)
Theorem detect_invoice_page_groups_partition (pages : list Page) :
  let gs := detect pages in
  let N := length pages in
  concat gs = seq 1 N
  /\ merge_sort le (concat gs) = seq 1 N
  /\ (forall i, 1 <= i <= N ->
        exists k g, gs !! k = Some g /\ i ∈ g /\
          forall k' g', gs !! k' = Some g' -> i ∈ g' -> k' = k)
  /\ (forall k1 k2 g1 g2 i,
        k1 <> k2 -> gs !! k1 = Some g1 -> gs !! k2 = Some g2 ->
        i ∈ g1 -> i ∉ g2)
  /\ (forall k1 k2 g1 g2 a b,
        k1 < k2 -> gs !! k1 = Some g1 -> gs !! k2 = Some g2 ->
        a ∈ g1 -> b ∈ g2 -> a < b)
  /\ Forall (fun g => g <> [] /\ consecutive g) gs.
Proof.
  intros gs N.
  destruct (archive_inv _ _ (seg_run_inv pages)) as [Hcat HF].
  change (concat gs = seq 1 N) in Hcat.
  change (Forall (fun g => g <> [] /\ consecutive g) gs) in HF.
  clearbody gs N.
  assert (Hord : forall k1 k2 g1 g2 a b,
            k1 < k2 -> gs !! k1 = Some g1 -> gs !! k2 = Some g2 ->
            a ∈ g1 -> b ∈ g2 -> a < b).
  { apply concat_sorted_order. rewrite Hcat. apply strongly_sorted_seq. }
  assert (Hdisj : forall k1 k2 g1 g2 i,
            k1 <> k2 -> gs !! k1 = Some g1 -> gs !! k2 = Some g2 ->
            i ∈ g1 -> i ∉ g2).
  { intros k1 k2 g1 g2 i Hne H1 H2 Hi1 Hi2.
    destruct (Nat.lt_total k1 k2) as [Hlt|[Heq|Hgt]]; [|done|].
    - pose proof (Hord _ _ _ _ _ _ Hlt H1 H2 Hi1 Hi2). lia.
    - pose proof (Hord _ _ _ _ _ _ Hgt H2 H1 Hi2 Hi1). lia. }
  repeat split; try done.
  - rewrite Hcat. apply sorted_of_seq.
  - intros i Hi.
    assert (Hin : In i (concat gs)) by (rewrite Hcat; apply in_seq; lia).
    apply in_concat in Hin as (g & Hg & Hig).
    apply list_elem_of_In, list_elem_of_lookup in Hg as [k Hk].
    apply list_elem_of_In in Hig.
    exists k, g. repeat split; [done..|].
    intros k' g' Hk' Hig'.
    destruct (decide (k' = k)) as [|Hne]; [done|].
    by destruct (Hdisj _ _ _ _ _ Hne Hk' Hk Hig').
Qed.

(** Running the page loop from an arbitrary state and page offset. *)
Definition run_from (start : nat) (ps : list Page) (st : seg_state) : seg_state :=
  fold_left (seg_step extract_text patterns) (enumerate start ps) st.

Lemma seg_run_app pre ps :
  run (pre ++ ps) = run_from (S (length pre)) ps (run pre).
Proof.
  unfold seg_run, run_from. by rewrite enumerate_app, fold_left_app.
Qed.

(** A page after the first that carries no id, or the tracked id, extends
    the current group. *)
Lemma step_continue st i p :
  1 < i ->
  found p = None \/ found p = current_tracking_id st ->
  step st (i, p) =
    SegState (grouped_invoices st) (current_group st ++ [i])
             (current_tracking_id st).
Proof.
  intros Hi Hp. unfold seg_step.
  destruct (Nat.eqb_spec i 1) as [|_]; [lia|].
  destruct (found p) eqn:E; [|done]. case_decide; [done|].
  destruct Hp; congruence.
Qed.

(** A page after the first whose id differs from the tracked id closes the
    current group and opens its own. *)
Lemma step_split st i p x :
  1 < i ->
  found p = Some x -> current_tracking_id st <> Some x ->
  step st (i, p) =
    SegState (archive (grouped_invoices st) (current_group st)) [i] (Some x).
Proof.
  intros Hi Hp Hne. unfold seg_step.
  destruct (Nat.eqb_spec i 1) as [|_]; [lia|].
  rewrite Hp. case_decide; [congruence | done].
Qed.

Lemma run_from_continue ps : forall start st,
  1 < start ->
  Forall (fun p => found p = None \/ found p = current_tracking_id st) ps ->
  run_from start ps st =
    SegState (grouped_invoices st)
             (current_group st ++ seq start (length ps))
             (current_tracking_id st).
Proof.
  induction ps as [|p ps IH]; intros start st Hs Hall.
  - destruct st. simpl. by rewrite app_nil_r.
  - apply Forall_cons in Hall as [Hp Hall].
    change (run_from start (p :: ps) st)
      with (run_from (S start) ps (step st (start, p))).
    rewrite step_continue by done.
    rewrite IH; [|lia|done]. simpl.
    by rewrite <- app_assoc.
Qed.

(** A set of pages held together by one group, archived or under
    construction, stays together for the rest of the loop. *)
Definition held (X : nat -> Prop) (st : seg_state) : Prop :=
  (exists g, g ∈ grouped_invoices st /\ forall i, X i -> i ∈ g)
  \/ (current_group st <> [] /\ forall i, X i -> i ∈ current_group st).

Lemma held_step X st ip : held X st -> held X (step st ip).
Proof.
  destruct ip as [i p]. intros H. unfold seg_step.
  assert (Happ : forall t,
    held X (SegState (grouped_invoices st) (current_group st ++ [i]) t)).
  { intros t. destruct H as [(g & Hg & HX)|[Hne HX]]; [left|right]; simpl.
    - by exists g.
    - split; [by destruct (current_group st)|]. intros j Hj.
      apply elem_of_app. left. by apply HX. }
  destruct (i =? 1); [done|].
  destruct (found p); [|done]. case_decide; [done|].
  left. simpl. destruct H as [(g & Hg & HX)|[Hne HX]].
  - exists g. split; [by apply archive_mono | done].
  - exists (current_group st). split; [|done].
    rewrite archive_nonempty by done. set_solver.
Qed.

Lemma held_run_from X ps : forall start st,
  held X st -> held X (run_from start ps st).
Proof.
  induction ps as [|p ps IH]; intros start st H; [done|].
  change (run_from start (p :: ps) st)
    with (run_from (S start) ps (step st (start, p))).
  apply IH. by apply held_step.
Qed.

Lemma held_archive X st :
  held X st ->
  exists g, g ∈ archive (grouped_invoices st) (current_group st)
            /\ forall i, X i -> i ∈ g.
Proof.
  intros [(g & Hg & HX)|[Hne HX]].
  - exists g. split; [by apply archive_mono | done].
  - exists (current_group st). split; [|done].
    rewrite archive_nonempty by done. set_solver.
Qed.

(** After any page has been processed, it is in the group under
    construction and its id, if it has one, is the tracked id. *)
Lemma step_tracks st i p :
  let st' := step st (i, p) in
  i ∈ current_group st'
  /\ (found p = None \/ found p = current_tracking_id st').
Proof.
  unfold seg_step. destruct (i =? 1); simpl; [set_solver|].
  destruct (found p) eqn:E; simpl; [|set_solver].
  case_decide; simpl; set_solver.
Qed.

(** Once page [i] has opened a group after the archived groups [D], the
    final output is [D] followed by a group that starts at [i]. *)
Definition opened (D : list (list nat)) (i : nat) (st : seg_state) : Prop :=
  current_group st <> [] /\
  exists extra g rest,
    grouped_invoices st = D ++ extra /\
    extra ++ [current_group st] = g :: rest /\
    head g = Some i.

Lemma opened_step D i st jp : opened D i st -> opened D i (step st jp).
Proof.
  destruct jp as [j p]. intros (Hne & extra & g & rest & HG & Hx & Hh).
  assert (Happ : forall t,
    opened D i (SegState (grouped_invoices st) (current_group st ++ [j]) t)).
  { intros t. split; simpl; [by destruct (current_group st)|].
    destruct extra as [|e extra]; simpl in Hx.
    - injection Hx as Hg Hr. subst g rest.
      exists [], (current_group st ++ [j]), [].
      repeat split; [done|]. by destruct (current_group st).
    - injection Hx as Hg Hr. subst g rest.
      exists (e :: extra), e, (extra ++ [current_group st ++ [j]]). done. }
  unfold seg_step. destruct (j =? 1); [done|].
  destruct (found p); [|done]. case_decide; [done|].
  split; simpl; [done|].
  exists (extra ++ [current_group st]), g, (rest ++ [[j]]).
  rewrite archive_nonempty, HG by done.
  repeat split; [by rewrite <- app_assoc | by rewrite Hx | done].
Qed.

Lemma opened_run_from D i ps : forall start st,
  opened D i st -> opened D i (run_from start ps st).
Proof.
  induction ps as [|p ps IH]; intros start st H; [done|].
  change (run_from start (p :: ps) st)
    with (run_from (S start) ps (step st (start, p))).
  apply IH. by apply opened_step.
Qed.

Lemma length_found pages ids : map found pages = ids -> length pages = length ids.
Proof. intros <-. by rewrite length_map. Qed.

(** C2: the segmenter state machine.  The first page opens the first group;
    a later page with no id or with the tracked id joins the current group;
    a later page whose id is present and differs from the tracked id closes
    the current group and opens a new one, which the final output keeps;
    hence a contiguous run of pages that share the id of its first page (or
    have none) ends up inside one output group.  Five pages with detected
    ids [100, None, 100, 200, None] yield ((1,2,3),(4,5)). *)
Theorem segmenter_state_machine :
  (forall p, detect [p] = [[1]])
  /\ (forall pre p,
        pre <> [] ->
        found p = None \/ found p = current_tracking_id (run pre) ->
        detect (pre ++ [p]) =
          grouped_invoices (run pre)
            ++ [current_group (run pre) ++ [S (length pre)]])
  /\ (forall pre p x,
        pre <> [] ->
        found p = Some x -> current_tracking_id (run pre) <> Some x ->
        detect (pre ++ [p]) = detect pre ++ [[S (length pre)]])
  /\ (forall pre p x post,
        pre <> [] ->
        found p = Some x -> current_tracking_id (run pre) <> Some x ->
        exists g rest,
          detect (pre ++ p :: post) = detect pre ++ g :: rest
          /\ head g = Some (S (length pre)))
  /\ (forall pre h t post,
        Forall (fun p => found p = None \/ found p = found h) t ->
        exists g,
          g ∈ detect (pre ++ h :: t ++ post)
          /\ forall i, length pre < i <= length pre + S (length t) -> i ∈ g)
  /\ (forall pages,
        map found pages =
          [Some (u "100"); None; Some (u "100"); Some (u "200"); None] ->
        detect pages = [[1; 2; 3]; [4; 5]]).
Proof.
  assert (Hlen : forall pre : list Page, pre <> [] -> 1 < S (length pre)).
  { intros [|? ?] ?; [done | simpl; lia]. }
  repeat apply conj.
  - done.
  - intros pre p Hne Hp. unfold detect_invoice_page_groups.
    rewrite seg_run_snoc, step_continue by auto. simpl.
    apply archive_nonempty. by destruct (current_group (run pre)).
  - intros pre p x Hne Hp Ht. unfold detect_invoice_page_groups.
    by rewrite seg_run_snoc, (step_split _ _ _ x) by auto.
  - intros pre p x post Hne Hp Ht.
    unfold detect_invoice_page_groups at 1.
    rewrite seg_run_app.
    change (run_from (S (length pre)) (p :: post) (run pre))
      with (run_from (S (S (length pre))) post
              (step (run pre) (S (length pre), p))).
    rewrite (step_split _ _ _ x) by auto.
    match goal with |- context [run_from ?a ?b ?c] =>
      destruct (opened_run_from (detect pre) (S (length pre)) b a c)
        as (Hne' & extra & g & rest & HG & Hx & Hh) end.
    { split; [done|]. exists [], [S (length pre)], []. simpl.
      by rewrite app_nil_r. }
    exists g, rest. split; [|done].
    rewrite archive_nonempty, HG, <- app_assoc by done. by rewrite Hx.
  - intros pre h t post Hall.
    unfold detect_invoice_page_groups.
    replace (pre ++ h :: t ++ post) with ((pre ++ [h]) ++ t ++ post)
      by by rewrite <- app_assoc.
    rewrite app_assoc, (seg_run_app ((pre ++ [h]) ++ t) post),
      (seg_run_app (pre ++ [h]) t).
    apply held_archive, held_run_from.
    rewrite seg_run_snoc.
    destruct (step_tracks (run pre) (S (length pre)) h) as [Hin Htr].
    set (s1 := step (run pre) (S (length pre), h)) in *.
    rewrite run_from_continue.
    + right. simpl. split.
      * intros Hnil. apply app_eq_nil in Hnil as [Hnil _].
        rewrite Hnil in Hin. by apply elem_of_nil in Hin.
      * intros i Hi. rewrite length_app in *. simpl in *.
        apply elem_of_app.
        destruct (decide (i = S (length pre))) as [->|]; [by left|].
        right. apply list_elem_of_In, in_seq. lia.
    + rewrite length_app. simpl. lia.
    + eapply Forall_impl; [exact Hall|]. simpl. intros p [Hp|Hp]; [by left|].
      destruct Htr as [Htr|Htr]; [left|right]; congruence.
  - intros pages Hids.
    pose proof (length_found _ _ Hids) as Hl.
    do 5 (destruct pages as [|? pages]; [done|]).
    destruct pages; [|done].
    simpl in Hids. injection Hids as H1 H2 H3 H4 H5.
    unfold detect_invoice_page_groups, seg_run. simpl.
    unfold found_id_of in *. rewrite H1, H2, H3, H4, H5. simpl.
    repeat case_decide; done.
Qed.

End DetectFacts.

(** Pages given by the id printed on them, if any: the text of a page is
    its id, and the only pattern captures a whole non-empty text. *)
Definition printed_id (page : option pystr) : option pystr := page.
Definition whole_text (text : pystr) : option pystr :=
  if truthy text then Some text else None.

Definition five_pages : list (option pystr) :=
  [Some (u "100"); None; Some (u "100"); Some (u "200"); None].

Lemma detect_invoice_page_groups_partition_witness :
  concat (detect_invoice_page_groups printed_id [whole_text] five_pages)
  = [1; 2; 3; 4; 5].
Proof.
  exact (proj1 (detect_invoice_page_groups_partition printed_id [whole_text]
                  five_pages)).
Defined.

Lemma segmenter_state_machine_witness :
  detect_invoice_page_groups printed_id [whole_text] five_pages
  = [[1; 2; 3]; [4; 5]].
Proof.
  apply (proj2 (proj2 (proj2 (proj2 (proj2
           (segmenter_state_machine printed_id [whole_text])))))).
  reflexivity.
Defined.

End SegmenterFacts.

(** ** Vendor resolution *)

Module ResolverFacts.
Section Facts.
Context `{Collaborators}.

(** The world after some more events have been logged. *)
Definition add_log (w : world) (evs : list event) : world :=
  World (w_vendors w) (w_templates w) (w_oid_counter w) (w_llm w) (w_cat w)
        (w_log w ++ evs).

Lemma add_log_nil w : add_log w [] = w.
Proof. destruct w. unfold add_log. simpl. by rewrite app_nil_r. Qed.

Lemma add_log_app w e1 e2 : add_log (add_log w e1) e2 = add_log w (e1 ++ e2).
Proof. unfold add_log. simpl. by rewrite app_assoc. Qed.

(** The answer of the registry to a query: the identifier of the first
    vendor whose field matches. *)
Definition lookup_vendor (f : vendor_field) (literal : pystr) (vendors : list vendor_doc)
  : option pystr :=
  option_map (fun d => oid_str (v_id d)) (List.find (field_matches f literal) vendors).

(** The query a signal leads to, if any: the field searched and the literal
    searched for. *)
Definition stripped_query (f : vendor_field) (signal : option pystr)
  : option (vendor_field * pystr) :=
  match signal with
  | Some s => if truthy s && truthy (strip s) then Some (f, strip s) else None
  | None => None
  end.

Definition phone_query (signal : option pystr) : option (vendor_field * pystr) :=
  match signal with
  | Some s =>
      if truthy s && (7 <=? length (digits_only s))
      then Some (FPhoneNumber, digits_only s) else None
  | None => None
  end.

Definition name_query (signal : option pystr) : option (vendor_field * pystr) :=
  match signal with
  | Some s =>
      if truthy s && (3 <=? length (_normalize_name s))
      then Some (FName, _normalize_name s) else None
  | None => None
  end.

(** The resolution order in the words of the specification: website, email,
    phone, address, name. *)
Definition rungs (sg : signals) : list (pystr * option (vendor_field * pystr)) :=
  [ (u "website", stripped_query FWebsite (sig_website sg));
    (u "email", stripped_query FContactEmail (sig_vendor_email_id sg));
    (u "phone", phone_query (sig_vendor_phone_number sg));
    (u "address", stripped_query FAddress (sig_vendor_physical_address sg));
    (u "name", name_query (sig_vendor_name sg)) ].

(** Each rung is tried only if no earlier one matched; the queries sent to
    the registry are returned along with the outcome. *)
Fixpoint ladder (rs : list (pystr * option (vendor_field * pystr)))
    (vendors : list vendor_doc) : list event * option (pystr * pystr) :=
  match rs with
  | [] => ([], None)
  | (label, None) :: rest => ladder rest vendors
  | (label, Some (f, literal)) :: rest =>
      match lookup_vendor f literal vendors with
      | Some vid => ([EvFindVendor f literal], Some (vid, label))
      | None =>
          let '(evs, r) := ladder rest vendors in
          (EvFindVendor f literal :: evs, r)
      end
  end.

Lemma get_vendor_by_run f literal w :
  truthy literal = true ->
  get_vendor_by f literal w =
    (inr (lookup_vendor f literal (w_vendors w)), add_log w [EvFindVendor f literal]).
Proof. intros Ht. unfold get_vendor_by. by rewrite Ht. Qed.

Lemma lookup_vendor_truthy f literal vendors vid :
  lookup_vendor f literal vendors = Some vid -> truthy vid = true.
Proof.
  unfold lookup_vendor. destruct (List.find _ _); [|done].
  intros [= <-]. apply oid_str_truthy.
Qed.

Lemma str_or_none_lookup f literal vendors :
  str_or_none (lookup_vendor f literal vendors) = lookup_vendor f literal vendors.
Proof.
  destruct (lookup_vendor f literal vendors) eqn:E; [|done].
  simpl. by rewrite (lookup_vendor_truthy _ _ _ _ E).
Qed.

(** What a finder does on a non-empty signal, in terms of its query. *)
Definition finder_spec (finder : pystr -> M (option pystr))
    (query : option pystr -> option (vendor_field * pystr)) : Prop :=
  forall s w,
    truthy s = true ->
    finder s w =
      match query (Some s) with
      | Some (f, literal) =>
          (inr (lookup_vendor f literal (w_vendors w)),
           add_log w [EvFindVendor f literal])
      | None => (inr None, w)
      end.

Lemma stripped_finder_spec f (finder : pystr -> M (option pystr)) :
  (forall s, finder s =
     if negb (truthy s) then ret None
     else bind (get_vendor_by f (strip s)) (fun x => ret (str_or_none x))) ->
  finder_spec finder (stripped_query f).
Proof.
  intros Hdef s w Hs. rewrite Hdef. unfold stripped_query. rewrite Hs. simpl.
  unfold bind. destruct (truthy (strip s)) eqn:Hst.
  - rewrite get_vendor_by_run by done. unfold ret.
    by rewrite str_or_none_lookup.
  - unfold get_vendor_by. by rewrite Hst.
Qed.

Lemma phone_finder_spec : finder_spec find_vendor_by_phone phone_query.
Proof.
  intros s w Hs. unfold find_vendor_by_phone, phone_query. rewrite Hs.
  cbn [andb]. rewrite Nat.ltb_antisym.
  destruct (7 <=? length (digits_only s)) eqn:Hge; cbn [negb]; [|done].
  apply Nat.leb_le in Hge.
  unfold bind, get_vendor_by_phone. rewrite get_vendor_by_run.
  - unfold ret. by rewrite str_or_none_lookup.
  - destruct (digits_only s); [simpl in *; lia | done].
Qed.

Lemma name_finder_spec : finder_spec find_by_normalized_name name_query.
Proof.
  intros s w Hs. unfold find_by_normalized_name, name_query. rewrite Hs.
  cbn [andb].
  destruct (3 <=? length (_normalize_name s)) eqn:Hge; [|done].
  apply Nat.leb_le in Hge.
  assert (Ht : truthy (_normalize_name s) = true)
    by (destruct (_normalize_name s); [simpl in *; lia | done]).
  unfold find_vendor_by_name. rewrite Ht. simpl.
  unfold bind, get_vendor_by_name. rewrite get_vendor_by_run by done.
  unfold ret. by rewrite str_or_none_lookup.
Qed.

Lemma query_of_empty_signal query :
  (query = stripped_query FWebsite \/ query = stripped_query FContactEmail
   \/ query = stripped_query FAddress \/ query = phone_query
   \/ query = name_query) ->
  query None = None /\ forall s, truthy s = false -> query (Some s) = None.
Proof. intros [->|[->|[->|[->| ->]]]]; (split; [done|]); by intros [|? ?]. Qed.

(** One rung of the code against one rung of the ladder. *)
Lemma try_signal_rung signal finder query label otherwise rest w :
  finder_spec finder query ->
  query None = None /\ (forall s, truthy s = false -> query (Some s) = None) ->
  (forall w', w_vendors w' = w_vendors w ->
     otherwise w' =
       (inr (ladder rest (w_vendors w)).2, add_log w' (ladder rest (w_vendors w)).1)) ->
  try_signal signal finder label otherwise w =
    (inr (ladder ((label, query signal) :: rest) (w_vendors w)).2,
     add_log w (ladder ((label, query signal) :: rest) (w_vendors w)).1).
Proof.
  intros Hf [Hnone Hnil] Hrest. unfold try_signal.
  destruct signal as [s|]; [|rewrite Hnone; simpl; by apply Hrest].
  destruct (truthy s) eqn:Hs; [|rewrite Hnil by done; simpl; by apply Hrest].
  unfold bind. rewrite Hf by done.
  destruct (query (Some s)) as [[f literal]|]; simpl; [|by apply Hrest].
  destruct (lookup_vendor f literal (w_vendors w)) as [vid|] eqn:E.
  - by rewrite (lookup_vendor_truthy _ _ _ _ E).
  - rewrite Hrest by done.
    destruct (ladder rest (w_vendors w)) as [evs r]. simpl.
    by rewrite add_log_app.
Qed.

(** The code climbs the ladder. *)
Lemma search_vendor_by_signals_ladder sg w :
  search_vendor_by_signals sg w =
    (inr (ladder (rungs sg) (w_vendors w)).2,
     add_log w (ladder (rungs sg) (w_vendors w)).1).
Proof.
  unfold search_vendor_by_signals, rungs.
  apply try_signal_rung;
    [by apply stripped_finder_spec | apply query_of_empty_signal; tauto |].
  intros w1 H1. rewrite <- H1. apply try_signal_rung;
    [by apply stripped_finder_spec | apply query_of_empty_signal; tauto |].
  intros w2 H2. rewrite <- H2. apply try_signal_rung;
    [apply phone_finder_spec | apply query_of_empty_signal; tauto |].
  intros w3 H3. rewrite <- H3. apply try_signal_rung;
    [by apply stripped_finder_spec | apply query_of_empty_signal; tauto |].
  intros w4 H4. rewrite <- H4. apply try_signal_rung;
    [apply name_finder_spec | apply query_of_empty_signal; tauto |].
  intros w5 H5. simpl. unfold ret. by rewrite add_log_nil.
Qed.

Lemma ladder_truthy rs vendors vid label :
  (ladder rs vendors).2 = Some (vid, label) -> truthy vid = true.
Proof.
  induction rs as [|[l [[f literal]|]] rs IH]; simpl; [done| |done].
  destruct (lookup_vendor f literal vendors) eqn:E.
  - intros [= <- _]. by eapply lookup_vendor_truthy.
  - by destruct (ladder rs vendors).
Qed.

(** C3: [search_vendor_by_signals] consults the registry in the order
    website, email, phone (digits only, at least 7 of them), address,
    normalized name (lower-case letters and digits only, at least 3
    characters), each lookup made only when none before it matched.  Hence a
    website match is returned with [matched_by = "website"] whatever the
    other signals, the name included, would match. *)
Theorem search_vendor_by_signals_priority :
  (forall sg w,
     search_vendor_by_signals sg w =
       (inr (ladder (rungs sg) (w_vendors w)).2,
        add_log w (ladder (rungs sg) (w_vendors w)).1))
  /\ (forall sg w site vid,
        sig_website sg = Some site ->
        truthy (strip site) = true ->
        lookup_vendor FWebsite (strip site) (w_vendors w) = Some vid ->
        search_vendor_by_signals sg w =
          (inr (Some (vid, u "website")),
           add_log w [EvFindVendor FWebsite (strip site)])).
Proof.
  split; [apply search_vendor_by_signals_ladder|].
  intros sg w site vid Hsite Hstrip Hvid.
  rewrite search_vendor_by_signals_ladder. unfold rungs.
  assert (Hq : stripped_query FWebsite (sig_website sg)
               = Some (FWebsite, strip site)).
  { rewrite Hsite. unfold stripped_query. rewrite Hstrip.
    destruct site; [by vm_compute in Hstrip | done]. }
  rewrite Hq. cbn [ladder]. by rewrite Hvid.
Qed.

(** The template the registry holds for a vendor id; empty when the id is
    malformed, when there is no template document, or when the document has
    no patterns. *)
Definition registry_template (vid : pystr) (templates : list template_doc) : list pyval :=
  match ObjectId vid with
  | Some o =>
      match List.find (fun t => bool_decide (t_vendor_id t = o)) templates with
      | Some t => default [] (t_regex_patterns t)
      | None => []
      end
  | None => []
  end.

(** Events that only read the registry. *)
Definition is_read (e : event) : bool :=
  match e with
  | EvFindVendor _ _ | EvFindVendorById _ | EvFindTemplate _ => true
  | _ => false
  end.

Lemma find_vendor_name_by_id_reads vid w :
  exists v evs,
    find_vendor_name_by_id (Some vid) w = (inr v, add_log w evs)
    /\ forallb is_read evs = true.
Proof.
  unfold find_vendor_name_by_id, get_vendor_name_by_id.
  destruct (truthy vid); simpl.
  - destruct (ObjectId vid) as [o|]; unfold bind, ret, emit; simpl.
    + eexists _, [EvFindVendorById o]. done.
    + exists VNone, []. by rewrite add_log_nil.
  - exists VNone, []. by rewrite add_log_nil.
Qed.

Lemma get_regex_for_vendor_reads vid w :
  truthy vid = true ->
  exists evs,
    get_regex_for_vendor (Some vid) w =
      (inr (Some (registry_template vid (w_templates w))), add_log w evs)
    /\ forallb is_read evs = true.
Proof.
  intros Ht. unfold get_regex_for_vendor, get_vendor_regex_patterns, registry_template.
  rewrite Ht. simpl. unfold bind, ret, emit.
  destruct (ObjectId vid) as [o|]; simpl.
  - by exists [EvFindTemplate o].
  - exists []. by rewrite add_log_nil.
Qed.

Lemma ladder_reads rs vendors : forallb is_read (ladder rs vendors).1 = true.
Proof.
  induction rs as [|[l [[f literal]|]] rs IH]; simpl; [done| |done].
  destruct (lookup_vendor f literal vendors); [done|].
  by destruct (ladder rs vendors).
Qed.

(** C5: when the signals match a registered vendor for which the registry
    holds no template, [identify_vendor_and_get_regex] raises; on the way it
    has only read the registry: no prompt went to the language model, and
    no vendor or template was written. *)
Theorem known_vendor_without_template_is_fatal text file_path w vid label w1 :
  search_vendor_by_signals (extract_vendor_signals text) w
    = (inr (Some (vid, label)), w1) ->
  registry_template vid (w_templates w) = [] ->
  exists evs,
    identify_vendor_and_get_regex text file_path w
      = (inl (ValueError msg_no_regex), add_log w evs)
    /\ forallb is_read evs = true.
Proof.
  intros Hsearch Htpl.
  rewrite search_vendor_by_signals_ladder in Hsearch.
  unfold identify_vendor_and_get_regex, bind at 1.
  rewrite search_vendor_by_signals_ladder.
  set (L := ladder (rungs (extract_vendor_signals text)) (w_vendors w)) in *.
  assert (Hres : L.2 = Some (vid, label)) by congruence.
  pose proof (ladder_truthy _ _ _ _ Hres) as Ht.
  rewrite Hres. cbn [option_map fst snd]. rewrite Ht.
  set (w2 := add_log w _).
  destruct (find_vendor_name_by_id_reads vid w2) as (v & e1 & He1 & Hr1).
  destruct (get_regex_for_vendor_reads vid (add_log w2 e1) Ht) as (e2 & He2 & Hr2).
  unfold bind. rewrite He1, He2.
  change (w_templates (add_log w2 e1)) with (w_templates w). rewrite Htpl.
  eexists. split.
  - unfold raise, w2. by rewrite !add_log_app.
  - rewrite !forallb_app, Hr1, Hr2. unfold L. by rewrite ladder_reads.
Qed.

(** A vendor created by the derivation path comes back without a name:
    the name is looked up under the id of the search, which is absent on
    this path. *)
Lemma created_vendor_name_is_none text file_path w ctx w' :
  identify_vendor_and_get_regex text file_path w = (inr ctx, w') ->
  vc_created ctx = Some true ->
  vc_vendor_name ctx = VNone.
Proof.
  unfold identify_vendor_and_get_regex, bind at 1.
  destruct (search_vendor_by_signals _ w) as [[e|sr] w1]; [done|].
  destruct (match option_map fst sr with Some v => truthy v | None => false end)
    eqn:Hv.
  - unfold bind.
    destruct (find_vendor_name_by_id _ w1) as [[?|?] ?]; [done|].
    destruct (get_regex_for_vendor _ _) as [[?|[[|? ?]|]] ?]; try done.
    by intros [= <- _].
  - assert (Hname : forall w0, find_vendor_name_by_id (option_map fst sr) w0
                               = (inr VNone, w0)).
    { intros w0. unfold find_vendor_name_by_id.
      destruct (option_map fst sr); [|done]. by rewrite Hv. }
    unfold bind at 1.
    destruct (llm_phase1_extract text w1) as [[?|phase1] w2]; [done|].
    destruct (py_truthy phase1); [|done].
    destruct phase1 as [| | | | |d]; try done.
    destruct (dict_get _ d) as [vendor|]; [|done].
    unfold bind at 1.
    destruct (llm_phase2_generate_regex _ _ w2) as [[?|new_regexes] w3]; [done|].
    unfold bind at 1.
    destruct (save_vendor_details vendor w3) as [[?|new_vendor_id] w4]; [done|].
    unfold bind at 1. rewrite Hname.
    destruct (py_truthy new_regexes); [|done].
    unfold bind.
    destruct (save_regex_for_vendor _ _ w4) as [[?|?] w5]; [done|].
    by intros [= <- _].
Qed.

End Facts.

Section Examples.
Local Existing Instance Scripted.scripted.

Definition acme : vendor_doc :=
  VendorDoc (u "b") (Some (VStr (u "Acme"))) None None None None.
Definition globex : vendor_doc :=
  VendorDoc (u "a") (Some (VStr (u "Globex"))) None None None
            (Some (VStr (u "www.globex.com"))).

(** A registry with two vendors and no template. *)
Definition two_vendors (script : list (exn + pyval)) : world :=
  World [acme; globex] [] 0 script tt [].

Lemma search_vendor_by_signals_priority_witness :
  let sg := Signals None None (Some (u "WWW.Globex.com ")) (Some (u "ACME")) None in
  lookup_vendor FName (_normalize_name (u "ACME")) [acme; globex] = Some (u "xb")
  /\ search_vendor_by_signals sg (two_vendors [])
      = (inr (Some (u "xa", u "website")),
         add_log (two_vendors []) [EvFindVendor FWebsite (u "WWW.Globex.com")]).
Proof.
  split; [reflexivity|].
  apply (proj2 search_vendor_by_signals_priority _ _ (u "WWW.Globex.com ") (u "xa"));
    reflexivity.
Defined.

Lemma known_vendor_without_template_is_fatal_witness :
  exists evs,
    identify_vendor_and_get_regex (u "ACME") (u "acme.pdf") (two_vendors [])
      = (inl (ValueError msg_no_regex), add_log (two_vendors []) evs)
    /\ forallb is_read evs = true.
Proof.
  eapply (known_vendor_without_template_is_fatal _ _ _ (u "xb") (u "name"));
    reflexivity.
Defined.

(** C8: with an empty registry and two well-formed answers of the language
    model, [identify_vendor_and_get_regex] creates the vendor and saves the
    flattened template under the new id, and returns that id, the template
    and [created = True]; but the name it returns is [None], although the
    registry holds the name of the new vendor under the returned id. *)
Theorem new_vendor_comes_back_unnamed :
  let w0 := World [] [] 0 [inr Scripted.phase1_answer; inr Scripted.phase2_answer] tt [] in
  exists ctx w1,
    identify_vendor_and_get_regex (u "Acme Foods") (u "acme.pdf") w0 = (inr ctx, w1)
    /\ vc_created ctx = Some true
    /\ vc_vendor_id ctx = RefStr (u "x0")
    /\ vc_regex ctx = Scripted.phase2_answer
    /\ (exists d, w_vendors w1 = [d] /\ v_id d = u "0"
                  /\ v_name d = Some (VStr (u "Acme Foods")))
    /\ registry_template (u "x0") (w_templates w1)
        = match Scripted.phase2_answer with
          | VDict regexes => default [] (flatten_patterns regexes)
          | _ => []
          end
    /\ length (registry_template (u "x0") (w_templates w1)) = 11
    /\ (find_vendor_name_by_id (Some (u "x0")) w1).1 = inr (VStr (u "Acme Foods"))
    /\ vc_vendor_name ctx = VNone.
Proof.
  intros w0. eexists _, _. split; [vm_compute; reflexivity|].
  repeat split. eexists. repeat split.
Qed.

End Examples.
End ResolverFacts.

(** ** Normalization *)

Module NormalizerFacts.
Import Normalizer.

Section Facts.
Context `{Collaborators}.

(** The world after [ObjectId()] has drawn one identifier. *)
Definition after_new_oid (w : world) : world :=
  World (w_vendors w) (w_templates w) (S (w_oid_counter w)) (w_llm w) (w_cat w)
        (w_log w).

(** C10: for a non-blank text, an exception raised by
    [identify_vendor_and_get_regex] is not propagated by
    [get_structured_data_from_text]: the function goes on exactly as it
    would with the fallback context, whose vendor name is "Unknown Vendor",
    whose vendor id is freshly generated, whose template is the built-in
    generic one with its 4 + 7 = 11 patterns, and which records the text of
    the exception.  In particular, when the extraction then finds no line
    item, the call returns normally. *)
Theorem resolution_failure_falls_back
    text filename text_length page_count timestamp restaurant_id file_path
    w exc w1 :
  truthy (strip text) = true ->
  identify_vendor_and_get_regex text file_path w = (inl exc, w1) ->
  let fresh := new_oid (w_oid_counter w1) in
  let ctx := fallback_context fresh (exn_str exc) in
  get_structured_data_from_text text filename text_length page_count timestamp
      restaurant_id file_path w
    = extract_and_build text filename text_length page_count timestamp
        restaurant_id ctx (after_new_oid w1)
  /\ vc_vendor_name ctx = VStr (u "Unknown Vendor")
  /\ vc_vendor_id ctx = RefOid fresh
  /\ vc_identification_error ctx = Some (exn_str exc)
  /\ vc_regex ctx = generic_regex
  /\ (exists invoice_level line_item_level,
        generic_regex = VDict [ (u "invoice_level", VDict invoice_level);
                                (u "line_item_level", VDict line_item_level) ]
        /\ length invoice_level + length line_item_level = 11)
  /\ (forall header,
        apply_regex_extraction text generic_regex = inr (header, []) ->
        get_structured_data_from_text text filename text_length page_count
            timestamp restaurant_id file_path w
          = (inr (_build_invoice_record header ctx filename restaurant_id
                    text_length page_count timestamp, []),
             after_new_oid w1)).
Proof.
  intros Htext Hid fresh ctx.
  assert (Hrun : get_structured_data_from_text text filename text_length
                   page_count timestamp restaurant_id file_path w
                 = extract_and_build text filename text_length page_count
                     timestamp restaurant_id ctx (after_new_oid w1)).
  { unfold get_structured_data_from_text. rewrite Htext. simpl.
    unfold bind at 1, try_except. by rewrite Hid. }
  repeat split; try done.
  - by eexists _, _.
  - intros header Hex. rewrite Hrun. unfold extract_and_build.
    change (vc_regex ctx) with generic_regex. by rewrite Hex.
Qed.

(** The loop of the builder numbers a kept item by its position in the raw
    list, and keeps exactly the items with a description. *)
Lemma build_rows_numbers vendor_name items : forall acc w rows w',
  build_rows vendor_name items acc w = (inr rows, w') ->
  map li_line_number rows =
    map li_line_number acc ++
    map (fun ix => ix.1 + 1)
        (filter (fun ix => is_Some (kept_description ix.2)) items)
  /\ map li_description rows =
       map li_description acc ++ omap (fun ix => kept_description ix.2) items.
Proof.
  induction items as [|[idx item] items IH]; intros acc w rows w' Hrun.
  - injection Hrun as <- _. simpl. by rewrite !app_nil_r.
  - assert (Hskip : kept_description item = None ->
              build_rows vendor_name items acc w = (inr rows, w') ->
              map li_line_number rows =
                map li_line_number acc ++
                map (fun ix => ix.1 + 1)
                    (filter (fun ix => is_Some (kept_description ix.2))
                            ((idx, item) :: items))
              /\ map li_description rows =
                   map li_description acc
                   ++ omap (fun ix => kept_description ix.2) ((idx, item) :: items)).
    { intros Hk Hrest.
      rewrite filter_cons_False by (cbn [snd]; rewrite Hk; by inversion 1).
      cbn [omap list_omap snd]. rewrite Hk. by apply IH in Hrest. }
    simpl in Hrun.
    destruct item as [| | | | |d]; try by apply Hskip.
    destruct (get (u "description") d) as [| | |description0| |] eqn:Hd;
      try (apply Hskip; [simpl; by rewrite Hd | done]).
    destruct (truthy (strip description0)) eqn:Ht; simpl in Hrun;
      [|apply Hskip; [simpl; by rewrite Hd, Ht | done]].
    unfold bind at 1 in Hrun.
    destruct (_determine_category (strip description0) w) as [[e|[c|]] w1];
      [done| |done].
    apply IH in Hrun as [Hn Hdesc].
    assert (Hk : kept_description (VDict d) = Some (strip description0))
      by (simpl; by rewrite Hd, Ht).
    rewrite filter_cons_True by (cbn [snd]; by rewrite Hk).
    rewrite Hn, Hdesc, !map_app, <- !app_assoc.
    cbn [map app fst li_line_number li_description].
    split; [done|]. f_equal. cbn [omap list_omap snd]. by rewrite Hk.
Qed.

Lemma enumerate_fst {A} (xs : list A) start :
  map (fun ix => ix.1 + 1) (enumerate start xs) = seq (start + 1) (length xs).
Proof.
  revert start. induction xs as [|x xs IH]; intros start; simpl; [done|].
  by rewrite IH.
Qed.

Lemma enumerate_snd {A} (xs : list A) start : map snd (enumerate start xs) = xs.
Proof.
  revert start. induction xs as [|x xs IH]; intros start; simpl; [done|].
  by rewrite IH.
Qed.

Lemma omap_enumerate (items : list pyval) start :
  omap (fun ix => kept_description ix.2) (enumerate start items)
  = omap kept_description items.
Proof.
  revert start. induction items as [|x xs IH]; intros start; [done|].
  cbn [enumerate omap list_omap snd]. by rewrite IH.
Qed.

Lemma kept_positions_sorted (items : list pyval) start :
  StronglySorted lt
    (map (fun ix => ix.1 + 1)
       (filter (fun ix => is_Some (kept_description ix.2)) (enumerate start items))).
Proof.
  revert start. induction items as [|x xs IH]; intros start; [constructor|].
  cbn [enumerate].
  destruct (decide (is_Some (kept_description x))) as [Hk|Hk].
  - rewrite filter_cons_True by done. cbn [map fst]. constructor; [apply IH|].
    apply Forall_forall. intros y Hy.
    apply list_elem_of_fmap in Hy as ([i v] & -> & Hin).
    apply list_elem_of_filter in Hin as [_ Hin].
    assert (Hi : i + 1 ∈ map (fun ix => ix.1 + 1) (enumerate (S start) xs))
      by (apply list_elem_of_fmap; by exists (i, v)).
    rewrite enumerate_fst in Hi.
    apply list_elem_of_In, in_seq in Hi. cbn [fst]. lia.
  - rewrite filter_cons_False by done. apply IH.
Qed.

Lemma filter_all_kept (items : list pyval) start :
  Forall (fun item => is_Some (kept_description item)) items ->
  filter (fun ix => is_Some (kept_description ix.2)) (enumerate start items)
  = enumerate start items.
Proof.
  intros Hall. revert start.
  induction Hall as [|x xs Hx _ IH]; intros start; [done|].
  cbn [enumerate]. rewrite filter_cons_True by done. by rewrite IH.
Qed.

(** C7, as the code has it: the [line_number] of a kept record is the
    1-based position of its item in the raw extracted list.  The records
    kept are those of the items with a non-blank string description, in raw
    order, so line numbers increase strictly, skipping the positions of the
    dropped items; they are exactly 1, 2, ..., k when no raw item is
    dropped. *)
Theorem line_numbers_are_raw_positions items ctx w rows w' :
  _build_line_items_records items ctx w = (inr rows, w') ->
  map li_line_number rows =
    map (fun ix => ix.1 + 1)
        (filter (fun ix => is_Some (kept_description ix.2)) (enumerate 0 items))
  /\ map li_description rows = omap kept_description items
  /\ StronglySorted lt (map li_line_number rows)
  /\ (Forall (fun item => is_Some (kept_description item)) items ->
      map li_line_number rows = seq 1 (length rows)).
Proof.
  intros Hrun. apply build_rows_numbers in Hrun as [Hn Hd].
  cbn [map app] in Hn, Hd.
  repeat split; [done | | |].
  - by rewrite Hd, omap_enumerate.
  - rewrite Hn. apply kept_positions_sorted.
  - intros Hall.
    assert (Hlen : length rows = length items).
    { rewrite <- (length_map li_line_number), Hn, filter_all_kept, length_map by done.
      rewrite <- (length_map snd). by rewrite enumerate_snd. }
    by rewrite Hn, filter_all_kept, enumerate_fst, Hlen.
Qed.

End Facts.

Section Examples.
Local Existing Instance Scripted.scripted.

(** Two raw items: the first has a blank description, the second is kept. *)
Definition blank_then_widget : list pyval :=
  [ VDict [ (u "description", VStr (u "  ")); (u "line_total", VStr (u "1.00")) ];
    VDict [ (u "description", VStr (u "Widget")); (u "line_total", VStr (u "6.00")) ] ].

Definition some_context : vendor_context :=
  VendorContext (RefStr (u "xb")) (VStr (u "Acme")) (VList []) (Some false)
                (Some (u "name")) None.

Definition empty_world : world := World [] [] 0 [] tt [].

(** C7, as stated, fails: the only kept record of [blank_then_widget]
    carries line number 2, not 1. *)
Lemma kept_item_after_dropped_is_not_numbered_one :
  exists rows w',
    _build_line_items_records blank_then_widget some_context empty_world
      = (inr rows, w')
    /\ length rows = 1
    /\ map li_line_number rows = [2]
    /\ map li_line_number rows <> seq 1 (length rows).
Proof. eexists _, _. split; [vm_compute; reflexivity|]. by vm_compute. Qed.

Lemma line_numbers_are_raw_positions_witness :
  exists rows w',
    _build_line_items_records blank_then_widget some_context empty_world
      = (inr rows, w')
    /\ map li_line_number rows = [2].
Proof.
  eexists _, _. split; [vm_compute; reflexivity|].
  refine (proj1 (line_numbers_are_raw_positions blank_then_widget some_context
                   empty_world _ _ _)).
  vm_compute. reflexivity.
Defined.

Lemma resolution_failure_falls_back_witness :
  exists w1,
    get_structured_data_from_text (u "ACME") (u "acme.pdf") 4 1 (u "2024-01-31")
        (u "r1") (u "staging/acme.pdf") (ResolverFacts.two_vendors [])
    = extract_and_build (u "ACME") (u "acme.pdf") 4 1 (u "2024-01-31") (u "r1")
        (fallback_context (new_oid (w_oid_counter w1))
                          (exn_str (ValueError msg_no_regex)))
        (after_new_oid w1).
Proof.
  eexists.
  refine (proj1 (resolution_failure_falls_back (u "ACME") (u "acme.pdf") 4 1
                   (u "2024-01-31") (u "r1") (u "staging/acme.pdf")
                   (ResolverFacts.two_vendors []) (ValueError msg_no_regex) _
                   eq_refl _)).
  vm_compute. reflexivity.
Defined.

End Examples.
End NormalizerFacts.

(** ** Template validation *)

Module ValidationFacts.

Definition is_error {E A} (r : E + A) : bool :=
  match r with inl _ => true | inr _ => false end.

Definition not_a_string (v : pyval) : bool :=
  match v with VStr _ => false | _ => true end.

Definition blank_string (v : pyval) : bool :=
  match v with VStr s => blank s | _ => false end.

(** A non-empty pattern without a capture group. *)
Definition groupless (v : pyval) : bool :=
  match v with
  | VStr s => negb (blank s) && (_count_capture_groups v =? 0)
  | _ => false
  end.

(** What makes a level of a template invalid, as the code has it: the level
    is missing or not an object, a required key is missing, a required value
    is not a string, a mandatory pattern is blank, or a non-empty pattern
    other than a marker has no capture group. *)
Definition level_violation (level : option pyval)
    (required mandatory markers : list pystr) : bool :=
  match level with
  | Some (VDict d) =>
      existsb (fun k => negb (has_key k d)) required
      || existsb (fun k => not_a_string (get k d)) required
      || existsb (fun k => blank_string (get k d)) mandatory
      || existsb (fun k => negb (mem markers k) && groupless (get k d)) required
  | _ => true
  end.

Definition violates (parsed : pyval) : bool :=
  match parsed with
  | VDict d =>
      level_violation (dict_get (u "invoice_level") d)
        required_invoice_keys strict_invoice_fields []
      || level_violation (dict_get (u "line_item_level") d)
           required_line_item_keys strict_line_fields marker_fields
  | _ => true
  end.

(** The same in the words of the claim: the mandatory line-item fields are
    all except the two block markers, and nothing is said of values that
    are not strings. *)
Definition claimed_mandatory_line_fields : list pystr :=
  [u "description"; u "quantity"; u "unit"; u "unit_price"; u "line_total"].

Definition claimed_level_violation (level : option pyval)
    (required mandatory markers : list pystr) : bool :=
  match level with
  | Some (VDict d) =>
      existsb (fun k => negb (has_key k d)) required
      || existsb (fun k => blank_string (get k d)) mandatory
      || existsb (fun k => negb (mem markers k) && groupless (get k d)) required
  | _ => true
  end.

Definition claimed_violates (parsed : pyval) : bool :=
  match parsed with
  | VDict d =>
      claimed_level_violation (dict_get (u "invoice_level") d)
        required_invoice_keys strict_invoice_fields []
      || claimed_level_violation (dict_get (u "line_item_level") d)
           required_line_item_keys claimed_mandatory_line_fields marker_fields
  | _ => true
  end.

Definition nonempty {A} (l : list A) : bool :=
  match l with [] => false | _ => true end.

Lemma nonempty_filter {A} (f : A -> bool) (l : list A) :
  nonempty (filter (fun x => f x = true) l) = existsb f l.
Proof.
  induction l as [|x l IH]; [done|]. simpl.
  destruct (f x) eqn:E.
  - by rewrite filter_cons_True.
  - rewrite filter_cons_False by congruence. done.
Qed.

Lemma nonempty_missing_keys required d :
  nonempty (missing_keys required d)
  = existsb (fun k => negb (has_key k d)) required.
Proof.
  unfold missing_keys. rewrite <- nonempty_filter. f_equal.
  apply list_filter_iff. intros k. by destruct (has_key k d).
Qed.

Section Level.
Variable level : pystr.
Variables strict marker : pystr -> bool.
Variable d : list (pystr * pyval).

Definition key_empty (k : pystr) : bool :=
  not_a_string (get k d) || strict k && blank_string (get k d).

Definition key_bad (k : pystr) : bool :=
  negb (marker k) && groupless (get k d).

Lemma check_key_spec r k :
  let r' := check_key level strict marker d r k in
  empty_keys r' = empty_keys r ++ (if key_empty k then [k] else [])
  /\ bad_group_keys r' = bad_group_keys r ++ (if key_bad k then [k] else [])
  /\ (forall w, w ∈ warnings r -> w ∈ warnings r')
  /\ (forall s, get k d = VStr s -> blank s = false -> marker k = false ->
        1 < _count_capture_groups (VStr s) ->
        WarnManyGroups level k (_count_capture_groups (VStr s)) ∈ warnings r').
Proof.
  unfold check_key, key_empty, key_bad, groupless, _count_capture_groups.
  destruct (get k d) as [| | |v| |]; cbn [not_a_string blank_string orb];
    try (rewrite ?andb_false_r, ?app_nil_r; repeat split; [done|congruence]).
  assert (Hone : forall r0 : report,
    empty_keys
      (if negb (blank v) && negb (marker k) then
         if count_open_groups false v <? 1 then
           Report (empty_keys r0) (bad_group_keys r0 ++ [k]) (warnings r0)
         else if 1 <? count_open_groups false v then
           Report (empty_keys r0) (bad_group_keys r0)
             (warnings r0 ++ [WarnManyGroups level k (count_open_groups false v)])
         else r0
       else r0) = empty_keys r0
    /\ bad_group_keys
      (if negb (blank v) && negb (marker k) then
         if count_open_groups false v <? 1 then
           Report (empty_keys r0) (bad_group_keys r0 ++ [k]) (warnings r0)
         else if 1 <? count_open_groups false v then
           Report (empty_keys r0) (bad_group_keys r0)
             (warnings r0 ++ [WarnManyGroups level k (count_open_groups false v)])
         else r0
       else r0)
      = bad_group_keys r0 ++
        (if negb (marker k) && (negb (blank v) && (count_open_groups false v =? 0))
         then [k] else [])
    /\ (forall w, w ∈ warnings r0 ->
        w ∈ warnings
          (if negb (blank v) && negb (marker k) then
             if count_open_groups false v <? 1 then
               Report (empty_keys r0) (bad_group_keys r0 ++ [k]) (warnings r0)
             else if 1 <? count_open_groups false v then
               Report (empty_keys r0) (bad_group_keys r0)
                 (warnings r0 ++ [WarnManyGroups level k (count_open_groups false v)])
             else r0
           else r0))
    /\ (blank v = false -> marker k = false -> 1 < count_open_groups false v ->
        WarnManyGroups level k (count_open_groups false v)
        ∈ warnings
          (if negb (blank v) && negb (marker k) then
             if count_open_groups false v <? 1 then
               Report (empty_keys r0) (bad_group_keys r0 ++ [k]) (warnings r0)
             else if 1 <? count_open_groups false v then
               Report (empty_keys r0) (bad_group_keys r0)
                 (warnings r0 ++ [WarnManyGroups level k (count_open_groups false v)])
             else r0
           else r0))).
  { intros r0.
    destruct (blank v), (marker k); cbn [negb andb];
      rewrite ?app_nil_r; try (repeat split; [done|done]).
    destruct (Nat.ltb_spec (count_open_groups false v) 1) as [Hlt|Hge].
    - destruct (Nat.eqb_spec (count_open_groups false v) 0); [|lia].
      repeat split; [done|]. lia.
    - destruct (Nat.eqb_spec (count_open_groups false v) 0); [lia|].
      rewrite app_nil_r.
      destruct (Nat.ltb_spec 1 (count_open_groups false v)); cbn.
      + repeat split; set_solver.
      + repeat split; [done|]. lia. }
  destruct (strict k && blank v) eqn:Hsb.
  - destruct (Hone (Report (empty_keys r ++ [k]) (bad_group_keys r)
                           (warnings r ++ [WarnEmptyField k])))
      as (He & Hb & Hw & Hm).
    rewrite He, Hb. cbn. repeat split; [|].
    + intros w Hin. apply Hw. cbn. apply elem_of_app. by left.
    + intros s [= <-]. apply Hm.
  - destruct (Hone r) as (He & Hb & Hw & Hm).
    rewrite He, Hb, app_nil_r. repeat split; [done|].
    intros s [= <-]. apply Hm.
Qed.

Lemma check_level_fold keys : forall r,
  let r' := fold_left (check_key level strict marker d) keys r in
  empty_keys r' = empty_keys r ++ filter (fun k => key_empty k = true) keys
  /\ bad_group_keys r' = bad_group_keys r ++ filter (fun k => key_bad k = true) keys
  /\ (forall w, w ∈ warnings r -> w ∈ warnings r')
  /\ (forall k s, k ∈ keys -> get k d = VStr s -> blank s = false ->
        marker k = false -> 1 < _count_capture_groups (VStr s) ->
        WarnManyGroups level k (_count_capture_groups (VStr s)) ∈ warnings r').
Proof.
  induction keys as [|k keys IH]; intros r; simpl.
  - rewrite !app_nil_r. repeat split; [done|]. intros ? ? Hin. by apply elem_of_nil in Hin.
  - destruct (check_key_spec r k) as (He & Hb & Hw & Hm).
    destruct (IH (check_key level strict marker d r k)) as (He' & Hb' & Hw' & Hm').
    rewrite He', Hb', He, Hb, <- !app_assoc. repeat split.
    + f_equal. destruct (key_empty k) eqn:E.
      * by rewrite filter_cons_True.
      * rewrite filter_cons_False by congruence. done.
    + f_equal. destruct (key_bad k) eqn:E.
      * by rewrite filter_cons_True.
      * rewrite filter_cons_False by congruence. done.
    + auto.
    + intros k' s Hin. apply elem_of_cons in Hin as [->|Hin]; [|by apply Hm'].
      intros. apply Hw'. by apply Hm.
Qed.

Lemma check_level_spec keys :
  let r := check_level level keys strict marker d in
  nonempty (empty_keys r) = existsb key_empty keys
  /\ nonempty (bad_group_keys r) = existsb key_bad keys
  /\ (forall k s, k ∈ keys -> get k d = VStr s -> blank s = false ->
        marker k = false -> 1 < _count_capture_groups (VStr s) ->
        WarnManyGroups level k (_count_capture_groups (VStr s)) ∈ warnings r).
Proof.
  destruct (check_level_fold keys (Report [] [] [])) as (He & Hb & _ & Hm).
  unfold check_level. rewrite He, Hb. simpl.
  by rewrite !nonempty_filter.
Qed.

End Level.

Lemma has_key_get k d : has_key k d = true -> dict_get k d = Some (get k d).
Proof.
  unfold has_key, get. destruct (dict_get k d); [done|].
  intros Hk. apply bool_decide_eq_true in Hk. by destruct Hk.
Qed.

Lemma has_key_none k d : dict_get k d = None -> has_key k d = false.
Proof.
  intros Hk. unfold has_key. rewrite Hk. apply bool_decide_eq_false.
  by intros [? ?].
Qed.

Lemma has_key_some k d v : dict_get k d = Some v -> has_key k d = true.
Proof.
  intros Hk. unfold has_key. rewrite Hk. by apply bool_decide_eq_true.
Qed.

(** The outcome of one level, as the code computes it. *)
Definition level_outcome (level : pystr) (keys : list pystr)
    (strict marker : pystr -> bool) (v : pyval) : bool :=
  match v with
  | VDict d =>
      nonempty (missing_keys keys d)
      || nonempty (empty_keys (check_level level keys strict marker d))
      || nonempty (bad_group_keys (check_level level keys strict marker d))
  | _ => true
  end.

Lemma existsb_orb {A} (f g : A -> bool) l :
  existsb (fun x => f x || g x) l = existsb f l || existsb g l.
Proof.
  induction l as [|x l IH]; [done|]. simpl. rewrite IH.
  by destruct (f x), (g x), (existsb f l), (existsb g l).
Qed.

Lemma existsb_ext {A} (f g : A -> bool) l :
  (forall x, f x = g x) -> existsb f l = existsb g l.
Proof. intros E. induction l as [|x l IH]; [done|]. simpl. by rewrite E, IH. Qed.

Lemma existsb_restrict (f : pystr -> bool) (M R : list pystr) :
  M ⊆ R -> existsb (fun k => mem M k && f k) R = existsb f M.
Proof.
  intros Hsub. apply eq_true_iff_eq. rewrite !existsb_exists. split.
  - intros (k & _ & Hk). apply andb_prop in Hk as [Hm Hf].
    exists k. split; [|done].
    apply list_elem_of_In. by apply bool_decide_eq_true in Hm.
  - intros (k & Hin & Hf). apply list_elem_of_In in Hin. exists k. split.
    + apply list_elem_of_In. by apply Hsub.
    + apply andb_true_intro. split; [|done]. by apply bool_decide_eq_true.
Qed.

Lemma level_outcome_spec level keys mandatory markers marker d :
  mandatory ⊆ keys ->
  (forall k, marker k = mem markers k) ->
  level_outcome level keys (mem mandatory) marker (VDict d)
  = level_violation (Some (VDict d)) keys mandatory markers.
Proof.
  intros Hsub Hmark. unfold level_outcome, level_violation.
  destruct (check_level_spec level (mem mandatory) marker d keys) as (-> & -> & _).
  rewrite nonempty_missing_keys. unfold key_empty, key_bad.
  rewrite existsb_orb, existsb_restrict by done.
  rewrite (existsb_ext (fun k => negb (marker k) && groupless (get k d))
                       (fun k => negb (mem markers k) && groupless (get k d)))
    by (intros k; by rewrite Hmark).
  by rewrite !orb_assoc.
Qed.

(** An exception that the validation raises on purpose. *)
Definition validation_error (e : exn) : Prop :=
  e = Phase2ParseError \/ exists why, e = Phase2ValidationError why.

Definition invoice_outcome (v : pyval) : bool :=
  level_outcome (u "invoice_level") required_invoice_keys
    (mem strict_invoice_fields) (fun _ => false) v.

Definition line_item_outcome (v : pyval) : bool :=
  level_outcome (u "line_item_level") required_line_item_keys
    (mem strict_line_fields) (mem marker_fields) v.

Lemma validation_error_intro why : validation_error (Phase2ValidationError why).
Proof. right. by exists why. Qed.

(** Closes the goals of a branch in which the validation raises. *)
Ltac fatal :=
  intros ->; cbn [fst snd is_error invoice_outcome line_item_outcome
                  level_outcome nonempty orb];
  split; [|split; [|split]];
  [by rewrite ?orb_true_r | done
  | intros ? [= <-]; apply validation_error_intro | done].

Lemma phase2_validate_dict d vi vl :
  dict_get (u "invoice_level") d = Some vi ->
  dict_get (u "line_item_level") d = Some vl ->
  let r := phase2_validate (VDict d) in
  is_error r.2 = invoice_outcome vi || line_item_outcome vl
  /\ (is_error r.2 = false -> r.2 = inr (VDict d))
  /\ (forall e, r.2 = inl e -> validation_error e)
  /\ (is_error r.2 = false ->
      exists inv li, vi = VDict inv /\ vl = VDict li /\
        r.1 = warnings (check_level (u "invoice_level") required_invoice_keys
                          (mem strict_invoice_fields) (fun _ => false) inv)
              ++ warnings (check_level (u "line_item_level") required_line_item_keys
                             (mem strict_line_fields) (mem marker_fields) li)).
Proof.
  intros Hi Hl r. generalize (eq_refl r). unfold r at 2. clearbody r.
  assert (Hroot : missing_keys [u "invoice_level"; u "line_item_level"] d = []).
  { unfold missing_keys.
    by rewrite !filter_cons_False, filter_nil
      by (erewrite has_key_some by done; congruence). }
  unfold phase2_validate. rewrite Hroot.
  unfold get at 1. rewrite Hi. cbn [default from_option id].
  destruct vi as [| | | | |inv]; try fatal.
  unfold invoice_outcome, level_outcome.
  destruct (missing_keys required_invoice_keys inv) as [|? ?]; [|fatal].
  destruct (empty_keys _) as [|? ?]; [|fatal].
  destruct (bad_group_keys _) as [|? ?]; [|fatal].
  unfold get at 1. rewrite Hl. cbn [default from_option id nonempty orb].
  destruct vl as [| | | | |li]; try fatal.
  unfold line_item_outcome, level_outcome.
  destruct (missing_keys required_line_item_keys li) as [|? ?]; [|fatal].
  destruct (empty_keys _) as [|? ?]; [|fatal].
  destruct (bad_group_keys _) as [|? ?]; [|fatal].
  intros ->. cbn [fst snd is_error nonempty orb].
  split; [|split; [|split]]; [done | done | done |].
  intros _. by eexists _, _.
Qed.

Lemma strict_invoice_sub : strict_invoice_fields ⊆ required_invoice_keys.
Proof. apply (bool_decide_unpack _). by vm_compute. Qed.

Lemma strict_line_sub : strict_line_fields ⊆ required_line_item_keys.
Proof. apply (bool_decide_unpack _). by vm_compute. Qed.

Lemma missing_root_fatal d :
  missing_keys [u "invoice_level"; u "line_item_level"] d <> [] ->
  phase2_validate (VDict d)
  = ([], inl (Phase2ValidationError
                (P2MissingRoot
                   (missing_keys [u "invoice_level"; u "line_item_level"] d)))).
Proof.
  unfold phase2_validate.
  destruct (missing_keys [u "invoice_level"; u "line_item_level"] d);
    [intros Hne; by destruct Hne | reflexivity].
Qed.

(** C4, as the code has it: the validation of a phase-2 template raises if
    and only if the answer is not an object, [invoice_level] or
    [line_item_level] is missing or not an object, a required key is
    missing, a required value is not a string, one of the three mandatory
    invoice-level patterns or of the six mandatory line-item patterns (all
    except [unit]: the two block markers included) is blank, or a non-empty
    pattern other than the two markers has no capture group.  What it raises
    is a validation (or parse) error; a template without violation is
    returned unchanged; a pattern with more than one capture group is never
    a violation and is reported by a warning. *)
Theorem phase2_validation_rules parsed :
  let r := phase2_validate parsed in
  is_error r.2 = violates parsed
  /\ (violates parsed = false -> r.2 = inr parsed)
  /\ (forall e, r.2 = inl e -> validation_error e)
  /\ (violates parsed = false ->
      forall d level lv k s,
        parsed = VDict d ->
        (level = u "invoice_level" /\ k ∈ required_invoice_keys
         \/ level = u "line_item_level" /\ k ∈ required_line_item_keys
            /\ k ∉ marker_fields) ->
        dict_get level d = Some (VDict lv) ->
        get k lv = VStr s ->
        blank s = false ->
        1 < _count_capture_groups (VStr s) ->
        WarnManyGroups level k (_count_capture_groups (VStr s)) ∈ r.1).
Proof.
  intros r.
  destruct parsed as [| | | | |d];
    try (split; [|split; [|split]];
         [done | done | intros ? [= <-]; by left | done]).
  unfold violates.
  destruct (dict_get (u "invoice_level") d) as [vi|] eqn:Hi.
  2:{ unfold r. rewrite missing_root_fatal.
      2:{ unfold missing_keys.
          by rewrite filter_cons_True by by apply has_key_none. }
      split; [|split; [|split]];
        [done | done | intros ? [= <-]; apply validation_error_intro | done]. }
  destruct (dict_get (u "line_item_level") d) as [vl|] eqn:Hl.
  2:{ unfold r. rewrite missing_root_fatal.
      2:{ unfold missing_keys.
          rewrite filter_cons_False
            by (erewrite has_key_some by done; congruence).
          by rewrite filter_cons_True by by apply has_key_none. }
      cbn [level_violation]. rewrite orb_true_r.
      split; [|split; [|split]];
        [done | done | intros ? [= <-]; apply validation_error_intro | done]. }
  destruct (phase2_validate_dict d vi vl Hi Hl) as (Herr & Hok & Hve & Hws).
  fold r in Herr, Hok, Hve, Hws.
  assert (Hout : invoice_outcome vi || line_item_outcome vl
                 = level_violation (Some vi) required_invoice_keys
                     strict_invoice_fields []
                   || level_violation (Some vl) required_line_item_keys
                        strict_line_fields marker_fields).
  { f_equal.
    - destruct vi; try done. apply level_outcome_spec;
        [apply strict_invoice_sub | done].
    - destruct vl; try done. apply level_outcome_spec;
        [apply strict_line_sub | done]. }
  rewrite <- Hout, <- Herr.
  split; [|split; [|split]]; [done | done | done |].
  intros Hacc d' level lv k s [= <-] Hk Hlv Hget Hblank Hmany.
  destruct (Hws Hacc) as (inv & li & -> & -> & ->).
  apply elem_of_app.
  destruct Hk as [[-> Hk]|(-> & Hk & Hnm)].
  - left. rewrite Hi in Hlv. injection Hlv as <-.
    by eapply check_level_spec.
  - right. rewrite Hl in Hlv. injection Hlv as <-.
    eapply check_level_spec; [done | done | done | | done].
    by apply bool_decide_eq_false.
Qed.


(** A template whose [line_item_block_start] is blank, one whose [unit] is
    blank, and one whose [unit] pattern has two capture groups. *)
Definition blank_start_template : pyval :=
  Scripted.template_of Scripted.good_invoice_level
    (Scripted.line_item_level_with [] (u "\s(EA|LB)\s")).

Definition blank_unit_template : pyval :=
  Scripted.template_of Scripted.good_invoice_level
    (Scripted.line_item_level_with (u "Description") []).

Definition two_group_template : pyval :=
  Scripted.template_of Scripted.good_invoice_level
    (Scripted.line_item_level_with (u "Description") (u "\s(EA)|(LB)\s")).

(** C4, as stated, fails both ways: a blank block marker, which the
    claim does not count among the mandatory fields, is rejected; a blank
    [unit], which the claim counts among them, is accepted. *)
Lemma blank_marker_rejected_blank_unit_accepted :
  (is_error (phase2_validate blank_start_template).2 = true
   /\ claimed_violates blank_start_template = false)
  /\ (is_error (phase2_validate blank_unit_template).2 = false
      /\ claimed_violates blank_unit_template = true).
Proof. by vm_compute. Qed.

Lemma phase2_validation_rules_witness :
  (phase2_validate two_group_template).2 = inr two_group_template
  /\ WarnManyGroups (u "line_item_level") (u "unit") 2
     ∈ (phase2_validate two_group_template).1.
Proof.
  destruct (phase2_validation_rules two_group_template) as (_ & Hok & _ & Hwarn).
  split; [by apply Hok|].
  eapply (Hwarn eq_refl _ (u "line_item_level") _ (u "unit") (u "\s(EA)|(LB)\s"));
    [reflexivity | right | reflexivity | reflexivity | reflexivity | vm_compute; lia].
  repeat split; [apply (bool_decide_unpack _); by vm_compute|].
  intros Hin. by apply (bool_decide_pack _) in Hin.
Defined.

End ValidationFacts.

(** ** Currency amounts *)

Module CurrencyFacts.
Import Normalizer.

(** A non-empty string of ASCII digits. *)
Definition digit_string (s : pystr) : Prop :=
  s <> [] /\ Forall (fun c => is_ascii_digit c = true) s.

(** [sep.join(groups)] *)
Definition join (sep : N) (groups : list pystr) : pystr :=
  match groups with
  | [] => []
  | g :: gs => g ++ flat_map (fun g' => sep :: g') gs
  end.

(** The number a digit string denotes, continuing from [acc]. *)
Definition digits_value_from (acc : N) (s : pystr) : N :=
  fold_left (fun a c => (10 * a + (c - 48))%N) s acc.

Definition digits_value (s : pystr) : N := digits_value_from 0 s.

Definition euro : N := 8364.

Lemma digit_bounds c : is_ascii_digit c = true -> (48 <= c <= 57)%N.
Proof.
  unfold is_ascii_digit. intros Hc. apply andb_prop in Hc as [H1 H2].
  apply N.leb_le in H1, H2. lia.
Qed.

Ltac decide_comparisons :=
  repeat match goal with
    | |- context [(?a =? ?b)%N] => destruct (N.eqb_spec a b); try lia
    | |- context [(?a <=? ?b)%N] => destruct (N.leb_spec a b); try lia
    end.

Lemma digit_not_space c : is_ascii_digit c = true -> py_isspace c = false.
Proof.
  intros Hc%digit_bounds. unfold py_isspace. by decide_comparisons.
Qed.

Lemma digit_kept c : is_ascii_digit c = true -> is_currency_or_space c = false.
Proof.
  intros Hc. unfold is_currency_or_space. rewrite (digit_not_space c Hc).
  apply digit_bounds in Hc. by decide_comparisons.
Qed.

Lemma filter_all {A} (P : A -> Prop) `{!forall x, Decision (P x)} l :
  Forall P l -> filter P l = l.
Proof.
  induction 1 as [|x l Hx _ IH]; [done|].
  by rewrite filter_cons_True, IH.
Qed.

Lemma filter_none {A} (P : A -> Prop) `{!forall x, Decision (P x)} l :
  Forall (fun x => ~ P x) l -> filter P l = [].
Proof.
  induction 1 as [|x l Hx _ IH]; [done|].
  by rewrite filter_cons_False, IH.
Qed.

(** *** [rfind] *)

Lemma rfind_from_app c a b : forall i best,
  rfind_from c (a ++ b) i best
  = rfind_from c b (i + Z.of_nat (length a)) (rfind_from c a i best).
Proof.
  induction a as [|x a IH]; intros i best; simpl.
  - by rewrite Z.add_0_r.
  - rewrite IH. f_equal. lia.
Qed.

Lemma rfind_from_absent c s : forall i best,
  Forall (fun x => x <> c) s -> rfind_from c s i best = best.
Proof.
  induction s as [|x s IH]; intros i best Hs; [done|].
  apply Forall_cons in Hs as [Hx Hs]. simpl.
  destruct (N.eqb_spec x c); [done|]. by apply IH.
Qed.

Lemma rfind_from_bound c s : forall i best,
  (best < i)%Z -> (rfind_from c s i best < i + Z.of_nat (length s))%Z.
Proof.
  induction s as [|x s IH]; intros i best Hb; simpl; [lia|].
  specialize (IH (i + 1)%Z (if (x =? c)%N then i else best)).
  destruct (x =? c)%N; lia.
Qed.

Lemma rfind_last c a b :
  Forall (fun x => x <> c) b -> rfind c (a ++ c :: b) = Z.of_nat (length a).
Proof.
  intros Hb. unfold rfind. rewrite rfind_from_app. simpl.
  rewrite N.eqb_refl. by rewrite rfind_from_absent.
Qed.

Lemma rfind_before c a b :
  Forall (fun x => x <> c) b -> (rfind c (a ++ b) < Z.of_nat (length a))%Z.
Proof.
  intros Hb. unfold rfind. rewrite rfind_from_app, rfind_from_absent by done.
  pose proof (rfind_from_bound c a 0 (-1)). lia.
Qed.

Lemma after_last_spec c a b :
  Forall (fun x => x <> c) b -> after_last c (a ++ c :: b) = b.
Proof.
  intros Hb. unfold after_last. rewrite rfind_last by done.
  replace (Z.to_nat (Z.of_nat (length a) + 1)) with (length a + 1) by lia.
  replace (a ++ c :: b) with ((a ++ [c]) ++ b) by by rewrite <- app_assoc.
  apply drop_app_length'. rewrite length_app. simpl. lia.
Qed.

(** *** [in] and [replace] *)

Lemma contains_app c a b : contains c (a ++ b) = contains c a || contains c b.
Proof. apply existsb_app. Qed.

Lemma contains_absent c s : Forall (fun x => x <> c) s -> contains c s = false.
Proof.
  induction 1 as [|x s Hx _ IH]; [done|]. simpl. rewrite IH.
  destruct (N.eqb_spec c x); [congruence | done].
Qed.

Lemma replace_char_app c new a b :
  replace_char c new (a ++ b) = replace_char c new a ++ replace_char c new b.
Proof. apply flat_map_app. Qed.

Lemma replace_char_absent c new s :
  Forall (fun x => x <> c) s -> replace_char c new s = s.
Proof.
  induction 1 as [|x s Hx _ IH]; [done|]. unfold replace_char in *. simpl.
  rewrite IH. by destruct (N.eqb_spec x c).
Qed.

Lemma replace_char_one c new : replace_char c new [c] = new.
Proof. unfold replace_char. simpl. by rewrite N.eqb_refl, app_nil_r. Qed.

(** *** Digit groups *)

Lemma digit_not_sep c sep :
  sep = comma \/ sep = period -> is_ascii_digit c = true -> c <> sep.
Proof.
  intros Hsep Hc%digit_bounds. unfold comma, period in Hsep. lia.
Qed.

Lemma digits_without sep s :
  sep = comma \/ sep = period ->
  Forall (fun c => is_ascii_digit c = true) s -> Forall (fun x => x <> sep) s.
Proof.
  intros Hsep Hs. eapply Forall_impl; [exact Hs|].
  intros c Hc. by apply digit_not_sep.
Qed.

Lemma tail_without th sep gs :
  sep = comma \/ sep = period -> th <> sep ->
  Forall digit_string gs ->
  Forall (fun x => x <> sep) (flat_map (fun g' => th :: g') gs).
Proof.
  intros Hsep Hne. induction 1 as [|g gs [_ Hg] _ IH]; simpl; [constructor|].
  constructor; [done|]. apply Forall_app. split; [|done].
  by apply digits_without.
Qed.

Lemma join_without th sep groups :
  sep = comma \/ sep = period -> th <> sep ->
  Forall digit_string groups -> Forall (fun x => x <> sep) (join th groups).
Proof.
  intros Hsep Hne Hall. destruct Hall as [|g gs [_ Hg] Hgs]; [constructor|].
  simpl. apply Forall_app. split; [by apply digits_without|].
  by apply tail_without.
Qed.

Lemma replace_tail th gs :
  th = comma \/ th = period ->
  Forall digit_string gs ->
  replace_char th [] (flat_map (fun g' => th :: g') gs) = concat gs.
Proof.
  intros Hth. induction 1 as [|g gs [_ Hg] _ IH]; [done|].
  cbn [flat_map concat].
  change ((th :: g) ++ flat_map (fun g' => th :: g') gs)
    with ([th] ++ g ++ flat_map (fun g' => th :: g') gs).
  rewrite !replace_char_app, replace_char_one, IH.
  by rewrite replace_char_absent by by apply digits_without.
Qed.

Lemma replace_join th groups :
  th = comma \/ th = period ->
  Forall digit_string groups ->
  replace_char th [] (join th groups) = concat groups.
Proof.
  intros Hth Hall. destruct Hall as [|g gs [_ Hg] Hgs]; [done|].
  cbn [join concat].
  rewrite replace_char_app, replace_tail by done.
  by rewrite replace_char_absent by by apply digits_without.
Qed.

Lemma contains_join th g gs :
  th = comma \/ th = period ->
  Forall digit_string (g :: gs) ->
  contains th (join th (g :: gs)) = match gs with [] => false | _ => true end.
Proof.
  intros Hth Hall. apply Forall_cons in Hall as [[_ Hg] Hgs]. simpl.
  rewrite contains_app, (contains_absent th g) by by apply digits_without.
  destruct gs as [|g' gs]; [done|]. simpl. by rewrite N.eqb_refl.
Qed.

Lemma concat_digits groups :
  groups <> [] -> Forall digit_string groups -> digit_string (concat groups).
Proof.
  intros Hne Hall. split.
  - destruct Hall as [|g gs [Hg _] _]; [done|]. simpl. by destruct g.
  - induction Hall as [|g gs [_ Hg] _ IH]; simpl; [constructor|].
    apply Forall_app. split; [done|].
    destruct gs; [constructor | by apply IH].
Qed.

(** What the cleaning stage makes of digit groups, a decimal separator and
    a fraction, whatever currency symbols and blanks surround them. *)
Lemma currency_cleaned_groups pre post groups dd th dec :
  (th = comma /\ dec = period) \/ (th = period /\ dec = comma) ->
  Forall (fun c => is_currency_or_space c = true) pre ->
  Forall (fun c => is_currency_or_space c = true) post ->
  groups <> [] -> Forall digit_string groups ->
  digit_string dd -> length dd = 2 ->
  currency_cleaned (pre ++ join th groups ++ [dec] ++ dd ++ post)
  = concat groups ++ [period] ++ dd.
Proof.
  intros Hsep Hpre Hpost Hne Hgroups [_ Hdd] Hlen.
  assert (Hth : th = comma \/ th = period) by tauto.
  assert (Hdec : dec = comma \/ dec = period) by tauto.
  assert (Hdiff : th <> dec) by (unfold comma, period in *; lia).
  set (body := join th groups ++ [dec] ++ dd).
  assert (Hclean : without_currency
                     (pre ++ join th groups ++ [dec] ++ dd ++ post) = body).
  { unfold without_currency. replace (pre ++ join th groups ++ [dec] ++ dd ++ post)
      with (pre ++ body ++ post) by (unfold body; by rewrite <- !app_assoc).
    rewrite !filter_app.
    rewrite (filter_none _ pre), (filter_none _ post), app_nil_r
      by (eapply Forall_impl; [eassumption | simpl; congruence]).
    apply filter_all. unfold body. rewrite !Forall_app. repeat split.
    - destruct groups as [|g gs]; [done|]. simpl.
      apply Forall_cons in Hgroups as [[_ Hg] Hgs].
      apply Forall_app. split.
      + eapply Forall_impl; [exact Hg | apply digit_kept].
      + induction Hgs as [|g' gs' [_ Hg'] _ IH]; simpl; [constructor|].
        constructor; [by destruct Hth as [-> | ->]|].
        apply Forall_app. split; [|apply IH; congruence].
        eapply Forall_impl; [exact Hg' | apply digit_kept].
    - constructor; [by destruct Hdec as [-> | ->] | constructor].
    - eapply Forall_impl; [exact Hdd | apply digit_kept]. }
  unfold currency_cleaned. rewrite Hclean. clear Hclean.
  assert (Hdd_th : Forall (fun x => x <> th) dd) by by apply digits_without.
  assert (Hdd_dec : Forall (fun x => x <> dec) dd) by by apply digits_without.
  assert (Hjoin_dec : Forall (fun x => x <> dec) (join th groups))
    by by apply join_without.
  assert (Hc_th : contains th body
                  = match groups with [_] => false | _ => true end).
  { unfold body. destruct groups as [|g gs]; [done|].
    rewrite !contains_app, contains_join, (contains_absent th dd) by done.
    simpl. destruct (N.eqb_spec th dec); [done|]. by destruct gs. }
  assert (Hc_dec : contains dec body = true).
  { unfold body. rewrite !contains_app. simpl.
    by rewrite N.eqb_refl, orb_true_r. }
  assert (Hr_dec : rfind dec body = Z.of_nat (length (join th groups)))
    by (unfold body; by apply rfind_last).
  assert (Hr_th : (rfind th body < Z.of_nat (length (join th groups)))%Z).
  { unfold body. apply rfind_before. constructor; [congruence | done]. }
  assert (Hrep_th : replace_char th [] body = concat groups ++ [dec] ++ dd).
  { unfold body. rewrite !replace_char_app, replace_join by done.
    rewrite (replace_char_absent th [] [dec]) by (constructor; [congruence | done]).
    by rewrite replace_char_absent. }
  assert (Hgroups_dec : Forall (fun x => x <> dec) (concat groups))
    by (apply digits_without; [done | by apply concat_digits]).
  destruct Hsep as [[-> ->]|[-> ->]].
  - (* comma groups the thousands, the period is the decimal separator *)
    rewrite Hc_th, Hc_dec. destruct groups as [|g [|g' gs]]; [done| |].
    + simpl. unfold body. simpl. by rewrite app_nil_r.
    + cbn [andb]. destruct (Z.ltb_spec (rfind period body) (rfind comma body));
        [lia | done].
  - (* the period groups the thousands, the comma is the decimal separator *)
    rewrite Hc_th, Hc_dec. destruct groups as [|g [|g' gs]]; [done| |].
    + cbn [andb].
      change body with (join period [g] ++ comma :: dd) at 1 2.
      rewrite after_last_spec by done. rewrite Hlen. cbn [Nat.eqb].
      change (comma :: dd) with ([comma] ++ dd).
      rewrite !replace_char_app, replace_char_one.
      by rewrite !replace_char_absent.
    + cbn [andb]. destruct (Z.ltb_spec (rfind period body) (rfind comma body));
        [|lia].
      rewrite Hrep_th, !replace_char_app, replace_char_one.
      by rewrite !replace_char_absent.
Qed.

(** *** [float] on a plain decimal *)

Lemma scan_digits_run ds rest : forall acc cnt,
  Forall (fun c => is_ascii_digit c = true) ds ->
  match rest with
  | [] => True
  | c :: _ => is_ascii_digit c = false /\ c <> 95%N
  end ->
  scan_digits (ds ++ rest) acc cnt
  = (digits_value_from acc ds, cnt + length ds, rest).
Proof.
  induction ds as [|d ds IH]; intros acc cnt Hds Hrest.
  - rewrite Nat.add_0_r. destruct rest as [|c r]; [done|].
    destruct Hrest as [Hc H95]. simpl. rewrite Hc.
    by destruct (N.eqb_spec c 95).
  - apply Forall_cons in Hds as [Hd Hds].
    cbn [app scan_digits]. rewrite Hd, IH by done.
    unfold digits_value_from. simpl. do 2 f_equal. lia.
Qed.

Lemma strip_same s a t m b :
  s = a :: t -> s = m ++ [b] ->
  py_isspace a = false -> py_isspace b = false -> strip s = s.
Proof.
  intros Ha Hb Hsa Hsb. unfold strip, rstrip.
  assert (Hl : lstrip s = s) by (rewrite Ha; simpl; by rewrite Hsa).
  rewrite Hl, Hb, rev_app_distr. simpl. rewrite Hsb. simpl.
  by rewrite rev_involutive.
Qed.

Lemma py_float_decimal D dd :
  digit_string D -> digit_string dd ->
  py_float (D ++ [period] ++ dd)
  = Some (FNum (decimal false (digits_value (D ++ dd)) (- Z.of_nat (length dd)))).
Proof.
  intros [HD HDd] [Hdd Hddd].
  destruct D as [|a t]; [done|]. clear HD.
  destruct (exists_last Hdd) as (m & b & ->).
  pose proof (Forall_inv HDd) as Ha. apply digit_bounds in Ha as Hab.
  assert (Hb : is_ascii_digit b = true).
  { apply Forall_app in Hddd as [_ Hb]. by apply Forall_inv in Hb. }
  unfold py_float.
  rewrite (strip_same _ a (t ++ [period] ++ m ++ [b])
             ((a :: t) ++ [period] ++ m) b);
    [|done | by rewrite <- !app_assoc | by apply digit_not_space
     | by apply digit_not_space].
  change ((a :: t) ++ [period] ++ m ++ [b])
    with (a :: t ++ [period] ++ m ++ [b]).
  unfold scan_sign.
  destruct (N.eqb_spec a 43); [lia|]. destruct (N.eqb_spec a 45); [lia|].
  assert (Hlow : ascii_lower a = a).
  { unfold ascii_lower, is_ascii_upper.
    destruct (N.leb_spec 65 a); [lia | done]. }
  destruct (decide _) as [[Hinf|Hinf]|_].
  { cbn [map] in Hinf. rewrite Hlow in Hinf. injection Hinf as Hinf _. lia. }
  { cbn [map] in Hinf. rewrite Hlow in Hinf. injection Hinf as Hinf _. lia. }
  destruct (decide _) as [Hnan|_].
  { cbn [map] in Hnan. rewrite Hlow in Hnan. injection Hnan as Hnan _. lia. }
  change (a :: t ++ [period] ++ m ++ [b])
    with ((a :: t) ++ period :: (m ++ [b])).
  rewrite scan_digits_run by (done || (split; [done | unfold period; lia])).
  cbn [Nat.add]. unfold period at 1. rewrite N.eqb_refl.
  rewrite <- (app_nil_r (m ++ [b])) at 1.
  rewrite scan_digits_run by done.
  cbn [Nat.add length Nat.eqb].
  unfold digits_value, digits_value_from.
  by rewrite (fold_left_app _ (a :: t) (m ++ [b])).
Qed.

(** C6: [_parse_currency_amount] strips the currency symbols and white
    space, takes a trailing two-digit group after the last separator for the
    decimal part and the other separator for a thousands separator, and
    returns [None], not zero, for a missing or unparsable input.  The three
    examples of the specification parse to 1234.56. *)
Theorem parse_currency_amount_spec :
  _parse_currency_amount (VStr (u "$1,234.56")) = Some (FNum 1234.56)
  /\ _parse_currency_amount (VStr (euro :: u "1.234,56")) = Some (FNum 1234.56)
  /\ _parse_currency_amount (VStr (u "1,234.56")) = Some (FNum 1234.56)
  /\ _parse_currency_amount VNone = None
  /\ _parse_currency_amount (VStr []) = None
  /\ _parse_currency_amount (VStr (u "n/a")) = None
  /\ _parse_currency_amount (VStr (u "12,34,56")) = None
  /\ (forall s, py_float (currency_cleaned s) = None ->
        _parse_currency_amount (VStr s) = None)
  /\ (forall pre post groups dd thousands decimal_sep,
        (thousands = comma /\ decimal_sep = period)
        \/ (thousands = period /\ decimal_sep = comma) ->
        Forall (fun c => is_currency_or_space c = true) pre ->
        Forall (fun c => is_currency_or_space c = true) post ->
        groups <> [] -> Forall digit_string groups ->
        digit_string dd -> length dd = 2 ->
        _parse_currency_amount
          (VStr (pre ++ join thousands groups ++ [decimal_sep] ++ dd ++ post))
        = Some (FNum (Qmake (Z.of_N (digits_value (concat groups ++ dd))) 100))).
Proof.
  repeat apply conj; try reflexivity.
  - intros s Hs. unfold _parse_currency_amount. simpl. rewrite Hs.
    by destruct (truthy s).
  - intros pre post groups dd th dec Hsep Hpre Hpost Hne Hgroups Hdd Hlen.
    unfold _parse_currency_amount.
    assert (Ht : truthy (pre ++ join th groups ++ [dec] ++ dd ++ post) = true).
    { destruct pre; [|done]. destruct groups as [|[|? ?] ?]; try done.
      apply Forall_cons in Hgroups as [[? _] _]. done. }
    cbn [py_truthy py_str]. rewrite Ht. cbn [negb].
    rewrite currency_cleaned_groups by done.
    rewrite py_float_decimal by (done || by apply concat_digits).
    by rewrite Hlen.
Qed.

Lemma parse_currency_amount_spec_witness :
  _parse_currency_amount (VStr (u "$ 12.345.678,90 " ++ [euro]))
  = Some (FNum 12345678.90).
Proof.
  apply (proj2 (proj2 (proj2 (proj2 (proj2 (proj2 (proj2 (proj2
           parse_currency_amount_spec)))))))
         (u "$ ") (u " " ++ [euro]) [u "12"; u "345"; u "678"] (u "90")
         period comma);
    try (by right); try done; repeat constructor; done.
Defined.

End CurrencyFacts.

(** ** Materialization *)

Module SplitterFacts.
Import Splitter.

Section Facts.
Context {Page Info : Type}.

Local Abbreviation state := (@split_state Page Info).
Local Abbreviation IO := (@Splitter.IO Page Info).

(** The files other than [path] are what they were. *)
Definition frame (path : list fspath) (st st' : state) : Prop :=
  forall q, q ∉ path -> files st' !! q = files st !! q.

(** The two lists kept by the function are what they were. *)
Definition same_lists (st st' : state) : Prop :=
  created st' = created st /\ warned st' = warned st.

Lemma next_fault_spec (st : state) :
  exists b st', next_fault st = (inr b, st')
    /\ files st' = files st /\ created st' = created st /\ warned st' = warned st.
Proof.
  unfold next_fault. destruct (faults st) as [|b bs]; by eexists _, _.
Qed.

Lemma write_file_spec path content (st : state) r st' :
  write_file path content st = (r, st') ->
  same_lists st st' /\ frame [path] st st'
  /\ (r = inr tt -> files st' !! path = Some content).
Proof.
  unfold write_file, bind at 1.
  destruct (next_fault_spec st) as (b & s1 & -> & Hf1 & Hc1 & Hw1).
  destruct b.
  { intros [= <- <-]. repeat split; cbn [created warned files]; [done | done | | done].
    intros q _. by rewrite Hf1. }
  unfold bind at 1, set_files at 1. unfold bind at 1.
  match goal with |- context [next_fault ?s] =>
    destruct (next_fault_spec s) as (b & s2 & -> & Hf2 & Hc2 & Hw2) end.
  simpl in Hf2, Hc2, Hw2.
  destruct b.
  - intros [= <- <-]. repeat split; cbn [created warned files]; [congruence | congruence | | done].
    intros q Hq. cbn [files]. rewrite Hf2, Hf1. apply lookup_insert_ne. set_solver.
  - unfold set_files. intros [= <- <-].
    repeat split; cbn [created warned files]; [congruence | congruence | |].
    + intros q Hq. cbn [files]. rewrite Hf2, lookup_insert_ne by set_solver.
      rewrite lookup_insert_ne by set_solver. by rewrite Hf1.
    + intros _. apply lookup_insert_eq.
Qed.

Lemma os_replace_spec src dst (st : state) r st' :
  os_replace src dst st = (r, st') ->
  same_lists st st' /\ frame [src; dst] st st'
  /\ (r = inr tt -> files st' !! dst = files st !! src).
Proof.
  unfold os_replace, bind at 1.
  destruct (next_fault_spec st) as (b & s1 & -> & Hf1 & Hc1 & Hw1).
  destruct b.
  { intros [= <- <-]. repeat split; cbn [created warned files]; [done | done | | done].
    intros q _. by rewrite Hf1. }
  rewrite Hf1. destruct (files st !! src) as [content|] eqn:Hsrc.
  - unfold set_files. intros [= <- <-].
    repeat split; cbn [created warned files]; [done | done | |].
    + intros q Hq. cbn [files]. rewrite Hf1, lookup_insert_ne by set_solver.
      apply lookup_delete_ne. set_solver.
    + intros _. by rewrite lookup_insert_eq.
  - intros [= <- <-]. repeat split; cbn [created warned files]; [done | done | | done].
    intros q _. by rewrite Hf1.
Qed.

Lemma unlink_spec path (st : state) r st' :
  unlink path st = (r, st') ->
  same_lists st st' /\ frame [path] st st'
  /\ (r = inr tt -> files st' !! path = None)
  /\ (forall e, r = inl e -> forall q, files st' !! q = files st !! q).
Proof.
  unfold unlink, bind at 1.
  destruct (next_fault_spec st) as (b & s1 & -> & Hf1 & Hc1 & Hw1).
  destruct b.
  { intros [= <- <-]. repeat split; cbn [created warned files]; [done | done | | done |].
    - intros q _. by rewrite Hf1.
    - intros e _ q. by rewrite Hf1. }
  rewrite Hf1. destruct (files st !! path) as [content|] eqn:Hp.
  - unfold set_files. intros [= <- <-].
    repeat split; cbn [created warned files]; [done | done | | | done].
    + intros q Hq. cbn [files]. rewrite Hf1. apply lookup_delete_ne. set_solver.
    + intros _. apply lookup_delete_eq.
  - intros [= <- <-]. repeat split; cbn [created warned files]; [done | done | | done |].
    + intros q _. by rewrite Hf1.
    + intros e _ q. by rewrite Hf1.
Qed.

Lemma collect_pages_spec pages group (st : state) :
  collect_pages pages group st
  = (match mapM (page_at pages) group with
     | Some ps => inr ps
     | None => inl IndexError
     end, st).
Proof.
  induction group as [|i group IH]; [done|].
  cbn [collect_pages mapM]. destruct (page_at pages i) as [page|]; [|done].
  unfold bind. rewrite IH. simpl.
  by destruct (mapM (page_at pages) group).
Qed.

(** Membership goals over short explicit lists. *)
Ltac mem_solver :=
  repeat match goal with
    | H : _ ∉ _ |- _ => unfold not in H
    end;
  rewrite ?elem_of_app, ?elem_of_cons, ?elem_of_nil in *;
  repeat match goal with
    | H : context [_ ∈ _] |- _ =>
        rewrite ?elem_of_app, ?elem_of_cons, ?elem_of_nil in H
    end;
  intuition congruence.

Lemma frame_refl paths (st : state) : frame paths st st.
Proof. by intros q _. Qed.

Lemma frame_trans a b (st s1 s2 : state) :
  frame a st s1 -> frame b s1 s2 -> frame (a ++ b) st s2.
Proof.
  intros H1 H2 q Hq.
  rewrite H2, H1; [done | |]; intros Hin; apply Hq; apply elem_of_app;
    [by left | by right].
Qed.

Lemma frame_weaken a b (st st' : state) :
  (forall q, q ∈ a -> q ∈ b) -> frame a st st' -> frame b st st'.
Proof. intros Hsub Hf q Hq. apply Hf. intros Hin. by apply Hq, Hsub. Qed.

Section Groups.
Variable base_name : pystr.
Variable rd : @reader Page Info.

(** The output and the temporary file of a group. *)
Definition out_path (group : list nat) : fspath :=
  final_path (group_filename base_name group).
Definition tmp_path (group : list nat) : fspath :=
  temp_path (group_filename base_name group).

Definition nonempty_groups (groups : list (list nat)) : list (list nat) :=
  filter (fun g => g <> []) groups.

(** Every path the loop may touch. *)
Definition touched (groups : list (list nat)) : list fspath :=
  flat_map (fun g => [tmp_path g; out_path g]) (nonempty_groups groups).

(** No output is overwritten by the output or the temporary file of a later
    group. *)
Fixpoint outputs_distinct (groups : list (list nat)) : Prop :=
  match groups with
  | [] => True
  | g :: rest =>
      Forall (fun g' => out_path g <> out_path g' /\ out_path g <> tmp_path g') rest
      /\ outputs_distinct rest
  end.

(** The file a group is materialized as. *)
Definition materialized (st : state) (group : list nat) : Prop :=
  exists pages,
    mapM (page_at (r_pages rd)) group = Some pages
    /\ files st !! out_path group = Some (Pdf pages (r_info rd)).

Lemma write_groups_spec groups : forall (st : state) r st',
  write_groups base_name rd groups st = (r, st') ->
  warned st' = warned st
  /\ frame (touched groups) st st'
  /\ (exists finished,
        created st' = created st ++ map out_path finished
        /\ (r = inr tt -> finished = nonempty_groups groups))
  /\ (r = inr tt -> outputs_distinct (nonempty_groups groups) ->
      Forall (materialized st') (nonempty_groups groups)).
Proof.
  induction groups as [|group rest IH]; intros st r st' Hrun.
  { injection Hrun as <- <-.
    split; [|split; [|split]]; [done | apply frame_refl | | done].
    exists []. by rewrite app_nil_r. }
  destruct group as [|i g].
  { cbn [write_groups] in Hrun. unfold touched, nonempty_groups.
    rewrite filter_cons_False by by intros []. by apply IH. }
  cbn [write_groups] in Hrun.
  set (group := i :: g) in *.
  unfold touched, nonempty_groups. rewrite filter_cons_True by done.
  fold (nonempty_groups rest). cbn [flat_map outputs_distinct].
  fold (touched rest).
  assert (Hfail : forall e (s : state),
            warned s = warned st -> created s = created st ->
            frame [tmp_path group; out_path group] st s ->
            r = inl e -> st' = s ->
            warned st' = warned st
            /\ frame ([tmp_path group; out_path group] ++ touched rest) st st'
            /\ (exists finished,
                  created st' = created st ++ map out_path finished
                  /\ (r = inr tt -> finished = group :: nonempty_groups rest))
            /\ (r = inr tt ->
                Forall (fun g' => out_path group <> out_path g'
                                  /\ out_path group <> tmp_path g')
                       (nonempty_groups rest)
                /\ outputs_distinct (nonempty_groups rest) ->
                Forall (materialized st') (group :: nonempty_groups rest))).
  { intros e s Hw Hc Hf -> ->.
    split; [|split; [|split]]; [done | | | done].
    - eapply frame_weaken; [|exact Hf]. intros q Hq. apply elem_of_app. by left.
    - exists []. simpl. by rewrite app_nil_r. }
  unfold bind at 1 in Hrun. rewrite collect_pages_spec in Hrun.
  destruct (mapM (page_at (r_pages rd)) group) as [pages|] eqn:Hpages.
  2:{ injection Hrun as <- <-.
      eapply (Hfail _ st); (done || apply frame_refl). }
  unfold bind at 1 in Hrun.
  destruct (write_file _ _ st) as [[e|[]] s1] eqn:Hwrite;
    apply write_file_spec in Hwrite as ([Hc1 Hw1] & Hf1 & Hs1).
  { injection Hrun as <- <-. eapply (Hfail _ s1); try done.
    eapply frame_weaken; [|exact Hf1]. intros q Hq. mem_solver. }
  unfold bind at 1 in Hrun.
  destruct (os_replace _ _ s1) as [[e|[]] s2] eqn:Hrep;
    apply os_replace_spec in Hrep as ([Hc2 Hw2] & Hf2 & Hs2).
  { injection Hrun as <- <-. eapply (Hfail _ s2); try done; try congruence.
    intros q Hq. rewrite Hf2, Hf1; [done | mem_solver | mem_solver]. }
  unfold bind at 1, append_created at 1 in Hrun.
  apply IH in Hrun as (Hw3 & Hf3 & (finished & Hc3 & Hfin) & Hmat).
  cbn [warned created files] in Hw3, Hc3.
  assert (Hf03 : frame ([tmp_path group; out_path group] ++ touched rest) st st').
  { intros q Hq. rewrite Hf3 by mem_solver. cbn [files].
    rewrite Hf2, Hf1; [done | mem_solver | mem_solver]. }
  split; [|split; [|split]]; [congruence | done | |].
  - exists (group :: finished). split.
    + rewrite Hc3, Hc2, Hc1, <- app_assoc. done.
    + intros Hr. by rewrite Hfin.
  - intros Hr [Hhead Hrest]. constructor; [|by apply Hmat].
    exists pages. split; [done|].
    rewrite Hf3.
    + cbn [files]. unfold out_path. rewrite Hs2, Hs1 by done. done.
    + unfold touched. intros Hin. apply list_elem_of_In, in_flat_map in Hin
        as (g' & Hg' & Hq). apply list_elem_of_In in Hg'.
      rewrite Forall_forall in Hhead. destruct (Hhead g' Hg') as [Hno Hnt].
      simpl in Hq. destruct Hq as [Hq|[Hq|[]]]; congruence.
Qed.

Lemma cleanup_spec outputs : forall st : state,
  exists st',
    cleanup outputs st = (inr tt, st')
    /\ created st' = created st
    /\ frame outputs st st'
    /\ (forall q, files st !! q = None -> files st' !! q = None)
    /\ (forall f, f ∈ warned st -> f ∈ warned st')
    /\ Forall (fun f => files st' !! f = None \/ f ∈ warned st') outputs.
Proof.
  induction outputs as [|f rest IH]; intros st.
  { exists st. repeat split; (done || apply frame_refl). }
  cbn [cleanup]. unfold bind at 1, try_except.
  destruct (unlink f st) as [[e|[]] s1] eqn:Hun;
    apply unlink_spec in Hun as ([Hc1 Hw1] & Hf1 & Hok & Hbad).
  - unfold log_warning.
    match goal with |- context [cleanup rest ?s] =>
      destruct (IH s) as (st' & -> & Hc & Hf & Hnone & Hwarn & Hall) end.
    cbn [created files warned] in Hc, Hf, Hnone, Hwarn.
    exists st'. repeat split; [congruence | | | |].
    + intros q Hq. rewrite Hf by mem_solver. cbn [files]. by apply (Hbad e).
    + intros q Hq. apply Hnone. cbn [files]. by rewrite (Hbad e).
    + intros g Hg. apply Hwarn. cbn [warned]. rewrite Hw1. mem_solver.
    + constructor; [|done]. right. apply Hwarn. cbn [warned]. mem_solver.
  - destruct (IH s1) as (st' & -> & Hc & Hf & Hnone & Hwarn & Hall).
    exists st'. repeat split; [congruence | | | |].
    + intros q Hq. rewrite Hf, Hf1 by mem_solver. done.
    + intros q Hq. apply Hnone.
      destruct (decide (q = f)) as [->|Hne]; [by apply Hok|].
      rewrite Hf1 by mem_solver. done.
    + intros g Hg. apply Hwarn. by rewrite Hw1.
    + constructor; [|done]. left. apply Hnone. by apply Hok.
Qed.

(** The state in which the [try] block starts: [created = []]. *)
Definition reset (st : state) : state :=
  SplitState (files st) (faults st) [] (warned st).

Lemma outside_untouched p groups :
  (forall name, p <> child PROCESSED_DIR name) -> p ∉ touched groups.
Proof.
  intros Hp Hin. unfold touched in Hin.
  apply list_elem_of_In, in_flat_map in Hin as (g & _ & Hq).
  simpl in Hq. destruct Hq as [Hq|[Hq|[]]]; by eapply Hp.
Qed.

Lemma outside_not_output p (finished : list (list nat)) :
  (forall name, p <> child PROCESSED_DIR name) -> p ∉ map out_path finished.
Proof.
  intros Hp Hin. apply list_elem_of_fmap in Hin as (g & Hq & _).
  by eapply Hp.
Qed.

(** The [except] branch: cleanup of what [created] lists, then re-raise. *)
Lemma handler_spec (e : split_exn) (st : state) :
  exists st',
    bind (fun s : state => cleanup (created s) s) (fun _ => raise e) st
      = (inl e : split_exn + unit, st')
    /\ created st' = created st
    /\ frame (created st) st st'
    /\ Forall (fun f => files st' !! f = None \/ f ∈ warned st') (created st').
Proof.
  destruct (cleanup_spec (created st) st) as (st' & Hrun & Hc & Hf & _ & _ & Hall).
  exists st'. unfold bind. rewrite Hrun. by rewrite Hc.
Qed.

(** C9, as the code has it: [split_pdf_by_page_groups] is all-or-nothing
    with respect to the source file.  On success the original is removed
    and one output per non-empty group has been produced, named
    [{stem}-page{start}.pdf] for a single-page group and
    [{stem}-page{start}-{end}.pdf] otherwise, each holding the pages of its
    group when no output overwrites another.  On an error the original is
    left as it was, the deletion of every output created so far has been
    attempted, so that each is gone unless its deletion itself failed and
    was logged, and the error of the [try] block is the one raised. *)
Theorem split_is_all_or_nothing p groups (st0 : state) r st1 :
  (forall name, p <> child PROCESSED_DIR name) ->
  split_pdf_by_page_groups p base_name rd groups st0 = (r, st1) ->
  (forall n, new_filename base_name n n
             = base_name ++ u "-page" ++ str_of_nat n ++ u ".pdf")
  /\ (forall a b, a <> b ->
        new_filename base_name a b
        = base_name ++ u "-page" ++ str_of_nat a ++ u "-" ++ str_of_nat b
            ++ u ".pdf")
  /\ match r with
     | inr _ =>
         files st1 !! p = None
         /\ created st1 = map out_path (nonempty_groups groups)
         /\ (outputs_distinct (nonempty_groups groups) ->
             Forall (materialized st1) (nonempty_groups groups))
     | inl e =>
         files st1 !! p = files st0 !! p
         /\ Forall (fun f => files st1 !! f = None \/ f ∈ warned st1) (created st1)
         /\ (exists st', split_body p base_name rd groups (reset st0) = (inl e, st'))
     end.
Proof.
  intros Hp Hrun. split; [|split].
  { intros n. unfold new_filename. by rewrite Nat.eqb_refl. }
  { intros a b Hab. unfold new_filename.
    by destruct (Nat.eqb_spec a b). }
  unfold split_pdf_by_page_groups, bind at 1 in Hrun.
  fold (reset st0) in Hrun. unfold try_except in Hrun.
  destruct (split_body p base_name rd groups (reset st0)) as [[e|[]] s2] eqn:Hbody.
  - (* the [try] block raised *)
    destruct (handler_spec e s2) as (s3 & Hh & Hc3 & Hf3 & Hall).
    rewrite Hh in Hrun. injection Hrun as <- <-.
    split; [|split]; [|done|by exists s2].
    unfold split_body, bind in Hbody.
    destruct (write_groups base_name rd groups (reset st0)) as [[e1|[]] s1] eqn:Hw;
      apply write_groups_spec in Hw as (_ & Hf1 & (finished & Hc1 & _) & _).
    + injection Hbody as <- <-.
      rewrite Hf3 by (rewrite Hc1; by apply outside_not_output).
      by rewrite Hf1 by by apply outside_untouched.
    + apply unlink_spec in Hbody as ([Hc2 _] & _ & _ & Hbad).
      rewrite Hf3 by (rewrite Hc2, Hc1; by apply outside_not_output).
      rewrite (Hbad e) by done.
      by rewrite Hf1 by by apply outside_untouched.
  - (* the [try] block went through *)
    injection Hrun as <- <-.
    unfold split_body, bind in Hbody.
    destruct (write_groups base_name rd groups (reset st0)) as [[e1|[]] s1] eqn:Hw;
      [done|].
    apply write_groups_spec in Hw as (_ & Hf1 & (finished & Hc1 & Hfin) & Hmat).
    apply unlink_spec in Hbody as ([Hc2 _] & Hf2 & Hgone & _).
    split; [|split].
    + by apply Hgone.
    + rewrite Hc2, Hc1, Hfin by done. done.
    + intros Hdist. specialize (Hmat eq_refl Hdist).
      eapply Forall_impl; [exact Hmat|].
      intros g (pages & Hpages & Hfile). exists pages. split; [done|].
      rewrite Hf2; [done|]. intros Hin. apply list_elem_of_singleton in Hin.
      by eapply Hp.
Qed.

End Groups.

End Facts.

(** A two-page source [data/staging_area/inv.pdf], split page by page. *)
Definition inv_pdf : fspath := [u "data"; u "staging_area"; u "inv.pdf"].
Definition inv_reader : @reader nat unit := Reader [10; 20] None.
Definition page_by_page : list (list nat) := [[1]; [2]].
Definition first_output : fspath := final_path (u "inv-page1.pdf").
Definition second_output : fspath := final_path (u "inv-page2.pdf").

(** The source is on disk; [faults] tells which operations will fail. *)
Definition staged (faults : list bool) : @split_state nat unit :=
  SplitState {[ inv_pdf := Pdf [10; 20] None ]} faults [] [].

Lemma inv_pdf_outside name : inv_pdf <> child PROCESSED_DIR name.
Proof. intros Heq. vm_compute in Heq. congruence. Qed.

(** C9, as stated, fails when the cleanup itself fails: the first
    group is written, opening the temporary file of the second fails, and
    so does the deletion of the first output.  The error is raised, the
    original is intact, but the first output is still there. *)
Lemma failed_cleanup_leaves_an_output :
  let res := split_pdf_by_page_groups inv_pdf (u "inv") inv_reader page_by_page
               (staged [false; false; false; true; true]) in
  res.1 = inl (OSError (u "open") (temp_path (u "inv-page2.pdf")))
  /\ created res.2 = [first_output]
  /\ files res.2 !! first_output = Some (Pdf [10] None)
  /\ files res.2 !! inv_pdf = Some (Pdf [10; 20] None)
  /\ warned res.2 = [first_output].
Proof. by vm_compute. Qed.

Lemma split_is_all_or_nothing_witness :
  let res := split_pdf_by_page_groups inv_pdf (u "inv") inv_reader page_by_page
               (staged []) in
  res.1 = inr tt
  /\ files res.2 !! inv_pdf = None
  /\ created res.2 = [first_output; second_output].
Proof.
  intros res.
  assert (Hok : res.1 = inr tt) by by vm_compute.
  split; [done|].
  pose proof (split_is_all_or_nothing (u "inv") inv_reader inv_pdf page_by_page
                (staged []) res.1 res.2 inv_pdf_outside
                (surjective_pairing _)) as (_ & _ & Hres).
  rewrite Hok in Hres. destruct Hres as (Hgone & Hcreated & _).
  split; [exact Hgone | exact Hcreated].
Defined.

End SplitterFacts.

(** * Further properties of the code *)

(** ** Multi-page documents *)

Module RegularizerFacts.
Import Segmenter Splitter Regularizer.
Import SegmenterFacts CurrencyFacts SplitterFacts.

Lemma consecutive_pages_spec grp :
  consecutive_pages grp = true <-> consecutive grp.
Proof.
  induction grp as [|x [|y rest] IH]; cbn [consecutive_pages].
  - split; [|done]. by intros _ i a b Ha.
  - split; [|done]. intros _ [|i] a b Ha Hb; done.
  - rewrite andb_true_iff, Nat.eqb_eq, IH. split.
    + intros [-> Hc] [|i] a b Ha Hb.
      * injection Ha as <-. injection Hb as <-. lia.
      * by apply (Hc i).
    + intros Hc. split.
      * specialize (Hc 0 x y eq_refl eq_refl). lia.
      * intros i a b Ha Hb. by apply (Hc (S i)).
Qed.

Definition in_range (num_pages : nat) (i : nat) : Prop := 1 <= i <= num_pages.

Lemma cover_pages_spec num_pages grp : forall covered out,
  cover_pages num_pages grp covered = inr out
  <-> (forall i, i ∈ out <-> i ∈ covered \/ i ∈ grp)
      /\ Forall (in_range num_pages) grp
      /\ NoDup grp
      /\ (forall i, i ∈ grp -> i ∉ covered).
Proof.
  induction grp as [|x grp IH]; intros covered out; cbn [cover_pages].
  - split.
    + intros [= <-]. split; [|split; [|split]]; [| constructor | constructor |].
      * intros i. rewrite elem_of_nil. tauto.
      * intros i Hi. by apply elem_of_nil in Hi.
    + intros (Hout & _). f_equal. apply set_eq. intros i. rewrite Hout.
      rewrite elem_of_nil. tauto.
  - destruct (Nat.ltb_spec x 1) as [Hlo|Hlo]; cbn [orb].
    { split; [done|]. intros (_ & Hr & _). apply Forall_inv in Hr.
      unfold in_range in Hr. lia. }
    destruct (Nat.ltb_spec num_pages x) as [Hhi|Hhi].
    { split; [done|]. intros (_ & Hr & _). apply Forall_inv in Hr.
      unfold in_range in Hr. lia. }
    case_bool_decide as Hcov.
    { split; [done|]. intros (_ & _ & _ & Hfresh).
      destruct (Hfresh x); [by left | done]. }
    rewrite IH. split.
    + intros (Hout & Hr & Hnd & Hfresh). split; [|split; [|split]].
      * intros i. rewrite Hout, elem_of_union, elem_of_singleton, elem_of_cons.
        tauto.
      * constructor; [done | done].
      * constructor; [|done]. intros Hx. apply (Hfresh x Hx).
        apply elem_of_union. right. by apply elem_of_singleton.
      * intros i Hi. apply elem_of_cons in Hi as [->|Hi]; [done|].
        intros Hin. apply (Hfresh i Hi). apply elem_of_union. by left.
    + intros (Hout & Hr & Hnd & Hfresh).
      apply Forall_cons in Hr as [_ Hr]. apply NoDup_cons in Hnd as [Hx Hnd].
      split; [|split; [|split]]; [| done | done |].
      * intros i. rewrite Hout, elem_of_union, elem_of_singleton, elem_of_cons.
        tauto.
      * intros i Hi Hin. apply elem_of_union in Hin as [Hin|Hin].
        -- apply (Hfresh i); [by right | done].
        -- apply elem_of_singleton in Hin as ->. done.
Qed.

Lemma cover_pages_messages num_pages grp : forall covered msg,
  cover_pages num_pages grp covered = inl msg ->
  msg = msg_out_of_range \/ msg = msg_overlapping.
Proof.
  induction grp as [|x grp IH]; intros covered msg; cbn [cover_pages]; [done|].
  destruct (_ || _); [intros [= <-]; by left|].
  case_bool_decide; [intros [= <-]; by right|]. apply IH.
Qed.

Lemma validate_groups_spec num_pages groups : forall validated covered out,
  validate_groups num_pages groups validated covered = inr out
  <-> out = validated ++ nonempty_groups groups
      /\ Forall consecutive groups
      /\ Forall (in_range num_pages) (concat groups)
      /\ NoDup (concat groups)
      /\ (forall i, i ∈ concat groups -> i ∉ covered).
Proof.
  induction groups as [|grp groups IH]; intros validated covered out.
  - cbn. rewrite app_nil_r. split.
    + intros [= <-]. repeat split; try constructor.
      intros i Hi. by apply elem_of_nil in Hi.
    + by intros (-> & _).
  - destruct grp as [|x grp].
    + cbn [validate_groups concat app]. unfold nonempty_groups.
      rewrite filter_cons_False by (by intros []). rewrite IH.
      split; intros (Ho & Hc & Hrest); (split; [done|split; [|done]]).
      * constructor; [|done]. by intros i a b Ha.
      * by apply Forall_inv_tail in Hc.
    + cbn [validate_groups]. unfold nonempty_groups.
      rewrite filter_cons_True by done. fold (nonempty_groups groups).
      set (g := x :: grp) in *.
      change (concat (g :: groups)) with (g ++ concat groups).
      destruct (consecutive_pages g) eqn:Hcons; cbn [negb].
      2:{ split; [done|]. intros (_ & Hc & _). apply Forall_inv in Hc.
          apply consecutive_pages_spec in Hc. congruence. }
      apply consecutive_pages_spec in Hcons.
      destruct (cover_pages num_pages g covered) as [msg|cov] eqn:Hcov.
      * split; [done|]. intros (_ & _ & Hr & Hnd & Hfresh).
        apply Forall_app in Hr as [Hr _]. apply NoDup_app in Hnd as (Hnd & _ & _).
        assert (Hok : cover_pages num_pages g covered
                      = inr (covered ∪ list_to_set g)).
        { apply cover_pages_spec. split; [|split; [|split]]; [| done | done |].
          - intros i. by rewrite elem_of_union, elem_of_list_to_set.
          - intros i Hi. apply Hfresh. apply elem_of_app. by left. }
        congruence.
      * apply cover_pages_spec in Hcov as (Hcov & Hr1 & Hnd1 & Hf1).
        rewrite IH, <- app_assoc. cbn [app].
        split.
        -- intros (-> & Hc & Hr & Hnd & Hfresh).
           split; [|split; [|split; [|split]]];
             [done | by constructor | by apply Forall_app | |].
           ++ apply NoDup_app. split; [|split]; [done | | done].
              intros i Hi Hi'. apply (Hfresh i Hi'). apply Hcov. by right.
           ++ intros i Hi. apply elem_of_app in Hi as [Hi|Hi]; [by apply Hf1|].
              intros Hin. apply (Hfresh i Hi). apply Hcov. by left.
        -- intros (-> & Hc & Hr & Hnd & Hfresh).
           apply Forall_inv_tail in Hc. apply Forall_app in Hr as [_ Hr].
           apply NoDup_app in Hnd as (_ & Hdisj & Hnd).
           split; [|split; [|split; [|split]]]; [done..|].
           intros i Hi Hin. apply Hcov in Hin as [Hin|Hin].
           ++ apply (Hfresh i); [|done]. apply elem_of_app. by right.
           ++ by apply (Hdisj i).
Qed.

Lemma validate_groups_messages num_pages groups : forall validated covered msg,
  validate_groups num_pages groups validated covered = inl msg ->
  msg ∈ [msg_not_consecutive; msg_out_of_range; msg_overlapping].
Proof.
  induction groups as [|grp groups IH]; intros validated covered msg; [done|].
  destruct grp as [|x grp]; cbn [validate_groups]; [apply IH|].
  destruct (consecutive_pages (x :: grp)); cbn [negb];
    [|intros [= <-]; by left].
  destruct (cover_pages _ _ _) as [m|cov] eqn:Hcov; [|apply IH].
  intros [= <-]. apply cover_pages_messages in Hcov as [->| ->];
    [right; by left | right; right; by left].
Qed.

(** X1: the validation loop of [process_multi_page_pdf] accepts a tuple of
    groups exactly when every group is internally consecutive, every page
    index lies in [1..num_pages] and no page index occurs twice, within a
    group or across groups; it then hands on the groups in their order
    without the empty ones.  Any other input is rejected with one of the
    three [ValueError] messages. *)
Theorem validate_groups_accepts num_pages groups :
  (forall out,
     validate_groups num_pages groups [] ∅ = inr out
     <-> out = nonempty_groups groups
         /\ Forall consecutive groups
         /\ Forall (in_range num_pages) (concat groups)
         /\ NoDup (concat groups))
  /\ (forall msg,
        validate_groups num_pages groups [] ∅ = inl msg ->
        msg ∈ [msg_not_consecutive; msg_out_of_range; msg_overlapping]).
Proof.
  split; [|apply validate_groups_messages].
  intros out. rewrite validate_groups_spec. cbn [app].
  split; [by intros (? & ? & ? & ? & _)|].
  intros (? & ? & ? & ?). repeat split; [done..|].
  intros i _ Hi. by apply elem_of_empty in Hi.
Qed.

Lemma validate_groups_accepts_witness :
  validate_groups 5 [[1; 2]; []; [4]] [] ∅ = inr [[1; 2]; [4]]
  /\ validate_groups 5 [[1; 2]; [2; 3]] [] ∅ = inl msg_overlapping
  /\ validate_groups 5 [[1; 3]] [] ∅ = inl msg_not_consecutive
  /\ validate_groups 5 [[5; 6]] [] ∅ = inl msg_out_of_range.
Proof.
  split; [|by vm_compute].
  apply (proj1 (validate_groups_accepts 5 [[1; 2]; []; [4]])).
  split; [done|]. split; [|split].
  - repeat constructor; apply consecutive_pages_spec; done.
  - repeat constructor; unfold in_range; lia.
  - apply NoDup_ListNoDup. repeat constructor; simpl; lia.
Defined.

(** *** The detector's groups *)

Section Detected.
Context {Page Info : Type}.
Variable extract_text : Page -> option pystr.
Variable patterns : list (pystr -> option pystr).

Local Abbreviation detect := (detect_invoice_page_groups extract_text patterns).
Local Abbreviation process := (@process_multi_page_pdf Page Info extract_text patterns).

Lemma detect_shape (pages : list Page) :
  concat (detect pages) = seq 1 (length pages)
  /\ Forall (fun g => g <> [] /\ consecutive g) (detect pages).
Proof. apply archive_inv, seg_run_inv. Qed.

Lemma nonempty_groups_all groups :
  Forall (fun g : list nat => g <> []) groups -> nonempty_groups groups = groups.
Proof.
  induction 1 as [|g gs Hg _ IH]; [done|].
  unfold nonempty_groups. rewrite filter_cons_True by done.
  fold (nonempty_groups gs). by rewrite IH.
Qed.

Lemma detected_nonempty (pages : list Page) :
  nonempty_groups (detect pages) = detect pages.
Proof.
  apply nonempty_groups_all. destruct (detect_shape pages) as [_ HF].
  eapply Forall_impl; [exact HF|]. by intros g [? _].
Qed.

Lemma detected_groups_pass_validation (pages : list Page) :
  validate_groups (length pages) (detect pages) [] ∅ = inr (detect pages).
Proof.
  destruct (detect_shape pages) as [Hcat HF].
  apply validate_groups_spec. cbn [app]. rewrite Hcat.
  split; [|split; [|split; [|split]]].
  - by rewrite detected_nonempty.
  - eapply Forall_impl; [exact HF|]. by intros g [_ ?].
  - apply Forall_forall. intros i Hi%list_elem_of_In%in_seq.
    unfold in_range. lia.
  - apply NoDup_ListNoDup, seq_NoDup.
  - intros i _ Hin. by apply elem_of_empty in Hin.
Qed.

(** X2: [process_multi_page_pdf] never rejects the groups of its own
    detector: on a document without pages it returns without touching
    anything, on any other document the validation loop goes through and
    hands the detected groups, unchanged, to [split_pdf_by_page_groups],
    whose outcome is the outcome of the call. *)
Theorem process_multi_page_pdf_splits_detected p base_name (rd : reader) st :
  process p base_name rd st
  = match r_pages rd with
    | [] => (inr tt, st)
    | _ :: _ => split_validated p base_name rd (detect (r_pages rd)) st
    end.
Proof.
  unfold process_multi_page_pdf.
  rewrite detected_groups_pass_validation.
  destruct (detect_shape (r_pages rd)) as [Hcat _].
  destruct (r_pages rd) as [|page pages]; [done|].
  destruct (detect (page :: pages)); [done | done].
Qed.

End Detected.

(** *** Output names *)

Lemma digits_fuel_spec fuel : forall n acc,
  (n < 10 ^ N.of_nat fuel)%N -> fuel <> 0 ->
  exists ds,
    digits_fuel fuel n acc = ds ++ acc
    /\ digit_string ds /\ digits_value ds = n.
Proof.
  induction fuel as [|fuel IH]; intros n acc Hn Hfuel; [done|].
  cbn [digits_fuel].
  destruct (N.ltb_spec n 10) as [Hlt|Hge].
  - exists [(48 + n mod 10)%N]. rewrite N.mod_small by done.
    split; [done|]. split; [split; [done|]|].
    + constructor; [|done]. unfold is_ascii_digit.
      apply andb_true_iff. split; apply N.leb_le; lia.
    + unfold digits_value, digits_value_from. simpl. lia.
  - assert (Hfuel' : fuel <> 0).
    { intros ->. simpl in Hn. lia. }
    assert (Hdiv : (n / 10 < 10 ^ N.of_nat fuel)%N).
    { apply N.Div0.div_lt_upper_bound.
      replace (N.of_nat (S fuel)) with (N.succ (N.of_nat fuel)) in Hn by lia.
      by rewrite N.pow_succ_r' in Hn. }
    destruct (IH (n / 10)%N ((48 + n mod 10)%N :: acc) Hdiv Hfuel')
      as (ds & -> & [Hne Hds] & Hval).
    exists (ds ++ [(48 + n mod 10)%N]). rewrite <- app_assoc.
    split; [done|]. split; [split|].
    + by destruct ds.
    + apply Forall_app. split; [done|]. constructor; [|done].
      unfold is_ascii_digit.
      assert (n mod 10 < 10)%N by (apply N.mod_upper_bound; lia).
      generalize dependent (n mod 10)%N. intros d Hd.
      apply andb_true_iff. split; apply N.leb_le; lia.
    + unfold digits_value, digits_value_from in *.
      rewrite fold_left_app, Hval. simpl.
      assert (Hdm : n = (10 * (n / 10) + n mod 10)%N) by (apply N.div_mod; lia).
      generalize dependent (n mod 10)%N. generalize dependent (n / 10)%N.
      intros q _ _ r Hdm. lia.
Qed.

(** [str(n)] is the decimal numeral of [n]. *)
Lemma str_of_nat_numeral n :
  digit_string (str_of_nat n) /\ digits_value (str_of_nat n) = N.of_nat n.
Proof.
  unfold str_of_nat, str_of_N.
  destruct (digits_fuel_spec (S (N.to_nat (N.log2 (N.of_nat n)))) (N.of_nat n) [])
    as (ds & Heq & Hds & Hval); [|done|].
  - replace (N.of_nat (S (N.to_nat (N.log2 (N.of_nat n)))))
      with (N.succ (N.log2 (N.of_nat n))) by lia.
    destruct (N.eq_dec (N.of_nat n) 0%N) as [->|Hpos]; [done|].
    eapply N.lt_le_trans; [apply N.log2_spec; lia|].
    apply N.pow_le_mono_l. lia.
  - rewrite app_nil_r in Heq. by rewrite Heq.
Qed.

(** What follows [{base_name}-page] in an output name. *)
Definition page_range (start end_ : nat) : pystr :=
  str_of_nat start ++
  (if start =? end_ then u ".pdf" else u "-" ++ str_of_nat end_ ++ u ".pdf").

Lemma new_filename_page_range base_name start end_ :
  new_filename base_name start end_
  = base_name ++ u "-page" ++ page_range start end_.
Proof.
  unfold new_filename, page_range. by destruct (start =? end_).
Qed.

Lemma scan_numeral n rest :
  match rest with
  | [] => True
  | c :: _ => is_ascii_digit c = false /\ c <> 95%N
  end ->
  scan_digits (str_of_nat n ++ rest) 0 0
  = (N.of_nat n, length (str_of_nat n), rest).
Proof.
  intros Hrest. destruct (str_of_nat_numeral n) as [[_ Hds] Hval].
  rewrite scan_digits_run by done. by rewrite <- Hval.
Qed.

Lemma numeral_inj a b ra rb :
  match ra with [] => True | c :: _ => is_ascii_digit c = false /\ c <> 95%N end ->
  match rb with [] => True | c :: _ => is_ascii_digit c = false /\ c <> 95%N end ->
  str_of_nat a ++ ra = str_of_nat b ++ rb -> a = b /\ ra = rb.
Proof.
  intros Ha Hb Heq.
  pose proof (scan_numeral a ra Ha) as Hsa. rewrite Heq, scan_numeral in Hsa by done.
  injection Hsa as Hn _ Hr. split; [lia | done].
Qed.

Lemma page_range_inj s1 e1 s2 e2 :
  page_range s1 e1 = page_range s2 e2 -> s1 = s2 /\ e1 = e2.
Proof.
  unfold page_range. intros Heq.
  apply numeral_inj in Heq as [<- Hrest];
    [| destruct (s1 =? e1); by vm_compute | destruct (s2 =? e2); by vm_compute].
  split; [done|].
  destruct (Nat.eqb_spec s1 e1) as [H1|Hne1], (Nat.eqb_spec s1 e2) as [H2|Hne2];
    [congruence | discriminate Hrest | discriminate Hrest |].
  injection Hrest as Hrest.
  by apply numeral_inj in Hrest as [? _]; [| by vm_compute | by vm_compute].
Qed.

Lemma page_range_no_e s e : Forall (fun c => c <> 101%N) (page_range s e).
Proof.
  assert (Hd : forall n, Forall (fun c => c <> 101%N) (str_of_nat n)).
  { intros n. destruct (str_of_nat_numeral n) as [[_ Hds] _].
    eapply Forall_impl; [exact Hds|]. intros c Hc%digit_bounds. lia. }
  unfold page_range. apply Forall_app. split; [apply Hd|].
  destruct (s =? e).
  - repeat constructor; done.
  - apply Forall_app. split; [by repeat constructor|].
    apply Forall_app. split; [apply Hd | by repeat constructor].
Qed.

Lemma output_is_no_temp base_name s e s' e' :
  final_path (new_filename base_name s e)
  <> temp_path (new_filename base_name s' e').
Proof.
  unfold final_path, temp_path, child. intros Heq.
  apply app_inv_head in Heq.
  assert (Hn : new_filename base_name s e
               = u ".tmp-" ++ new_filename base_name s' e') by congruence.
  clear Heq. rename Hn into Heq.
  rewrite !new_filename_page_range in Heq.
  change (u "-page") with (u "-pag" ++ [101%N]) in Heq.
  assert (Hl : base_name ++ (u "-pag" ++ [101%N]) ++ page_range s e
               = (base_name ++ u "-pag") ++ 101%N :: page_range s e)
    by by rewrite <- !app_assoc.
  assert (Hr : u ".tmp-" ++ base_name ++ (u "-pag" ++ [101%N]) ++ page_range s' e'
               = (u ".tmp-" ++ base_name ++ u "-pag") ++ 101%N :: page_range s' e')
    by by rewrite <- !app_assoc.
  rewrite Hl, Hr in Heq.
  pose proof (f_equal (Normalizer.after_last 101) Heq) as Htail.
  rewrite !after_last_spec in Htail by apply page_range_no_e.
  apply (f_equal length) in Heq. rewrite Htail in Heq.
  rewrite !length_app in Heq. simpl in Heq. lia.
Qed.

Lemma new_filename_inj base_name s1 e1 s2 e2 :
  new_filename base_name s1 e1 = new_filename base_name s2 e2 ->
  s1 = s2 /\ e1 = e2.
Proof.
  intros Heq. rewrite !new_filename_page_range in Heq.
  apply app_inv_head, app_inv_head in Heq. by apply page_range_inj.
Qed.

Lemma output_names_are_distinct_groups base_name groups :
  Forall (fun g => g <> []) groups -> NoDup (concat groups) ->
  outputs_distinct base_name groups.
Proof.
  induction groups as [|g groups IH]; intros Hne Hnd; [done|].
  apply Forall_cons in Hne as [Hg Hne].
  cbn [concat] in Hnd. apply NoDup_app in Hnd as (_ & Hdisj & Hnd).
  split; [|by apply IH].
  apply Forall_forall. intros g' Hg'. split; [|apply output_is_no_temp].
  unfold out_path, final_path, child. intros Heq.
  apply app_inv_head in Heq.
  assert (Hn : group_filename base_name g = group_filename base_name g')
    by congruence.
  apply new_filename_inj in Hn as [Hhd _].
  assert (Hg'ne : g' <> []) by by eapply Forall_forall in Hne.
  destruct g as [|x g]; [done|]. destruct g' as [|x' g'']; [done|].
  simpl in Hhd. subst x'.
  apply (Hdisj x); [by left|].
  apply list_elem_of_In, in_concat. exists (x :: g''). split.
  - by apply list_elem_of_In.
  - by left.
Qed.

(** X3: the output names of [split_pdf_by_page_groups] tell the page ranges
    apart: two groups whose first or last page differ get different file
    names, and no output is the temporary file of any group, whatever the
    stem of the source.  So the outputs of non-empty groups that share no
    page never overwrite each other. *)
Theorem output_names_are_distinct base_name :
  (forall s1 e1 s2 e2,
     new_filename base_name s1 e1 = new_filename base_name s2 e2 ->
     s1 = s2 /\ e1 = e2)
  /\ (forall s e s' e',
        final_path (new_filename base_name s e)
        <> temp_path (new_filename base_name s' e'))
  /\ (forall groups,
        Forall (fun g => g <> []) groups -> NoDup (concat groups) ->
        outputs_distinct base_name groups).
Proof.
  split; [apply new_filename_inj|].
  split; [apply output_is_no_temp | apply output_names_are_distinct_groups].
Qed.

Lemma output_names_are_distinct_witness :
  new_filename (u "inv") 1 2 <> new_filename (u "inv") 1 3
  /\ outputs_distinct (u "inv") [[1; 2]; [3]].
Proof.
  split.
  - intros Heq.
    by destruct (proj1 (output_names_are_distinct (u "inv")) 1 2 1 3 Heq).
  - apply (proj2 (proj2 (output_names_are_distinct (u "inv")))).
    + repeat constructor; done.
    + apply NoDup_ListNoDup. repeat constructor; simpl; lia.
Defined.

(** *** Pages of a group *)

Section Pages.
Context {Page Info : Type}.
Variable extract_text : Page -> option pystr.
Variable patterns : list (pystr -> option pystr).

Lemma page_at_in_range (pages : list Page) i :
  in_range (length pages) i -> page_at pages i = pages !! (i - 1).
Proof.
  intros [Hlo Hhi]. unfold page_at.
  destruct (Z.ltb_spec (Z.of_nat i - 1) 0) as [?|_]; [lia|].
  destruct (Z.ltb_spec (Z.of_nat i - 1) 0) as [?|_]; [lia|].
  f_equal. lia.
Qed.

Lemma page_at_beyond (pages : list Page) i :
  length pages < i -> page_at pages i = None.
Proof.
  intros Hhi. unfold page_at.
  destruct (Z.ltb_spec (Z.of_nat i - 1) 0) as [?|_]; [lia|].
  destruct (Z.ltb_spec (Z.of_nat i - 1) 0) as [?|_]; [lia|].
  apply lookup_ge_None. lia.
Qed.

Lemma page_at_zero (pages : list Page) :
  page_at pages 0 = pages !! (length pages - 1)
  /\ (pages = [] -> page_at pages 0 = None).
Proof.
  unfold page_at. change (Z.of_nat 0 - 1)%Z with (-1)%Z. cbn [Z.ltb Z.compare].
  split; [|by intros ->].
  destruct pages as [|page pages]; [done|].
  destruct (Z.ltb_spec (-1 + Z.of_nat (length (page :: pages))) 0) as [Hn|_].
  { simpl in Hn. lia. }
  f_equal. simpl. lia.
Qed.

(** X5: the page lookup [reader.pages[page_index - 1]] of
    [split_pdf_by_page_groups] is safe on the groups that the validation
    of [process_multi_page_pdf] lets through, and only on them: for indices
    within [1..len(pages)] it collects exactly the pages at those
    positions and raises nothing; an index beyond the last page raises
    [IndexError]; the index 0 is not rejected but wraps around to the last
    page of the document. *)
Theorem collect_pages_bounds (pages : list Page) group
    (st : @split_state Page Info) :
  (Forall (in_range (length pages)) group ->
   exists ps,
     collect_pages pages group st = (inr ps, st)
     /\ length ps = length group
     /\ forall k i, group !! k = Some i -> ps !! k = pages !! (i - 1))
  /\ (Exists (fun i => length pages < i) group ->
      collect_pages pages group st = (inl IndexError, st))
  /\ (forall page rest,
        pages = rest ++ [page] ->
        collect_pages pages [0] st = (inr [page], st)).
Proof.
  rewrite !collect_pages_spec. split; [|split].
  - intros Hr.
    assert (Hall : Forall2 (fun i page => pages !! (i - 1) = Some page) group
                     (omap (fun i => pages !! (i - 1)) group)).
    { induction Hr as [|i group Hi _ IH]; [constructor|].
      cbn [omap list_omap].
      destruct (lookup_lt_is_Some_2 pages (i - 1)) as [page Hpage].
      { unfold in_range in Hi. lia. }
      rewrite Hpage. by constructor. }
    exists (omap (fun i => pages !! (i - 1)) group).
    assert (Hm : mapM (page_at pages) group
                 = Some (omap (fun i => pages !! (i - 1)) group)).
    { apply mapM_Some_2.
      assert (Hr' : Forall (in_range (length pages)) group) by done.
      clear -Hall Hr'. induction Hall as [|i page group ps Hi _ IH];
        [constructor|].
      apply Forall_cons in Hr' as [Hin Hr'].
      constructor; [|by apply IH]. by rewrite page_at_in_range. }
    rewrite Hm. split; [done|]. split.
    + symmetry. by eapply Forall2_length.
    + intros k i Hk.
      destruct (Forall2_lookup_l _ _ _ _ _ Hall Hk) as (page & Hps & Hpage).
      by rewrite Hps.
  - intros Hex.
    assert (Hm : mapM (page_at pages) group = None).
    { apply mapM_None_2. eapply Exists_impl; [exact Hex|].
      intros i Hi. by apply page_at_beyond. }
    by rewrite Hm.
  - intros page rest ->. cbn [mapM].
    rewrite (proj1 (page_at_zero _)), length_app. simpl.
    replace (length rest + 1 - 1) with (length rest + 0) by lia.
    rewrite lookup_app_r by lia.
    replace (length rest + 0 - length rest) with 0 by lia. done.
Qed.

Local Abbreviation detect := (detect_invoice_page_groups extract_text patterns).
Local Abbreviation process := (@process_multi_page_pdf Page Info extract_text patterns).

Lemma mapM_concat {A B} (f : A -> option B) gs : forall pss,
  Forall2 (fun g ps => mapM f g = Some ps) gs pss ->
  mapM f (concat gs) = Some (concat pss).
Proof.
  induction gs as [|g gs IH]; intros pss Hall.
  - by apply Forall2_nil_inv_l in Hall as ->.
  - apply Forall2_cons_inv_l in Hall as (ps & pss' & Hg & Hall & ->).
    apply mapM_Some_2. cbn [concat]. apply Forall2_app.
    + by apply mapM_Some_1.
    + apply mapM_Some_1. by apply IH.
Qed.

Lemma all_pages_collected (pages : list Page) :
  mapM (page_at pages) (seq 1 (length pages)) = Some pages.
Proof.
  apply mapM_Some_2, Forall2_same_length_lookup_2.
  - by rewrite length_seq.
  - intros k i page Hi Hpage. apply lookup_seq in Hi as [-> Hk].
    rewrite page_at_in_range by (unfold in_range; lia).
    rewrite <- Hpage. f_equal. lia.
Qed.

(** X4: when [process_multi_page_pdf] returns normally on a document with
    pages whose path lies outside the processed directory, the source file
    is gone and the processed directory holds one PDF per detected group,
    under the name of the group, carrying the [/Info] of the source; taken
    in group order, the pages of these files are exactly the pages of the
    source, none lost, duplicated or reordered. *)
Theorem process_multi_page_pdf_materializes p base_name (rd : reader) st st' :
  (forall name, p <> child PROCESSED_DIR name) ->
  r_pages rd <> [] ->
  process p base_name rd st = (inr tt, st') ->
  files st' !! p = None
  /\ exists contents,
       Forall2 (fun g c =>
                  files st' !! final_path (group_filename base_name g)
                  = Some (Pdf c (r_info rd)))
               (detect (r_pages rd)) contents
       /\ concat contents = r_pages rd.
Proof.
  intros Hp Hpages Hrun.
  unfold process_multi_page_pdf in Hrun.
  rewrite detected_groups_pass_validation in Hrun.
  destruct (detect_shape extract_text patterns (r_pages rd)) as [Hcat HF].
  pose proof (detected_nonempty extract_text patterns (r_pages rd)) as Hne.
  set (gs := detect (r_pages rd)) in *.
  destruct gs as [|g0 gs'] eqn:Hgs.
  { destruct (r_pages rd); done. }
  rewrite <- Hgs in *. clear Hgs g0 gs'.
  unfold split_validated, split_pdf_by_page_groups, bind at 1 in Hrun.
  unfold try_except in Hrun.
  match type of Hrun with context [split_body _ _ _ _ ?s] =>
    destruct (split_body p base_name rd gs s) as [[e|[]] s2] eqn:Hbody end.
  { destruct (handler_spec e s2) as (s3 & Hh & _). rewrite Hh in Hrun. done. }
  injection Hrun as <-.
  unfold split_body, bind in Hbody.
  match type of Hbody with context [write_groups _ _ _ ?s] =>
    destruct (write_groups base_name rd gs s) as [[e1|[]] s1] eqn:Hw end; [done|].
  apply write_groups_spec in Hw as (_ & _ & _ & Hmat).
  apply unlink_spec in Hbody as (_ & Hf2 & Hgone & _).
  split; [by apply Hgone|].
  rewrite Hne in Hmat.
  assert (Hdist : outputs_distinct base_name gs).
  { apply output_names_are_distinct_groups.
    - eapply Forall_impl; [exact HF|]. by intros g [? _].
    - rewrite Hcat. apply NoDup_ListNoDup, seq_NoDup. }
  specialize (Hmat eq_refl Hdist).
  assert (Hall : exists contents,
            Forall2 (fun g c =>
                       mapM (page_at (r_pages rd)) g = Some c
                       /\ files s2 !! final_path (group_filename base_name g)
                          = Some (Pdf c (r_info rd))) gs contents).
  { clear -Hmat Hf2 Hp. induction Hmat as [|g gs (c & Hc & Hfile) _ (cs & IH)].
    - by exists [].
    - exists (c :: cs). constructor; [|done]. split; [done|].
      rewrite Hf2; [done|]. intros Hin. apply list_elem_of_singleton in Hin.
      by eapply Hp. }
  destruct Hall as (contents & Hall). exists contents. split.
  - eapply Forall2_impl; [exact Hall|]. by intros g c [_ ?].
  - assert (Hm : mapM (page_at (r_pages rd)) (concat gs) = Some (concat contents)).
    { apply mapM_concat. eapply Forall2_impl; [exact Hall|]. by intros g c [? _]. }
    rewrite Hcat, all_pages_collected in Hm. congruence.
Qed.

End Pages.

Lemma collect_pages_bounds_witness :
  collect_pages [10; 20; 30] [2; 3] (staged []) = (inr [20; 30], staged [])
  /\ collect_pages [10; 20; 30] [2; 4] (staged []) = (inl IndexError, staged [])
  /\ collect_pages [10; 20; 30] [0] (staged []) = (inr [30], staged []).
Proof.
  destruct (collect_pages_bounds [10; 20; 30] [2; 3] (staged []))
    as (Hin & _ & _).
  destruct (collect_pages_bounds [10; 20; 30] [2; 4] (staged []))
    as (_ & Hout & _).
  destruct (collect_pages_bounds [10; 20; 30] [0] (staged []))
    as (_ & _ & Hzero).
  split; [|split].
  - destruct Hin as (ps & Hrun & _).
    + repeat constructor; unfold in_range; simpl; lia.
    + rewrite Hrun. by vm_compute in Hrun.
  - apply Hout. right. left. simpl. lia.
  - by apply (Hzero 30 [10; 20]).
Defined.

(** The five-page document of the segmentation example, staged as
    [data/staging_area/inv.pdf]. *)
Definition five_page_reader : @reader (option pystr) unit := Reader five_pages None.
Definition five_pages_staged : @split_state (option pystr) unit :=
  SplitState {[ inv_pdf := Pdf five_pages None ]} [] [] [].

Lemma process_multi_page_pdf_materializes_witness :
  let res := process_multi_page_pdf printed_id [whole_text] inv_pdf (u "inv")
               five_page_reader five_pages_staged in
  res.1 = inr tt
  /\ files res.2 !! inv_pdf = None
  /\ exists contents,
       Forall2 (fun g c =>
                  files res.2 !! final_path (group_filename (u "inv") g)
                  = Some (Pdf c None))
               (detect_invoice_page_groups printed_id [whole_text] five_pages)
               contents
       /\ concat contents = five_pages.
Proof.
  intros res.
  assert (Hok : res.1 = inr tt) by by vm_compute.
  split; [done|].
  apply (process_multi_page_pdf_materializes printed_id [whole_text] inv_pdf
           (u "inv") five_page_reader five_pages_staged res.2
           inv_pdf_outside).
  - done.
  - rewrite <- Hok. apply surjective_pairing.
Defined.

(** *** Temporary files *)

Section Temporary.
Context {Page Info : Type}.

Lemma out_is_no_tmp base_name g g' :
  out_path base_name g <> tmp_path base_name g'.
Proof. unfold out_path, tmp_path, group_filename. apply output_is_no_temp. Qed.

Lemma os_replace_moves src dst (st st' : @split_state Page Info) :
  os_replace src dst st = (inr tt, st') -> src <> dst ->
  files st' !! src = None.
Proof.
  unfold os_replace, bind at 1.
  destruct (next_fault_spec st) as (b & s1 & -> & Hf1 & _).
  destruct b; [done|]. rewrite Hf1.
  destruct (files st !! src) as [content|]; [|done].
  unfold set_files. intros [= <-] Hne. cbn [files].
  rewrite lookup_insert_ne by done. apply lookup_delete_eq.
Qed.

Lemma write_groups_clears_temporaries base_name (rd : reader) groups :
  forall (st st' : @split_state Page Info),
    write_groups base_name rd groups st = (inr tt, st') ->
    Forall (fun g => files st' !! tmp_path base_name g = None)
           (nonempty_groups groups).
Proof.
  induction groups as [|group rest IH]; intros st st' Hrun; [constructor|].
  destruct group as [|i g].
  { cbn [write_groups] in Hrun. unfold nonempty_groups.
    rewrite filter_cons_False by (by intros []). by eapply IH. }
  cbn [write_groups] in Hrun. set (group := i :: g) in *.
  unfold nonempty_groups. rewrite filter_cons_True by done.
  fold (nonempty_groups rest).
  unfold bind at 1 in Hrun. rewrite collect_pages_spec in Hrun.
  destruct (mapM (page_at (r_pages rd)) group) as [pages|]; [|done].
  unfold bind at 1 in Hrun.
  destruct (write_file _ _ st) as [[e|[]] s1] eqn:Hwrite; [done|].
  unfold bind at 1 in Hrun.
  destruct (os_replace _ _ s1) as [[e|[]] s2] eqn:Hrep; [done|].
  apply os_replace_moves in Hrep;
    [|intros Heq; symmetry in Heq; by apply (out_is_no_tmp base_name group group)].
  unfold bind at 1, append_created at 1 in Hrun.
  pose proof (IH _ _ Hrun) as Hrest.
  apply write_groups_spec in Hrun as (_ & Hframe & _).
  constructor; [|done].
  destruct (decide (tmp_path base_name group ∈ touched base_name rest))
    as [Hin|Hout].
  - unfold touched in Hin.
    apply list_elem_of_In, in_flat_map in Hin as (g' & Hg' & Hq).
    apply list_elem_of_In in Hg'. rewrite Forall_forall in Hrest.
    simpl in Hq. destruct Hq as [Hq|[Hq|[]]].
    + rewrite <- Hq. by apply Hrest.
    + by destruct (out_is_no_tmp base_name g' group).
  - by rewrite Hframe.
Qed.

(** X21: a split that succeeds leaves no temporary file behind: when
    [split_pdf_by_page_groups] returns normally, none of the [.tmp-] files
    it wrote for its groups exists any more, each having been renamed to
    its output. *)
Theorem no_temporary_file_survives_success p base_name (rd : reader) groups
    (st0 st1 : @split_state Page Info) :
  split_pdf_by_page_groups p base_name rd groups st0 = (inr tt, st1) ->
  Forall (fun g => files st1 !! temp_path (group_filename base_name g) = None)
         (nonempty_groups groups).
Proof.
  intros Hrun.
  unfold split_pdf_by_page_groups, bind at 1, try_except in Hrun.
  match type of Hrun with context [split_body _ _ _ _ ?s] =>
    destruct (split_body p base_name rd groups s) as [[e|[]] s2] eqn:Hbody end.
  { destruct (handler_spec e s2) as (s3 & Hh & _). by rewrite Hh in Hrun. }
  injection Hrun as <-.
  unfold split_body, bind in Hbody.
  match type of Hbody with context [write_groups _ _ _ ?s] =>
    destruct (write_groups base_name rd groups s) as [[e1|[]] s1] eqn:Hw end;
    [done|].
  apply write_groups_clears_temporaries in Hw.
  apply unlink_spec in Hbody as (_ & Hf2 & Hgone & _).
  eapply Forall_impl; [exact Hw|]. intros g Hg. cbn beta in *.
  destruct (decide (tmp_path base_name g = p)) as [<-|Hne].
  - by apply Hgone.
  - rewrite Hf2; [done|]. intros Hin. by apply list_elem_of_singleton in Hin.
Qed.

End Temporary.

Lemma no_temporary_file_survives_success_witness :
  let res := split_pdf_by_page_groups inv_pdf (u "inv") inv_reader page_by_page
               (staged []) in
  files res.2 !! temp_path (u "inv-page1.pdf") = None
  /\ files res.2 !! temp_path (u "inv-page2.pdf") = None.
Proof.
  intros res.
  assert (Hok : res.1 = inr tt) by by vm_compute.
  pose proof (no_temporary_file_survives_success inv_pdf (u "inv") inv_reader
                page_by_page (staged []) res.2) as Hall.
  rewrite <- Hok in Hall. specialize (Hall (surjective_pairing _)).
  apply Forall_cons in Hall as [H1 Hall]. apply Forall_cons in Hall as [H2 _].
  split; [exact H1 | exact H2].
Defined.

End RegularizerFacts.

(** ** Vendor registry *)

Module RegistryFacts.
Import ResolverFacts.

Section Facts.
Context `{Collaborators}.

Local Abbreviation for_vendor o := (fun t : template_doc => bool_decide (t_vendor_id t = o)).

Lemma find_upsert_same o patterns ts :
  List.find (for_vendor o) (upsert_template o patterns ts)
  = Some (TemplateDoc o (Some patterns)).
Proof.
  induction ts as [|t ts IH]; cbn [upsert_template].
  - cbn. by rewrite bool_decide_eq_true_2.
  - case_bool_decide as Ht; cbn [List.find].
    + cbn. by rewrite bool_decide_eq_true_2.
    + by rewrite bool_decide_eq_false_2.
Qed.

Lemma find_upsert_other o o' patterns ts :
  o' <> o ->
  List.find (for_vendor o') (upsert_template o patterns ts)
  = List.find (for_vendor o') ts.
Proof.
  intros Hne. induction ts as [|t ts IH]; cbn [upsert_template].
  - cbn. by rewrite bool_decide_eq_false_2 by congruence.
  - case_bool_decide as Ht; cbn [List.find].
    + cbn. rewrite !bool_decide_eq_false_2 by congruence. done.
    + by rewrite IH.
Qed.

Lemma upsert_vendor_ids o patterns ts :
  map t_vendor_id (upsert_template o patterns ts)
  = if bool_decide (o ∈ map t_vendor_id ts) then map t_vendor_id ts
    else map t_vendor_id ts ++ [o].
Proof.
  induction ts as [|t ts IH]; cbn [upsert_template map].
  - rewrite bool_decide_eq_false_2; [done|]. by intros ?%elem_of_nil.
  - destruct (decide (t_vendor_id t = o)) as [Ht|Ht].
    + rewrite (bool_decide_eq_true_2 _ Ht). cbn [map t_vendor_id].
      rewrite bool_decide_eq_true_2; [by rewrite Ht|]. rewrite Ht. by left.
    + rewrite (bool_decide_eq_false_2 _ Ht). cbn [map]. rewrite IH.
      destruct (decide (o ∈ map t_vendor_id ts)) as [Hin|Hin].
      * rewrite (bool_decide_eq_true_2 _ Hin).
        rewrite bool_decide_eq_true_2; [done|]. by right.
      * rewrite (bool_decide_eq_false_2 _ Hin).
        rewrite bool_decide_eq_false_2; [done|].
        intros [?|?]%elem_of_cons; congruence.
Qed.

(** The patterns stored for a vendor id, as [get_vendor_regex_patterns]
    reads them. *)
Definition stored_patterns (o : oid) (w : world) : list pyval :=
  match List.find (for_vendor o) (w_templates w) with
  | Some t => default [] (t_regex_patterns t)
  | None => []
  end.

Lemma get_vendor_regex_patterns_run vid o w :
  truthy vid = true -> ObjectId vid = Some o ->
  get_vendor_regex_patterns vid w
  = (inr (stored_patterns o w), add_log w [EvFindTemplate o]).
Proof.
  intros Ht Ho. unfold get_vendor_regex_patterns. by rewrite Ht, Ho.
Qed.

Lemma flatten_patterns_length regexes patterns :
  flatten_patterns regexes = Some patterns -> length patterns = 11.
Proof.
  unfold flatten_patterns.
  destruct (level_dict (u "invoice_level") regexes); [|done].
  cbn [mbind option_bind].
  destruct (level_dict (u "line_item_level") regexes); [|done].
  cbn [mbind option_bind].
  by intros [= <-].
Qed.

Lemma saved_template_is_read_back_lemma vid o regexes patterns w :
  truthy vid = true -> ObjectId vid = Some o ->
  regexes <> [] -> flatten_patterns regexes = Some patterns ->
  exists w1,
    save_vendor_regex_template (Some vid) (VDict regexes) w = (inr tt, w1)
    /\ w_log w1 = w_log w ++ [EvUpsertTemplate o patterns]
    /\ w_vendors w1 = w_vendors w
    /\ (get_vendor_regex_patterns vid w1).1 = inr patterns
    /\ length patterns = 11
    /\ (forall o', o' <> o -> stored_patterns o' w1 = stored_patterns o' w)
    /\ map t_vendor_id (w_templates w1)
       = if bool_decide (o ∈ map t_vendor_id (w_templates w))
         then map t_vendor_id (w_templates w)
         else map t_vendor_id (w_templates w) ++ [o].
Proof.
  intros Ht Ho Hne Hflat.
  unfold save_vendor_regex_template. rewrite Ht, Ho, Hflat.
  destruct regexes as [|kv regexes]; [done|]. cbn [py_truthy negb orb].
  eexists. split; [reflexivity|]. cbn [w_log w_vendors w_templates].
  split; [done|]. split; [done|]. split; [|split; [|split]].
  - rewrite (get_vendor_regex_patterns_run vid o) by done.
    unfold stored_patterns. cbn [w_templates fst].
    by rewrite find_upsert_same.
  - by eapply flatten_patterns_length.
  - intros o' Hne'. unfold stored_patterns. cbn [w_templates].
    by rewrite find_upsert_other.
  - apply upsert_vendor_ids.
Qed.

(** X6: a template saved with [save_vendor_regex_template] is what
    [get_vendor_regex_patterns] reads back for that vendor: the eleven
    patterns in the fixed order of the stored template.  The save replaces
    an earlier template of the vendor instead of adding a second one, and
    leaves the templates of every other vendor as they were. *)
Theorem saved_template_is_read_back vid o regexes patterns w :
  truthy vid = true -> ObjectId vid = Some o ->
  regexes <> [] -> flatten_patterns regexes = Some patterns ->
  exists w1,
    save_vendor_regex_template (Some vid) (VDict regexes) w = (inr tt, w1)
    /\ w_log w1 = w_log w ++ [EvUpsertTemplate o patterns]
    /\ w_vendors w1 = w_vendors w
    /\ (get_vendor_regex_patterns vid w1).1 = inr patterns
    /\ length patterns = 11
    /\ (forall o', o' <> o -> stored_patterns o' w1 = stored_patterns o' w)
    /\ map t_vendor_id (w_templates w1)
       = if bool_decide (o ∈ map t_vendor_id (w_templates w))
         then map t_vendor_id (w_templates w)
         else map t_vendor_id (w_templates w) ++ [o].
Proof. apply saved_template_is_read_back_lemma. Qed.

Lemma find_fresh_vendor o doc vendors :
  existsb (fun d => bool_decide (v_id d = o)) vendors = false ->
  v_id doc = o ->
  List.find (fun d => bool_decide (v_id d = o)) (vendors ++ [doc]) = Some doc.
Proof.
  intros Hfresh Hid. induction vendors as [|d vendors IH]; cbn.
  - by rewrite bool_decide_eq_true_2.
  - cbn in Hfresh. apply orb_false_iff in Hfresh as [Hd Hfresh].
    rewrite Hd. by apply IH.
Qed.

(** X7: [create_vendor] never raises.  When it returns an id, one document
    has been appended to the vendors collection, under that id, with the
    given name and exactly the contact fields that are not [None], and
    [get_vendor_name_by_id] on the returned id gives the name back.  When
    it returns [None] (no usable [vendor_name], or the insert failed) the
    collection is what it was. *)
Theorem created_vendor_is_found vendor_data w :
  exists r w1,
    create_vendor vendor_data w = (inr r, w1)
    /\ w_templates w1 = w_templates w
    /\ match r with
       | Some vid =>
           exists o,
             vid = oid_str o
             /\ py_truthy (get (u "vendor_name") vendor_data) = true
             /\ w_vendors w1 =
                  w_vendors w ++
                  [VendorDoc o (Some (get (u "vendor_name") vendor_data))
                     (sparse (get (u "vendor_email_id") vendor_data))
                     (sparse (get (u "vendor_phone_number") vendor_data))
                     (sparse (get (u "vendor_physical_address") vendor_data))
                     (sparse (get (u "vendor_website") vendor_data))]
             /\ (get_vendor_name_by_id vid w1).1
                = inr (get (u "vendor_name") vendor_data)
       | None => w_vendors w1 = w_vendors w
       end.
Proof.
  unfold create_vendor.
  destruct (py_truthy (get (u "vendor_name") vendor_data)) eqn:Hname; cbn [negb].
  2:{ by exists None, w. }
  unfold try_except, bind, insert_one_vendor.
  destruct (existsb _ (w_vendors w)) eqn:Hfresh.
  { eexists None, _. split; [reflexivity|]. done. }
  eexists (Some _), _. split; [reflexivity|]. cbn [w_templates w_vendors].
  split; [done|]. eexists. split; [reflexivity|]. split; [done|].
  split; [done|].
  unfold get_vendor_name_by_id.
  rewrite oid_str_truthy, ObjectId_str. cbn [negb].
  unfold bind, emit. cbn [w_vendors fst].
  by rewrite find_fresh_vendor.
Qed.

End Facts.

Section Examples.
Local Existing Instance Scripted.scripted.

Lemma saved_template_is_read_back_witness :
  exists w1,
    save_vendor_regex_template (Some (u "x7")) Scripted.phase2_answer
      (two_vendors []) = (inr tt, w1)
    /\ (get_vendor_regex_patterns (u "x7") w1).1
       = inr [ VStr (u "Invoice #(\d+)"); VStr (u "Date: (\S+)");
               VStr (u "Total: (\S+)"); VStr [];
               VStr (u "Description"); VStr (u "Subtotal");
               VStr (u "\s(\d+)\s"); VStr (u "^(\D+?)\s");
               VStr (u "\s(EA|LB)\s"); VStr (u "(\d+\.\d{2})\s");
               VStr (u "(\d+\.\d{2})$") ].
Proof.
  destruct (saved_template_is_read_back (u "x7") (u "7" : @oid Scripted.scripted)
              [ (u "invoice_level", VDict Scripted.good_invoice_level);
                (u "line_item_level",
                 VDict (Scripted.line_item_level_with (u "Description")
                          (u "\s(EA|LB)\s"))) ]
              _ (two_vendors []) eq_refl eq_refl ltac:(done) eq_refl)
    as (w1 & Hsave & _ & _ & Hget & _).
  exists w1. split; [exact Hsave | exact Hget].
Defined.

End Examples.

End RegistryFacts.

(** ** Normalization of names and of language-model answers *)

Module AnswerFacts.
Import CurrencyFacts.

(** Induction over nested values. *)
Lemma pyval_nested_ind (P : pyval -> Prop) :
  P VNone -> (forall b, P (VBool b)) -> (forall z, P (VInt z)) ->
  (forall s, P (VStr s)) ->
  (forall l, Forall P l -> P (VList l)) ->
  (forall d, Forall (fun kv => P kv.2) d -> P (VDict d)) ->
  forall v, P v.
Proof.
  intros HN HB HI HS HL HD. fix IH 1. intros [|b|z|s|l|d].
  - exact HN.
  - apply HB.
  - apply HI.
  - apply HS.
  - apply HL. induction l as [|x l IHl]; constructor; [apply IH | exact IHl].
  - apply HD. induction d as [|[k x] d IHd]; constructor; [apply IH | exact IHd].
Qed.

(** A string that [_coerce_none_values] takes for a missing value. *)
Definition placeholder (s : pystr) : bool :=
  bool_decide (strip s ∈ [u "None"; u "null"; []]).

(** No string anywhere inside the value is a placeholder. *)
Fixpoint placeholder_free (v : pyval) : bool :=
  match v with
  | VStr s => negb (placeholder s)
  | VList l => forallb placeholder_free l
  | VDict d =>
      (fix entries (d : list (pystr * pyval)) : bool :=
         match d with
         | [] => true
         | (_, x) :: d' => placeholder_free x && entries d'
         end) d
  | _ => true
  end.

(** The entries of a coerced dictionary. *)
Definition coerce_entries (d : list (pystr * pyval)) : list (pystr * pyval) :=
  map (fun kv => (kv.1, _coerce_none_values kv.2)) d.

Lemma coerce_dict d : _coerce_none_values (VDict d) = VDict (coerce_entries d).
Proof.
  cbn [_coerce_none_values]. f_equal.
  induction d as [|[k x] d IH]; [done|]. cbn [coerce_entries map fst snd].
  by rewrite IH.
Qed.

Lemma placeholder_free_dict d :
  placeholder_free (VDict d) = forallb (fun kv => placeholder_free kv.2) d.
Proof.
  cbn [placeholder_free]. induction d as [|[k x] d IH]; [done|].
  cbn [forallb snd]. by rewrite IH.
Qed.

Lemma coerce_dict_get k d :
  dict_get k (coerce_entries d) = option_map _coerce_none_values (dict_get k d).
Proof.
  induction d as [|[k' x] d IH]; [done|].
  cbn [coerce_entries map dict_get fst snd]. by destruct (decide (k' = k)).
Qed.

(** X8: [_coerce_none_values] is a normal form.  After it no string inside
    the value, at any depth, is one of the placeholders ["None"], ["null"]
    or blank; applying it a second time changes nothing; it keeps the keys
    of every dictionary, in order, and the length of every list, and a key
    is looked up in the coerced dictionary with the coerced value. *)
Theorem coerce_none_values_normal_form :
  (forall v, placeholder_free (_coerce_none_values v) = true)
  /\ (forall v, _coerce_none_values (_coerce_none_values v) = _coerce_none_values v)
  /\ (forall d,
        exists d', _coerce_none_values (VDict d) = VDict d'
                   /\ map fst d' = map fst d
                   /\ forall k, dict_get k d'
                                = option_map _coerce_none_values (dict_get k d))
  /\ (forall l,
        exists l', _coerce_none_values (VList l) = VList l'
                   /\ length l' = length l).
Proof.
  split; [|split; [|split]].
  - induction v as [| | |s|l IH|d IH] using pyval_nested_ind; try done.
    + cbn [_coerce_none_values]. fold (placeholder s).
      destruct (placeholder s) eqn:Hs; [done|]. cbn [placeholder_free].
      by rewrite Hs.
    + cbn [_coerce_none_values placeholder_free]. rewrite forallb_forall.
      intros x Hx%in_map_iff. destruct Hx as (y & <- & Hy).
      rewrite List.Forall_forall in IH. by apply IH.
    + rewrite coerce_dict, placeholder_free_dict, forallb_forall.
      intros kv Hkv%in_map_iff. destruct Hkv as ([k y] & <- & Hy).
      rewrite List.Forall_forall in IH. by apply (IH (k, y)).
  - induction v as [| | |s|l IH|d IH] using pyval_nested_ind; try done.
    + cbn [_coerce_none_values]. fold (placeholder s).
      destruct (placeholder s) eqn:Hs; [done|]. cbn [_coerce_none_values].
      fold (placeholder s). by rewrite Hs.
    + cbn [_coerce_none_values]. f_equal. rewrite map_map.
      apply map_ext_Forall. exact IH.
    + rewrite !coerce_dict. f_equal. unfold coerce_entries. rewrite map_map.
      apply map_ext_Forall. eapply List.Forall_impl; [|exact IH].
      intros [k x] Hx. cbn [fst snd] in *. by rewrite Hx.
  - intros d. exists (coerce_entries d). split; [apply coerce_dict|]. split.
    + unfold coerce_entries. rewrite map_map. by apply map_ext.
    + intros k. apply coerce_dict_get.
  - intros l. eexists. split; [reflexivity|]. apply length_map.
Qed.

(** *** Names *)

Definition name_char (c : N) : Prop := is_ascii_lower c || is_ascii_digit c = true.

Lemma name_char_bounds c :
  name_char c -> (48 <= c <= 57)%N \/ (97 <= c <= 122)%N.
Proof.
  unfold name_char, is_ascii_lower, is_ascii_digit.
  intros [Hc|Hc]%orb_true_iff; apply andb_prop in Hc as [H1 H2];
    apply N.leb_le in H1, H2; lia.
Qed.

Lemma name_char_not_space c : name_char c -> py_isspace c = false.
Proof.
  intros Hc%name_char_bounds. unfold py_isspace. by decide_comparisons.
Qed.

Lemma name_char_lower c : name_char c -> lower_char c = [c].
Proof.
  intros Hc%name_char_bounds. unfold lower_char, is_ascii_upper.
  by decide_comparisons.
Qed.

Lemma py_lower_name s : Forall name_char s -> py_lower s = s.
Proof.
  induction 1 as [|c s Hc _ IH]; [done|].
  unfold py_lower in *. cbn [flat_map]. by rewrite name_char_lower, IH.
Qed.

Lemma lstrip_name s : Forall name_char s -> lstrip s = s.
Proof.
  destruct 1 as [|c s Hc _]; [done|]. cbn. by rewrite name_char_not_space.
Qed.

Lemma strip_name s : Forall name_char s -> strip s = s.
Proof.
  intros Hs. unfold strip, rstrip. rewrite (lstrip_name s Hs).
  rewrite lstrip_name by by apply Forall_rev. apply rev_involutive.
Qed.

Lemma normalize_name_chars name :
  Forall name_char (_normalize_name name)
  /\ _normalize_name (_normalize_name name) = _normalize_name name.
Proof.
  assert (Hchars : Forall name_char (_normalize_name name)).
  { unfold _normalize_name. destruct (truthy name); cbn [negb]; [|constructor].
    apply Forall_forall. intros c Hc. by apply list_elem_of_filter in Hc as [? _]. }
  split; [done|].
  generalize dependent (_normalize_name name). intros r Hr.
  unfold _normalize_name. destruct r as [|c r]; [done|]. cbn [truthy negb].
  rewrite py_lower_name, strip_name by done.
  induction Hr as [|x l Hx _ IH]; [done|].
  rewrite filter_cons_True by done. by rewrite IH.
Qed.

(** X9: [_normalize_name] returns a string over [a-z0-9] only, and is
    idempotent: a normalized name is its own normal form, so the registry
    is queried with the same key however often a name is normalized.  An
    empty name normalizes to the empty string. *)
Theorem normalize_name_normal_form name :
  Forall name_char (_normalize_name name)
  /\ _normalize_name (_normalize_name name) = _normalize_name name
  /\ _normalize_name [] = [].
Proof.
  destruct (normalize_name_chars name) as [? ?]. by repeat split.
Qed.

End AnswerFacts.

(** ** Paths of the vendor resolution *)

Module ResolutionFacts.
Import ResolverFacts.

(** *** Shape of an accepted phase-1 answer *)

(** The value is a dictionary that has all of the keys. *)
Definition has_keys (ks : list pystr) (v : pyval) : Prop :=
  exists d, v = VDict d /\ Forall (fun k => has_key k d = true) ks.

(** Reads [inr a = inr b] without computing in [a]. *)
Ltac inr_inv H :=
  match type of H with
  | inr ?a = inr ?b => assert (b = a) as -> by congruence; clear H
  end.

Lemma dict_get_set_same k v d : dict_get k (dict_set k v d) = Some v.
Proof.
  induction d as [|[k' v'] d IH]; cbn [dict_set dict_get].
  - by rewrite decide_True.
  - destruct (decide (k' = k)) as [->|Hne]; cbn [dict_get].
    + by rewrite decide_True.
    + by rewrite decide_False.
Qed.

Lemma dict_get_set_other k k' v d :
  k <> k' -> dict_get k' (dict_set k v d) = dict_get k' d.
Proof.
  intros Hne. induction d as [|[k0 v0] d IH]; cbn [dict_set dict_get].
  - by rewrite decide_False.
  - destruct (decide (k0 = k)) as [->|Hne0]; cbn [dict_get].
    + by rewrite !decide_False.
    + by rewrite IH.
Qed.

Lemma has_key_set k k' v d :
  has_key k' (dict_set k v d) = true <-> k' = k \/ has_key k' d = true.
Proof.
  unfold has_key. rewrite !bool_decide_eq_true.
  destruct (decide (k = k')) as [->|Hne].
  - rewrite dict_get_set_same. split; [by left | by eexists].
  - rewrite dict_get_set_other by done. split; [by right|].
    by intros [->|?].
Qed.

Lemma fill_missing_keys keys : forall d k,
  has_key k (fill_missing keys d) = true <-> k ∈ keys \/ has_key k d = true.
Proof.
  unfold fill_missing.
  induction keys as [|k0 keys IH]; intros d k; cbn [fold_left].
  - rewrite elem_of_nil. tauto.
  - rewrite IH, elem_of_cons. destruct (has_key k0 d) eqn:Hk0.
    + split; [tauto|]. intros [[->|?]|?]; tauto.
    + rewrite has_key_set. tauto.
Qed.

Lemma missing_keys_none required d :
  missing_keys required d = [] -> Forall (fun k => has_key k d = true) required.
Proof.
  unfold missing_keys. induction required as [|k ks IH]; [constructor|].
  destruct (has_key k d) eqn:Hk.
  - rewrite filter_cons_False by congruence. intros Hn. constructor; auto.
  - by rewrite filter_cons_True.
Qed.

Definition item_keys : list pystr :=
  [u "description"; u "line_total"; u "quantity"; u "unit_price"].

Lemma check_items_shape items : forall idx items',
  check_items idx items = inr items' ->
  length items' = length items /\ Forall (has_keys item_keys) items'.
Proof.
  induction items as [|item items IH]; intros idx items'; cbn [check_items].
  - by intros [= <-].
  - destruct item as [| | | | |d]; try done.
    destruct (missing_keys _ d) as [|? ?] eqn:Hmiss; [|done].
    destruct (check_items (S idx) items) as [?|rest] eqn:Hrest; [done|].
    intros Heq. inr_inv Heq. apply IH in Hrest as [Hlen Hall].
    split; [simpl; by rewrite Hlen|]. constructor; [|done].
    eexists. split; [reflexivity|].
    apply missing_keys_none in Hmiss.
    apply Forall_forall. intros k Hk. apply fill_missing_keys.
    rewrite Forall_forall in Hmiss.
    unfold item_keys in Hk. rewrite !elem_of_cons, elem_of_nil in Hk.
    destruct Hk as [->|[->|[->|[->|[]]]]].
    + right. apply Hmiss. by left.
    + right. apply Hmiss. right. by left.
    + left. by left.
    + left. right. by left.
Qed.

Definition invoice_keys : list pystr :=
  [u "invoice_date"; u "invoice_number"; u "invoice_total_amount"].

Definition vendor_keys : list pystr :=
  [u "vendor_name"; u "vendor_email_id"; u "vendor_phone_number";
   u "vendor_physical_address"; u "vendor_website"].

(** What every accepted phase-1 answer looks like. *)
Definition phase1_shape (out : pyval) : Prop :=
  exists d items,
    out = VDict d
    /\ has_keys invoice_keys (get (u "invoice_details") d)
    /\ has_keys vendor_keys (get (u "vendor_master_data") d)
    /\ get (u "line_items") d = VList items
    /\ Forall (has_keys item_keys) items.

Lemma phase1_validate_shape parsed out :
  phase1_validate parsed = inr out -> phase1_shape out.
Proof.
  unfold phase1_validate.
  destruct (_coerce_none_values parsed) as [| | | | |d]; try done.
  destruct (missing_keys _ d) as [|? ?]; [|done].
  destruct (get (u "invoice_details") d) as [| | | | |invoice]; try done.
  destruct (missing_keys _ invoice) as [|? ?] eqn:Hinv; [|done].
  destruct (get (u "vendor_master_data") d) as [| | | | |vendor]; try done.
  destruct (missing_keys _ vendor) as [|? ?] eqn:Hven; [|done].
  destruct (get (u "line_items") d) as [| | | |items|]; try done.
  destruct (check_items 0 items) as [?|items'] eqn:Hitems; [done|].
  intros Heq. inr_inv Heq. apply check_items_shape in Hitems as [_ Hitems].
  eexists _, items'. split; [reflexivity|].
  unfold get.
  rewrite dict_get_set_same.
  rewrite (dict_get_set_other (u "line_items") (u "vendor_master_data")) by done.
  rewrite dict_get_set_same.
  rewrite (dict_get_set_other (u "line_items") (u "invoice_details")) by done.
  rewrite (dict_get_set_other (u "vendor_master_data") (u "invoice_details")) by done.
  rewrite dict_get_set_same. cbn [default from_option id].
  split; [|split; [|split]]; [| | done | done].
  - eexists. split; [reflexivity|]. by apply missing_keys_none.
  - eexists. split; [reflexivity|]. apply missing_keys_none in Hven.
    apply Forall_forall. intros k Hk. apply fill_missing_keys.
    unfold vendor_keys in Hk. apply elem_of_cons in Hk as [->|Hk].
    + right. by apply Forall_inv in Hven.
    + by left.
Qed.

Section Facts.
Context `{Collaborators}.

(** The registry is what it was. *)
Definition same_registry (w w' : world) : Prop :=
  w_vendors w' = w_vendors w /\ w_templates w' = w_templates w.

Lemma same_registry_refl w : same_registry w w.
Proof. done. Qed.


Lemma call_llm_frame p w r w' :
  call_llm p w = (r, w') ->
  same_registry w w' /\ w_log w' = w_log w ++ [EvLLM p].
Proof.
  unfold call_llm, bind, emit. cbn [w_llm].
  destruct (call_llm_api p (w_llm w)) as [r0 l']. by intros [= <- <-].
Qed.

(** X10: an answer that [llm_phase1_extract] returns has the shape the rest
    of the pipeline indexes without checking: the three top-level entries;
    [invoice_details] with its three keys; [vendor_master_data] with
    [vendor_name] and the four contact keys, the absent ones filled in;
    [line_items] a list of dictionaries that each have [description],
    [line_total], [quantity] and [unit_price].  The call sends exactly one
    prompt to the language model and leaves the registry alone. *)
Theorem phase1_answer_shape text w out w' :
  llm_phase1_extract text w = (inr out, w') ->
  phase1_shape out
  /\ same_registry w w'
  /\ w_log w' = w_log w ++ [EvLLM (Phase1Prompt text)].
Proof.
  unfold llm_phase1_extract, bind.
  destruct (call_llm (Phase1Prompt text) w) as [[e|parsed] w1] eqn:Hllm; [done|].
  apply call_llm_frame in Hllm as [Hreg Hlog].
  destruct parsed as [| | | | |d]; try done.
  unfold lift. intros [= Hval <-]. split; [|done].
  by eapply phase1_validate_shape.
Qed.










(** X12: when the signals match a registered vendor for which the registry
    holds a template, [identify_vendor_and_get_regex] returns that vendor's
    id, the name the registry has for it, the stored pattern list, the
    label of the matching signal and [created = False]; on the way it has
    only read the registry: no prompt went to the language model and
    nothing was written. *)
Theorem known_vendor_with_template_is_resolved text file_path w vid label w1 :
  search_vendor_by_signals (extract_vendor_signals text) w
    = (inr (Some (vid, label)), w1) ->
  registry_template vid (w_templates w) <> [] ->
  exists name evs,
    identify_vendor_and_get_regex text file_path w
      = (inr (VendorContext (RefStr vid) name
                (VList (registry_template vid (w_templates w)))
                (Some false) (Some label) None),
         add_log w evs)
    /\ forallb is_read evs = true
    /\ (find_vendor_name_by_id (Some vid) w).1 = inr name.
Proof.
  intros Hsearch Htpl.
  rewrite search_vendor_by_signals_ladder in Hsearch.
  unfold identify_vendor_and_get_regex, bind at 1.
  rewrite search_vendor_by_signals_ladder.
  set (L := ladder (rungs (extract_vendor_signals text)) (w_vendors w)) in *.
  assert (Hres : L.2 = Some (vid, label)) by congruence.
  pose proof (ladder_truthy _ _ _ _ Hres) as Ht.
  rewrite Hres. cbn [option_map fst snd]. rewrite Ht.
  set (w2 := add_log w _).
  destruct (find_vendor_name_by_id_reads vid w2) as (v & e1 & He1 & Hr1).
  destruct (get_regex_for_vendor_reads vid (add_log w2 e1) Ht) as (e2 & He2 & Hr2).
  unfold bind. rewrite He1, He2.
  change (w_templates (add_log w2 e1)) with (w_templates w).
  destruct (registry_template vid (w_templates w)) as [|p ps] eqn:Hreg; [done|].
  exists v, (L.1 ++ e1 ++ e2). split; [|split].
  - unfold ret, w2. by rewrite !add_log_app.
  - rewrite !forallb_app, Hr1, Hr2. unfold L. by rewrite ladder_reads.
  - destruct (find_vendor_name_by_id_reads vid w) as (v' & e1' & He1' & _).
    rewrite He1'. cbn [fst]. f_equal.
    revert He1 He1'. unfold find_vendor_name_by_id, get_vendor_name_by_id.
    rewrite Ht. cbn [negb]. destruct (ObjectId vid) as [o|].
    + unfold bind, emit, ret. cbn [w_vendors]. unfold w2. cbn [w_vendors add_log].
      intros [= <- _] [= <- _]. done.
    + unfold bind, ret. intros [= <- _] [= <- _]. done.
Qed.

End Facts.

Section Examples.
Local Existing Instance Scripted.scripted.

Lemma phase1_answer_shape_witness :
  exists out w',
    llm_phase1_extract (u "Acme Foods") (two_vendors [inr Scripted.phase1_answer])
    = (inr out, w')
    /\ phase1_shape out.
Proof.
  destruct (llm_phase1_extract (u "Acme Foods")
              (two_vendors [inr Scripted.phase1_answer]))
    as [[e|out] w'] eqn:Hrun; [by vm_compute in Hrun|].
  exists out, w'. split; [done|].
  exact (proj1 (phase1_answer_shape _ _ _ _ Hrun)).
Defined.


(** The registry of the two vendors with a template for the first. *)
Definition acme_patterns : list pyval :=
  [VStr (u "Invoice #(\d+)"); VStr (u "Date: (\S+)")].
Definition with_template : world :=
  World [acme; globex] [TemplateDoc (u "b") (Some acme_patterns)] 0 [] tt [].

Lemma known_vendor_with_template_is_resolved_witness :
  exists name evs,
    identify_vendor_and_get_regex (u "ACME") (u "acme.pdf") with_template
      = (inr (VendorContext (RefStr (u "xb")) name (VList acme_patterns)
                (Some false) (Some (u "name")) None),
         add_log with_template evs)
    /\ forallb is_read evs = true
    /\ (find_vendor_name_by_id (Some (u "xb")) with_template).1 = inr name.
Proof.
  change (VList acme_patterns)
    with (VList (registry_template (u "xb") (w_templates with_template))).
  eapply (known_vendor_with_template_is_resolved (u "ACME") (u "acme.pdf")
            with_template (u "xb") (u "name"));
    [reflexivity | by vm_compute].
Defined.

End Examples.
End ResolutionFacts.

(** ** Lookup by name *)

Module NameLookupFacts.
Import ResolverFacts AnswerFacts.

Definition space : N := 32.

Section Facts.
Context `{Collaborators}.

(** The registry matches a stored string against an escaped literal,
    anchored at both ends, ignoring case: a space of the stored string can
    only be matched by a space of the literal. *)
Hypothesis match_keeps_spaces : forall literal stored,
  iregex_match literal stored = true -> space ∈ stored -> space ∈ literal.

Lemma ladder_found rs vendors vid label :
  (ladder rs vendors).2 = Some (vid, label) ->
  exists f literal,
    (label, Some (f, literal)) ∈ rs
    /\ lookup_vendor f literal vendors = Some vid.
Proof.
  induction rs as [|[l [[f literal]|]] rs IH]; cbn [ladder]; [done| |].
  - destruct (lookup_vendor f literal vendors) as [v|] eqn:Hv.
    + intros [= <- <-]. exists f, literal. split; [by left | done].
    + destruct (ladder rs vendors) as [evs r]. cbn [snd] in *.
      intros Hr. destruct (IH Hr) as (f' & l' & Hin & Hl).
      exists f', l'. split; [by right | done].
  - intros Hr. destruct (IH Hr) as (f' & l' & Hin & Hl).
    exists f', l'. split; [by right | done].
Qed.

Lemma lookup_vendor_found f literal vendors vid :
  lookup_vendor f literal vendors = Some vid ->
  exists d stored,
    d ∈ vendors /\ vid = oid_str (v_id d)
    /\ field_of f d = Some (VStr stored)
    /\ iregex_match literal stored = true.
Proof.
  unfold lookup_vendor.
  destruct (List.find _ vendors) as [d|] eqn:Hd; [|done].
  intros [= <-]. apply find_some in Hd as [Hin Hm].
  unfold field_matches in Hm.
  destruct (field_of f d) as [[| | |stored| |]|] eqn:Hf; try done.
  exists d, stored. split; [by apply list_elem_of_In | done].
Qed.

Lemma normalized_has_no_space name : space ∉ _normalize_name name.
Proof.
  intros Hin.
  destruct (normalize_name_chars name) as [Hchars _].
  rewrite Forall_forall in Hchars.
  apply Hchars, name_char_bounds in Hin. unfold space in Hin. lia.
Qed.

(** X19: a vendor that [search_vendor_by_signals] finds by name is
    registered under a name without a space.  The registry is asked for
    the normalized name, which holds letters and digits only, and compares
    it with the name as it was stored; so a vendor stored under a name of
    several words, as [create_vendor] stores the name the language model
    gave, is never found again by its name. *)
Theorem found_by_name_has_no_space sg w vid w' :
  search_vendor_by_signals sg w = (inr (Some (vid, u "name")), w') ->
  exists d stored name,
    d ∈ w_vendors w /\ vid = oid_str (v_id d)
    /\ v_name d = Some (VStr stored)
    /\ sig_vendor_name sg = Some name
    /\ iregex_match (_normalize_name name) stored = true
    /\ space ∉ stored.
Proof.
  rewrite search_vendor_by_signals_ladder. intros Heq.
  assert (Hres : (ladder (rungs sg) (w_vendors w)).2 = Some (vid, u "name"))
    by congruence.
  clear Heq. apply ladder_found in Hres as (f & literal & Hin & Hlook).
  unfold rungs in Hin. rewrite !elem_of_cons, elem_of_nil in Hin.
  destruct Hin as [Hin|[Hin|[Hin|[Hin|[Hin|[]]]]]];
    try (exfalso; clear -Hin; by injection Hin).
  assert (Hq : name_query (sig_vendor_name sg) = Some (f, literal))
    by congruence.
  clear Hin. unfold name_query in Hq.
  destruct (sig_vendor_name sg) as [name|]; [|done].
  destruct (_ && _); [|done]. injection Hq as <- <-.
  apply lookup_vendor_found in Hlook as (d & stored & Hd & Hvid & Hf & Hm).
  exists d, stored, name. split; [done|]. split; [done|]. split; [done|].
  split; [done|]. split; [done|].
  intros Hsp. by apply (normalized_has_no_space name), (match_keeps_spaces _ stored).
Qed.

End Facts.

Section Examples.
Local Existing Instance Scripted.scripted.

Lemma scripted_match_keeps_spaces literal stored :
  iregex_match literal stored = true -> space ∈ stored -> space ∈ literal.
Proof.
  cbn [iregex_match Scripted.scripted]. intros Hm%bool_decide_eq_true Hs.
  assert (Hin : space ∈ map ascii_lower literal).
  { rewrite Hm. apply list_elem_of_fmap. by exists space. }
  apply list_elem_of_fmap in Hin as (c & Hc & Hin).
  assert (c = space) as -> ; [|done].
  revert Hc. unfold ascii_lower, is_ascii_upper, space.
  destruct (N.leb_spec 65 c), (N.leb_spec c 90); cbn [andb]; lia.
Qed.

Lemma found_by_name_has_no_space_witness :
  exists d stored name,
    d ∈ [acme; globex] /\ u "xb" = oid_str (v_id d)
    /\ v_name d = Some (VStr stored)
    /\ Some (u "ACME") = Some name
    /\ iregex_match (_normalize_name name) stored = true
    /\ space ∉ stored.
Proof.
  apply (found_by_name_has_no_space scripted_match_keeps_spaces
           (Signals None None None (Some (u "ACME")) None) (two_vendors [])
           (u "xb")
           (add_log (two_vendors [])
              [EvFindVendor FName (_normalize_name (u "ACME"))])).
  reflexivity.
Defined.

End Examples.
End NameLookupFacts.

(** ** Quantities and the exceptions of the builder *)

Module BuilderFacts.
Import Normalizer CurrencyFacts.

Lemma lstrip_padded pre c rest :
  Forall (fun x => py_isspace x = true) pre -> py_isspace c = false ->
  lstrip (pre ++ c :: rest) = c :: rest.
Proof.
  intros Hpre Hc. induction Hpre as [|x pre Hx _ IH]; cbn [app lstrip].
  - by rewrite Hc.
  - by rewrite Hx.
Qed.

Lemma strip_padded pre post a t m b :
  a :: t = m ++ [b] ->
  Forall (fun x => py_isspace x = true) pre ->
  Forall (fun x => py_isspace x = true) post ->
  py_isspace a = false -> py_isspace b = false ->
  strip (pre ++ (a :: t) ++ post) = a :: t.
Proof.
  intros Hlast Hpre Hpost Ha Hb. unfold strip, rstrip.
  change (pre ++ (a :: t) ++ post) with (pre ++ a :: (t ++ post)).
  rewrite lstrip_padded by done.
  change (a :: t ++ post) with ((a :: t) ++ post).
  rewrite Hlast, rev_app_distr, rev_app_distr. cbn [rev app].
  rewrite lstrip_padded by (by apply Forall_rev || done).
  change (b :: rev m) with (rev [b] ++ rev m).
  by rewrite <- rev_app_distr, rev_involutive.
Qed.

Lemma decimal_integer m : decimal false m 0 = Z.of_N m # 1.
Proof. unfold decimal. cbn. f_equal. lia. Qed.

(** [float] on a plain run of digits. *)
Lemma py_float_digits D :
  digit_string D -> py_float D = Some (FNum (Z.of_N (digits_value D) # 1)).
Proof.
  intros [HD HDd]. destruct D as [|a t]; [done|]. clear HD.
  destruct (exists_last (l := a :: t)) as (m & b & Hlast); [done|].
  pose proof (Forall_inv HDd) as Ha. apply digit_bounds in Ha as Hab.
  assert (Hb : is_ascii_digit b = true).
  { rewrite Hlast in HDd. apply Forall_app in HDd as [_ Hb].
    by apply Forall_inv in Hb. }
  unfold py_float.
  rewrite (strip_same _ a t m b);
    [| done | done | by apply digit_not_space | by apply digit_not_space].
  unfold scan_sign.
  destruct (N.eqb_spec a 43); [lia|]. destruct (N.eqb_spec a 45); [lia|].
  assert (Hlow : ascii_lower a = a).
  { unfold ascii_lower, is_ascii_upper.
    destruct (N.leb_spec 65 a); [lia | done]. }
  destruct (decide _) as [[Hinf|Hinf]|_].
  { cbn [map] in Hinf. rewrite Hlow in Hinf. injection Hinf as Hinf _. lia. }
  { cbn [map] in Hinf. rewrite Hlow in Hinf. injection Hinf as Hinf _. lia. }
  destruct (decide _) as [Hnan|_].
  { cbn [map] in Hnan. rewrite Hlow in Hnan. injection Hnan as Hnan _. lia. }
  rewrite <- (app_nil_r (a :: t)) at 1.
  rewrite scan_digits_run by done.
  cbn [Nat.add length Nat.eqb]. by rewrite decimal_integer.
Qed.

Lemma space_not_comma c : py_isspace c = true -> c <> comma.
Proof. intros Hc ->. by vm_compute in Hc. Qed.

Lemma clean_quantity_groups pre post groups :
  Forall (fun c => py_isspace c = true) pre ->
  Forall (fun c => py_isspace c = true) post ->
  groups <> [] -> Forall digit_string groups ->
  _clean_quantity (VStr (pre ++ join comma groups ++ post))
  = FNum (Z.of_N (digits_value (concat groups)) # 1).
Proof.
  intros Hpre Hpost Hne Hgroups.
  unfold _clean_quantity. cbn [py_str].
  rewrite !replace_char_app, replace_join by (done || by left).
  rewrite !replace_char_absent
    by (eapply Forall_impl; [eassumption | apply space_not_comma]).
  destruct (concat_digits groups Hne Hgroups) as [HD HDd].
  destruct (concat groups) as [|a t] eqn:Hcat; [done|].
  destruct (exists_last (l := a :: t)) as (m & b & Hlast); [done|].
  assert (Ha : is_ascii_digit a = true) by by apply Forall_inv in HDd.
  assert (Hb : is_ascii_digit b = true).
  { rewrite Hlast in HDd. apply Forall_app in HDd as [_ Hb].
    by apply Forall_inv in Hb. }
  rewrite (strip_padded pre post a t m b)
    by (done || by apply digit_not_space).
  by rewrite py_float_digits.
Qed.

(** X13: [_clean_quantity] never fails and never returns [None]: a missing
    quantity, and any text that [float] rejects once its commas are
    removed, is the quantity 0.0.  Every comma is dropped, so a comma is
    always read as a thousands separator: digit groups joined by commas,
    with any surrounding white space, give the integer spelled by the
    digits.  In particular ["d,dd"] is a whole number as a quantity, where
    [_parse_currency_amount] reads the same text as an amount with two
    decimals. *)
Theorem clean_quantity_reads_commas_as_thousands :
  _clean_quantity VNone = FNum 0.0
  /\ (forall s,
        py_float (strip (replace_char comma [] s)) = None ->
        _clean_quantity (VStr s) = FNum 0.0)
  /\ (forall pre post groups,
        Forall (fun c => py_isspace c = true) pre ->
        Forall (fun c => py_isspace c = true) post ->
        groups <> [] -> Forall digit_string groups ->
        _clean_quantity (VStr (pre ++ join comma groups ++ post))
        = FNum (Z.of_N (digits_value (concat groups)) # 1))
  /\ (forall a b,
        digit_string a -> digit_string b -> length b = 2 ->
        _clean_quantity (VStr (a ++ [comma] ++ b))
        = FNum (Z.of_N (digits_value (a ++ b)) # 1)
        /\ _parse_currency_amount (VStr (a ++ [comma] ++ b))
           = Some (FNum (Z.of_N (digits_value (a ++ b)) # 100))).
Proof.
  split; [done|]. split; [|split].
  - intros s Hs. unfold _clean_quantity. cbn [py_str]. by rewrite Hs.
  - apply clean_quantity_groups.
  - intros a b Ha Hb Hlen. split.
    + pose proof (clean_quantity_groups [] [] [a; b]) as Hq.
      cbn [join flat_map app concat] in Hq. rewrite !app_nil_r in Hq.
      apply Hq; [constructor | constructor | done |].
      constructor; [done|]. constructor; [done | constructor].
    + unfold _parse_currency_amount.
      assert (Ht : truthy (a ++ [comma] ++ b) = true).
      { destruct a as [|? ?]; [by destruct Ha | done]. }
      cbn [py_truthy py_str]. rewrite Ht. cbn [negb].
      pose proof (currency_cleaned_groups [] [] [a] b period comma) as Hc.
      cbn [join flat_map app concat] in Hc. rewrite !app_nil_r in Hc.
      change (a ++ [comma] ++ b) with (a ++ comma :: b).
      rewrite Hc;
        [| by right | constructor | constructor | done
         | constructor; [done | constructor] | done | done].
      change (a ++ period :: b) with (a ++ [period] ++ b).
      rewrite (py_float_decimal a b) by done. by rewrite Hlen.
Qed.

Lemma clean_quantity_reads_commas_as_thousands_witness :
  _clean_quantity (VStr (u " 1,250 ")) = FNum 1250
  /\ _clean_quantity (VStr (u "1,50")) = FNum 150
  /\ _parse_currency_amount (VStr (u "1,50")) = Some (FNum 1.50).
Proof.
  destruct clean_quantity_reads_commas_as_thousands as (_ & _ & Hgroups & Hpair).
  split.
  - apply (Hgroups (u " ") (u " ") [u "1"; u "250"]);
      try done; repeat constructor; done.
  - apply (Hpair (u "1") (u "50")); try done; split; try done;
      repeat constructor; done.
Defined.

Section Exceptions.
Context `{Collaborators}.

(** The exception comes out of the categorizer. *)
Definition raised_by_categorizer (e : exn) : Prop :=
  exists description st st',
    get_line_item_category description st = (inl e, st').

Definition msg_empty_input : pystr := u "Input text cannot be empty".
Definition msg_regex_failed (exc : exn) : pystr :=
  u "Failed to apply regex: " ++ exn_str exc.
Definition msg_no_category (description : pystr) : pystr :=
  u "Could not determine category for: " ++ description.

Lemma build_rows_raises vendor_name items : forall acc w e w',
  build_rows vendor_name items acc w = (inl e, w') ->
  (exists description, e = ValueError (msg_no_category description))
  \/ raised_by_categorizer e.
Proof.
  induction items as [|[idx item] items IH]; intros acc w e w'; [done|].
  cbn [build_rows].
  destruct item as [| | | | |d]; try apply IH.
  destruct (get (u "description") d) as [| | |description0| |]; try apply IH.
  destruct (truthy (strip description0)) eqn:Ht; cbn [negb]; [|apply IH].
  unfold bind at 1, _determine_category, bind, emit. cbn [w_cat].
  destruct (get_line_item_category (strip description0) (w_cat w))
    as [[e0|[c|]] c'] eqn:Hcat.
  - intros [= <- _]. right. by eexists _, _, _.
  - apply IH.
  - intros [= <- _]. left. by eexists.
Qed.

(** X14: no exception of the vendor resolution leaves
    [get_structured_data_from_text].  What the function raises is a
    [ValueError] of its own, for a blank input text (before anything else
    is done), for a failed extraction, or for a line item the categorizer
    has no category for, or else an exception raised inside the
    categorizer. *)
Theorem structured_data_exceptions extracted_text filename text_length page_count
    extraction_timestamp restaurant_id file_path w e w' :
  get_structured_data_from_text extracted_text filename text_length page_count
    extraction_timestamp restaurant_id file_path w = (inl e, w') ->
  (truthy (strip extracted_text) = false
   /\ e = ValueError msg_empty_input /\ w' = w)
  \/ (truthy (strip extracted_text) = true
      /\ ((exists exc, e = ValueError (msg_regex_failed exc))
          \/ (exists description, e = ValueError (msg_no_category description))
          \/ raised_by_categorizer e)).
Proof.
  unfold get_structured_data_from_text.
  destruct (truthy (strip extracted_text)) eqn:Ht; cbn [negb].
  2:{ intros [= <- <-]. by left. }
  intros Hrun. right. split; [done|].
  unfold bind at 1, try_except in Hrun.
  destruct (identify_vendor_and_get_regex extracted_text file_path w)
    as [[exc|ctx] w1].
  - unfold bind at 1, new_object_id, ret in Hrun.
    revert Hrun. generalize (fallback_context (new_oid (w_oid_counter w1))
                               (exn_str exc)).
    intros ctx. unfold extract_and_build.
    destruct (apply_regex_extraction _ _) as [exc'|[inv items]].
    + intros [= <- _]. left. by eexists.
    + unfold bind, _build_line_items_records.
      destruct (build_rows _ _ _ _) as [[e0|rows] w2] eqn:Hrows; [|done].
      intros [= <- _]. right. by eapply build_rows_raises.
  - revert Hrun. unfold extract_and_build.
    destruct (apply_regex_extraction _ _) as [exc'|[inv items]].
    + intros [= <- _]. left. by eexists.
    + unfold bind, _build_line_items_records.
      destruct (build_rows _ _ _ _) as [[e0|rows] w2] eqn:Hrows; [|done].
      intros [= <- _]. right. by eapply build_rows_raises.
Qed.

End Exceptions.

Section Examples.
Local Existing Instance Scripted.scripted.

Lemma structured_data_exceptions_witness :
  get_structured_data_from_text (u "  ") (u "blank.pdf") 2 1 (u "2024-01-31")
    (u "r1") (u "blank.pdf") NormalizerFacts.empty_world
  = (inl (ValueError msg_empty_input), NormalizerFacts.empty_world).
Proof.
  destruct (get_structured_data_from_text (u "  ") (u "blank.pdf") 2 1
              (u "2024-01-31") (u "r1") (u "blank.pdf")
              NormalizerFacts.empty_world) as [[e|r] w'] eqn:Hrun;
    [|by vm_compute in Hrun].
  destruct (structured_data_exceptions _ _ _ _ _ _ _ _ _ _ Hrun)
    as [(_ & -> & ->)|[Ht _]]; [done | by vm_compute in Ht].
Defined.

End Examples.

End BuilderFacts.

(** ** Categorizer *)

Module CategorizerFacts.
Import Categorizer.

Section Facts.
Variable clean_description : pystr -> pystr.
Variable lower : pystr -> pystr.
Variable model_state : Type.
Variable generate_content :
  pystr -> list pystr -> model_state -> option pystr * model_state.

Local Abbreviation store := (cat_store model_state).
Local Abbreviation categorize :=
  (get_line_item_category clean_description lower model_state generate_content).

(** A category worth remembering. *)
Definition memorable (category : pystr) : Prop :=
  truthy category = true /\ category <> Uncategorized.

(** The description has a non-blank line. *)
Definition describes (description : pystr) : Prop :=
  truthy (strip description) = true.

Lemma describes_truthy description : describes description -> truthy description = true.
Proof. unfold describes. by destruct description. Qed.

Lemma stored_hit description category (st : store) :
  describes description ->
  get_stored_category model_state (clean_description description) st = Some category ->
  truthy category = true ->
  categorize description st = (inr category, st).
Proof.
  intros Hd Hs Hc. unfold get_line_item_category.
  rewrite (describes_truthy _ Hd), Hd, Hs. by destruct category.
Qed.

Lemma categorize_cases description (st : store) :
  describes description ->
  (exists category,
     get_stored_category model_state (clean_description description) st
       = Some category
     /\ truthy category = true
     /\ categorize description st = (inr category, st))
  \/ (exists predicted st1,
        predict_category_with_llm model_state generate_content
          (clean_description description) (categories _ st) st
        = (predicted, st1)
        /\ categorize description st
           = (inr predicted,
              save_category_result lower model_state
                (clean_description description) predicted (categories _ st) st1)).
Proof.
  intros Hd. unfold get_line_item_category.
  rewrite (describes_truthy _ Hd), Hd. cbn [negb].
  destruct (get_stored_category _ _ st) as [[|c s]|] eqn:Hs.
  - right. unfold get_all_category_names.
    destruct (predict_category_with_llm _ _ _ _ st) as [p st1]. by eexists _, _.
  - left. by eexists.
  - right. unfold get_all_category_names.
    destruct (predict_category_with_llm _ _ _ _ st) as [p st1]. by eexists _, _.
Qed.

Lemma predict_frame description existing (st : store) predicted st1 :
  predict_category_with_llm model_state generate_content description existing st
    = (predicted, st1) ->
  categories _ st1 = categories _ st
  /\ item_lookup_map _ st1 = item_lookup_map _ st
  /\ requests _ st1 = requests _ st ++ [(description, existing)].
Proof.
  unfold predict_category_with_llm.
  destruct (generate_content _ _ _) as [[text|] m]; by intros [= <- <-].
Qed.

(** X15: the categorizer remembers.  Once [get_line_item_category] has
    returned, for a description with a non-blank line, a category that is
    neither empty nor ["Uncategorized"], every later call for a description
    that cleans to the same text returns the same category from the lookup
    map: the model is not asked again and nothing is written. *)
Theorem categories_are_remembered description description' category
    (st st1 : store) :
  describes description -> describes description' ->
  clean_description description' = clean_description description ->
  categorize description st = (inr category, st1) ->
  memorable category ->
  categorize description' st1 = (inr category, st1).
Proof.
  intros Hd Hd' Hclean Hrun [Ht Hne].
  apply stored_hit; [done | | done]. rewrite Hclean.
  destruct (categorize_cases description st Hd)
    as [(c & Hs & Hc & Hhit)|(p & s1 & Hp & Hmiss)].
  - rewrite Hhit in Hrun. by injection Hrun as <- <-.
  - rewrite Hmiss in Hrun. injection Hrun as <- <-.
    unfold save_category_result. rewrite Ht. cbn [negb orb].
    rewrite bool_decide_eq_false_2 by done.
    unfold get_stored_category, upsert_item_mapping. cbn [item_lookup_map].
    by rewrite lookup_insert_eq.
Qed.

Lemma insert_master_category_spec category_name (st : store) :
  categories _ (insert_master_category model_state category_name st)
  = (if bool_decide (category_name ∈ categories _ st) then categories _ st
     else categories _ st ++ [category_name])
  /\ item_lookup_map _ (insert_master_category model_state category_name st)
     = item_lookup_map _ st
  /\ requests _ (insert_master_category model_state category_name st)
     = requests _ st.
Proof.
  unfold insert_master_category. by case_bool_decide.
Qed.

(** X16: what one call of [get_line_item_category] does to the store.  An
    empty description is ["Uncategorized"] and a description of white
    space only raises [IndexError], both without asking the model or
    writing anything.  Otherwise the call returns a category; it asks the
    model at most once, and not at all when the cleaned description has a
    stored category.  It writes only a memorable category: the lookup map
    is unchanged, or gains the entry from the cleaned description to the
    returned category, which is then neither empty nor ["Uncategorized"];
    the master list is unchanged, or gains the returned category at its
    end, and only if no category of the list equals it up to case.  So a
    master list without two names equal up to case stays so. *)
Theorem categorizer_writes_only_memorable description r (st st1 : store) :
  categorize description st = (r, st1) ->
  (truthy description = false -> r = inr Uncategorized /\ st1 = st)
  /\ (truthy description = true -> truthy (strip description) = false ->
      r = inl IndexError /\ st1 = st)
  /\ (describes description ->
      exists category,
        r = inr category
        /\ (requests _ st1 = requests _ st
            \/ requests _ st1
               = requests _ st ++ [(clean_description description, categories _ st)])
        /\ (item_lookup_map _ st1 = item_lookup_map _ st
            \/ (memorable category
                /\ item_lookup_map _ st1
                   = <[clean_description description := Some category]>
                       (item_lookup_map _ st)))
        /\ (categories _ st1 = categories _ st
            \/ (memorable category
                /\ (lower category ∉ map lower (categories _ st))
                /\ categories _ st1 = categories _ st ++ [category]))
        /\ (NoDup (map lower (categories _ st)) ->
            NoDup (map lower (categories _ st1)))).
Proof.
  intros Hrun. split; [|split].
  { intros Hd. unfold get_line_item_category in Hrun. rewrite Hd in Hrun.
    by injection Hrun as <- <-. }
  { intros Hd Hb. unfold get_line_item_category in Hrun.
    rewrite Hd, Hb in Hrun. by injection Hrun as <- <-. }
  intros Hd.
  destruct (categorize_cases description st Hd)
    as [(c & Hs & Hc & Hhit)|(p & s1 & Hp & Hmiss)].
  { rewrite Hhit in Hrun. injection Hrun as <- <-. exists c.
    split; [done|]. split; [by left|]. split; [by left|].
    split; [by left | done]. }
  rewrite Hmiss in Hrun. injection Hrun as <- <-. exists p. split; [done|].
  apply predict_frame in Hp as (Hcat & Hmap & Hreq).
  unfold save_category_result.
  destruct (negb (truthy p) || bool_decide (p = Uncategorized)) eqn:Hskip.
  { split; [by right|]. split; [by left|].
    split; [by left | by rewrite Hcat]. }
  apply orb_false_iff in Hskip as [Ht Hne].
  apply negb_false_iff in Ht. apply bool_decide_eq_false in Hne.
  assert (Hmem : memorable p) by done.
  cbn [upsert_item_mapping requests item_lookup_map categories].
  destruct (bool_decide (lower p ∈ map lower (categories _ st))) eqn:Hin.
  - cbn [requests item_lookup_map categories].
    split; [by right|]. split; [right; by rewrite Hmap|].
    split; [by left | by rewrite Hcat].
  - apply bool_decide_eq_false in Hin.
    destruct (insert_master_category_spec p s1) as (Hc' & Hm' & Hr').
    assert (Hfresh : p ∉ categories _ s1).
    { rewrite Hcat. intros Hp. apply Hin. apply list_elem_of_fmap. by exists p. }
    rewrite bool_decide_eq_false_2 in Hc' by done.
    rewrite Hr', Hm', Hc', Hmap, Hcat.
    split; [by right|]. split; [by right|].
    split; [by right|].
    intros Hnd. rewrite map_app. apply NoDup_app. split; [done|]. split.
    + intros x Hx Hx'. apply list_elem_of_singleton in Hx'. by subst x.
    + apply NoDup_singleton.
Qed.

End Facts.

(** A model that answers every request with the same text; descriptions
    are cleaned by stripping them, names compared with ASCII case folded. *)
Definition says (text : pystr) (description : pystr) (existing : list pystr)
    (m : unit) : option pystr * unit := (Some text, m).

Definition dairy_store : cat_store unit := CatStore unit [u "Dairy"] ∅ tt [].

Definition categorize_produce
  : pystr -> cat_store unit -> (cat_exn + pystr) * cat_store unit :=
  get_line_item_category strip (map ascii_lower) unit (says (u " **Produce** ")).

Lemma categories_are_remembered_witness :
  let first := categorize_produce (u "Tomato ") dairy_store in
  first.1 = inr (u "Produce")
  /\ requests _ first.2 = [(u "Tomato", [u "Dairy"])]
  /\ categorize_produce (u " Tomato") first.2 = (inr (u "Produce"), first.2).
Proof.
  intros first.
  assert (H1 : first.1 = inr (u "Produce")) by by vm_compute.
  split; [done|]. split; [by vm_compute|].
  apply (categories_are_remembered strip (map ascii_lower) unit
           (says (u " **Produce** ")) (u "Tomato ") (u " Tomato") (u "Produce")
           dairy_store first.2);
    [done | done | done | | done].
  rewrite <- H1. apply surjective_pairing.
Defined.

Lemma categorizer_writes_only_memorable_witness :
  categorize_produce (u "  ") dairy_store = (inl IndexError, dairy_store).
Proof.
  destruct (categorize_produce (u "  ") dairy_store) as [r st1] eqn:Hrun.
  destruct (categorizer_writes_only_memorable strip (map ascii_lower) unit
              (says (u " **Produce** ")) (u "  ") r dairy_store st1 Hrun)
    as (_ & Hblank & _).
  by destruct Hblank as [-> ->].
Defined.

End CategorizerFacts.

(** ** Capture groups *)

Module PatternFacts.

Definition open_paren : N := 40.
Definition backslash : N := 92.
Definition question_mark : N := 63.

(** The number of opening parentheses of a string. *)
Definition parens (s : pystr) : nat :=
  length (filter (fun c => c = open_paren) s).

Lemma count_open_groups_le s : forall prev, count_open_groups prev s <= parens s.
Proof.
  induction s as [|c s IH]; intros prev; [done|]. cbn [count_open_groups].
  specialize (IH (c =? 92)%N). unfold parens in *.
  destruct (N.eqb_spec c 40) as [->|Hc].
  - rewrite filter_cons_True by done. cbn [length].
    destruct (_ && _ && _); lia.
  - rewrite filter_cons_False by done. cbn [andb]. lia.
Qed.

Lemma starts_with_question s :
  Forall (fun c => c <> question_mark) s -> starts_with (u "?:") s = false.
Proof.
  intros Hs. unfold starts_with. apply bool_decide_eq_false.
  destruct Hs as [|c s Hc _]; [done|]. cbn. intros [= ? _]. done.
Qed.

Lemma count_open_groups_plain s :
  Forall (fun c => c <> backslash /\ c <> question_mark) s ->
  count_open_groups false s = parens s.
Proof.
  induction 1 as [|c s [Hb Hq] Hs IH]; [done|]. cbn [count_open_groups].
  rewrite starts_with_question
    by (eapply Forall_impl; [exact Hs | by intros ? [_ ?]]).
  destruct (N.eqb_spec c 92) as [?|_]; [done|]. rewrite IH. unfold parens.
  destruct (N.eqb_spec c 40) as [->|Hc].
  - by rewrite filter_cons_True.
  - by rewrite filter_cons_False.
Qed.

(** X17: [_count_capture_groups] never counts more groups than the pattern
    has opening parentheses, counts none in a value that is not a string,
    and counts exactly the opening parentheses of a pattern that contains
    neither a backslash nor a question mark. *)
Theorem count_capture_groups_bounds :
  (forall s, _count_capture_groups (VStr s) <= parens s)
  /\ (forall v, (forall s, v <> VStr s) -> _count_capture_groups v = 0)
  /\ (forall s,
        Forall (fun c => c <> backslash /\ c <> question_mark) s ->
        _count_capture_groups (VStr s) = parens s).
Proof.
  split; [|split].
  - intros s. apply count_open_groups_le.
  - intros [| | |s| |] Hv; try done. by destruct (Hv s).
  - apply count_open_groups_plain.
Qed.

Lemma count_capture_groups_bounds_witness :
  _count_capture_groups (VStr (u "Total: (a|b) (c)")) = 2.
Proof.
  apply (proj2 (proj2 count_capture_groups_bounds) (u "Total: (a|b) (c)")).
  apply Forall_forall. intros c Hc. apply list_elem_of_In in Hc.
  vm_compute in Hc. unfold backslash, question_mark.
  repeat (destruct Hc as [<-|Hc]; [split; discriminate|]). done.
Defined.

End PatternFacts.

(** ** Patterns of the extraction *)

Module ExtractorFacts.
Import Extractor ResolverFacts RegistryFacts.

Lemma adapt_flatten regexes patterns :
  flatten_patterns regexes = Some patterns ->
  adapt (VDict regexes) = inr (VList patterns).
Proof.
  unfold flatten_patterns, level_dict, adapt, pattern_of.
  destruct (get_default (u "invoice_level") (VDict []) regexes)
    as [| | | | |inv]; try done.
  destruct (get_default (u "line_item_level") (VDict []) regexes)
    as [| | | | |li]; try done.
  cbn [mbind option_bind]. by intros [= <-].
Qed.

Lemma unpack_length l :
  (exists p, unpack (VList l) = inr p) <-> length l = 11.
Proof.
  unfold unpack. split.
  - intros [p Hp]. do 11 (destruct l as [|? l]; [done|]).
    by destruct l.
  - intros Hl. do 11 (destruct l as [|? l]; [done|]).
    destruct l; [by eexists | done].
Qed.

Section Facts.
Context `{Collaborators}.

(** X18: [apply_regex_extraction] works with the same eleven patterns
    whether it is handed a template as the dictionary that phase 2
    produced or as the list that [save_vendor_regex_template] stored from
    it and [get_vendor_regex_patterns] reads back: its own adapter puts the
    patterns in the order of the stored list.  So the first invoice of a
    new vendor and the later ones are extracted with the same patterns.  A
    list of any other length than eleven is refused with a [ValueError]
    before anything is extracted. *)
Theorem extraction_patterns_survive_storage :
  (forall regexes patterns,
     flatten_patterns regexes = Some patterns ->
     patterns_of (VDict regexes) = patterns_of (VList patterns)
     /\ exists p, patterns_of (VDict regexes) = inr p)
  /\ (forall vid o regexes patterns w w1,
        truthy vid = true -> ObjectId vid = Some o -> regexes <> [] ->
        flatten_patterns regexes = Some patterns ->
        save_vendor_regex_template (Some vid) (VDict regexes) w = (inr tt, w1) ->
        exists stored,
          (get_vendor_regex_patterns vid w1).1 = inr stored
          /\ patterns_of (VList stored) = patterns_of (VDict regexes))
  /\ (forall l, length l <> 11 -> patterns_of (VList l) = inl UnpackValueError).
Proof.
  assert (Hsame : forall regexes patterns,
            flatten_patterns regexes = Some patterns ->
            patterns_of (VDict regexes) = patterns_of (VList patterns)).
  { intros regexes patterns Hflat. unfold patterns_of.
    by rewrite (adapt_flatten _ _ Hflat). }
  split; [|split].
  - intros regexes patterns Hflat. split; [by apply Hsame|].
    rewrite (Hsame _ _ Hflat). unfold patterns_of. cbn [adapt].
    apply unpack_length. by eapply flatten_patterns_length.
  - intros vid o regexes patterns w w1 Ht Ho Hne Hflat Hsave.
    destruct (saved_template_is_read_back_lemma vid o regexes patterns w
                Ht Ho Hne Hflat) as (w1' & Hsave' & _ & _ & Hget & _).
    assert (w1' = w1) as -> by congruence.
    exists patterns. split; [done|]. symmetry. by apply Hsame.
  - intros l Hl. unfold patterns_of. cbn [adapt]. unfold unpack.
    do 11 (destruct l as [|? l]; [done|]). by destruct l.
Qed.

End Facts.

Section Examples.
Local Existing Instance Scripted.scripted.

Lemma extraction_patterns_survive_storage_witness :
  exists p,
    patterns_of Scripted.phase2_answer = inr p
    /\ p_inv_num p = VStr (u "Invoice #(\d+)")
    /\ p_li_total p = VStr (u "(\d+\.\d{2})$").
Proof.
  destruct (proj1 extraction_patterns_survive_storage
              [ (u "invoice_level", VDict Scripted.good_invoice_level);
                (u "line_item_level",
                 VDict (Scripted.line_item_level_with (u "Description")
                          (u "\s(EA|LB)\s"))) ]
              _ eq_refl) as [_ [p Hp]].
  exists p. split; [exact Hp|]. by vm_compute in Hp; injection Hp as <-.
Defined.

End Examples.
End ExtractorFacts.

(** ** Text of a PDF *)

Module PdfTextFacts.
Import PdfText.

Section Facts.
Context {Page : Type}.
Variable open_pdf : pystr -> option (list Page).
Variable extract_text : Page -> extraction.
Variable path_name : pystr -> pystr.
Variable now : pystr.

(** The contribution of a page that could be read: its text and a line
    feed, nothing for a page without text. *)
Definition page_text (page : Page) : pystr :=
  match extract_text page with
  | Returns (Some ((_ :: _) as text)) => text ++ [10%N]
  | _ => []
  end.

Definition readable (page : Page) : Prop := extract_text page <> Raises.

Lemma read_pages_all pages : forall acc,
  Forall readable pages ->
  read_pages extract_text pages acc = Some (acc ++ flat_map page_text pages).
Proof.
  induction pages as [|page pages IH]; intros acc Hall; cbn [read_pages flat_map].
  - by rewrite app_nil_r.
  - apply Forall_cons in Hall as [Hp Hall]. unfold readable in Hp.
    unfold page_text at 1.
    destruct (extract_text page) as [|[[|c text]|]]; [done|..];
      rewrite IH by done; by rewrite ?app_nil_l, <- ?app_assoc.
Qed.

Lemma read_pages_raises pages : forall acc,
  Exists (fun page => extract_text page = Raises) pages ->
  read_pages extract_text pages acc = None.
Proof.
  induction pages as [|page pages IH]; intros acc Hex; [by inversion Hex|].
  cbn [read_pages]. apply Exists_cons in Hex as [Hp|Hex]; [by rewrite Hp|].
  destruct (extract_text page) as [|[[|c text]|]]; [done|..]; by apply IH.
Qed.

(** X20: [extract_text_from_pdf] never raises and always reports the
    length of the text it returns.  When every page can be read the text
    is the concatenation, in page order, of the page texts, each followed
    by a line feed, pages without text contributing nothing, and the page
    count is the number of pages.  When some page raises, the whole text
    is dropped: the text is empty and its length 0, yet the page count is
    still the number of pages.  When the file cannot be opened the text is
    empty and the page count is 0. *)
Theorem extract_text_from_pdf_cases file_path :
  let '(extracted_text, filename, text_length, page_count, extraction_timestamp) :=
    extract_text_from_pdf open_pdf extract_text path_name now file_path in
  text_length = length extracted_text
  /\ filename = path_name file_path
  /\ match open_pdf file_path with
     | None => extracted_text = [] /\ page_count = 0
     | Some pages =>
         page_count = length pages
         /\ (Forall readable pages ->
             extracted_text = flat_map page_text pages)
         /\ (Exists (fun page => extract_text page = Raises) pages ->
             extracted_text = [])
     end.
Proof.
  unfold extract_text_from_pdf.
  destruct (open_pdf file_path) as [pages|]; [|done].
  destruct (read_pages extract_text pages []) as [text|] eqn:Hread.
  - split; [done|]. split; [done|]. split; [done|]. split.
    + intros Hall. rewrite read_pages_all in Hread by done. by injection Hread.
    + intros Hex. by rewrite read_pages_raises in Hread.
  - split; [done|]. split; [done|]. split; [done|]. split; [|done].
    intros Hall. by rewrite read_pages_all in Hread.
Qed.

End Facts.

(** A document of three pages, given by what their extraction does. *)
Definition three_pages : list extraction :=
  [Returns (Some (u "ab")); Returns None; Returns (Some (u "c"))].

Lemma extract_text_from_pdf_cases_witness :
  let '(extracted_text, filename, text_length, page_count, extraction_timestamp) :=
    extract_text_from_pdf (fun _ => Some three_pages) (fun page => page)
      (fun path => path) (u "2024-01-31 10:00:00") (u "a.pdf") in
  text_length = length extracted_text
  /\ page_count = 3
  /\ extracted_text = u "ab" ++ [10%N] ++ u "c" ++ [10%N].
Proof.
  pose proof (extract_text_from_pdf_cases (fun _ => Some three_pages)
                (fun page => page) (fun path => path) (u "2024-01-31 10:00:00")
                (u "a.pdf")) as Hcases.
  cbn beta in Hcases.
  destruct (extract_text_from_pdf _ _ _ _ _) as [[[[text name] len] count] ts].
  destruct Hcases as (Hlen & Hname & Hcount & Hall & _).
  split; [done|]. split; [done|]. apply Hall.
  repeat constructor; done.
Defined.

End PdfTextFacts.
